(** * PowerAdvisor: a shallow embedding of
      services/surfaceflinger/DisplayHardware/PowerAdvisor.cpp

    The development follows the source file top to bottom: the two
    HAL wrappers ([Hidl], [Aidl]), then the [PowerAdvisor] facade with its
    lazily connected, function-static wrapper ([getPowerHal]).

    Conventions.
    - [int64_t], [nsecs_t] and [int32_t] values are integers of [Z].  The
      sums and differences that the source computes on durations are reduced
      to the range of [int64_t] ([Int64.add], [Int64.sub]): C++ leaves signed
      overflow undefined, and the two's complement result is what the
      compiled code computes.  The difference of two time stamps (lines 93
      and 463) is written without the reduction: [systemTime()] is never
      negative, so it cannot leave the range.
    - [double] is IEEE binary64 and [long double] is a binary format chosen
      by the platform ([long_double] of [Config]); both are computed with the
      reference implementation of the Standard Library ([SpecFloat]),
      rounding to nearest even.
    - Every binder or HIDL transaction goes through [remote]: the call is
      appended to the log of the environment and answered by the oracle
      [hal], so that a theorem quantified over the environment holds for
      every behaviour of the Power HAL.
    - [systemTime()] reads the next value of the oracle [clock].
    - ALOG*/ATRACE* lines have no effect on the state and are left out. *)

From Stdlib Require Import ZArith List Bool Lia.
From Stdlib Require Import Floats.SpecFloat.
From stdpp Require Import base option list gmap.
Import ListNotations.
Local Open Scope Z_scope.

(** ** 64-bit integers *)

Module Int64.

Definition min : Z := - 2 ^ 63.
Definition max : Z := 2 ^ 63 - 1.

(** The [int64_t] with the bits of [z]: [z] itself when it is in range. *)
Definition wrap (z : Z) : Z := (z + 2 ^ 63) mod 2 ^ 64 - 2 ^ 63.

Definition add (x y : Z) : Z := wrap (x + y).
Definition sub (x y : Z) : Z := wrap (x - y).

End Int64.

(** ** Floating point *)

Module FP.

Record format := Format { prec : Z; emax : Z }.

Definition binary64 : format := Format 53 1024.
Definition x87_extended : format := Format 64 16384.
Definition binary128 : format := Format 113 16384.

(** [static_cast<T>(z)] for an integer [z] and a floating type [T]. *)
Definition of_int (f : format) (z : Z) : spec_float :=
  binary_normalize (prec f) (emax f) z 0 false.

Definition div (f : format) : spec_float -> spec_float -> spec_float :=
  SFdiv (prec f) (emax f).
Definition mul (f : format) : spec_float -> spec_float -> spec_float :=
  SFmul (prec f) (emax f).
Definition sub (f : format) : spec_float -> spec_float -> spec_float :=
  SFsub (prec f) (emax f).

Definition abs : spec_float -> spec_float := SFabs.

(** [x >= y]; false as soon as one side is a NaN. *)
Definition geb (x y : spec_float) : bool := SFleb y x.

(** The integer part of a finite value: the fraction is discarded. *)
Definition trunc (x : spec_float) : option Z :=
  match x with
  | S754_zero _ => Some 0
  | S754_finite s m e =>
      let a := Z.shiftl (Z.pos m) e in Some (if s then - a else a)
  | _ => None
  end.

(** [static_cast<int64_t>(x)]: the integer part of [x] when it fits.  The
    conversion of a NaN, of an infinity or of a value outside the range of
    [int64_t] is undefined in C++; the model takes what the conversion
    instructions of x86-64 (cvttsd2si, fisttp) store in that case, the
    smallest [int64_t]. *)
Definition to_int (x : spec_float) : Z :=
  match trunc x with
  | Some z => if (Int64.min <=? z) && (z <=? Int64.max) then z else Int64.min
  | None => Int64.min
  end.

End FP.

(** ** Constants and system properties

    [kAllowedTargetDeviationPercent] ... [kTargetSafetyMargin] are constants
    of the class declarations (PowerAdvisor.h), [sNormalizeTarget] and the
    update-imminent timeout are read from system properties when the process
    starts.  None of their values is fixed by PowerAdvisor.cpp, so the model
    takes them as a parameter. *)

Record Config := {
  kAllowedTargetDeviationPercent : spec_float;  (* double *)
  kAllowedActualDeviationPercent : spec_float;  (* double *)
  kStaleTimeout : Z;                            (* kStaleTimeout.count() *)
  kDefaultTarget : Z;                           (* kDefaultTarget.count() *)
  kTargetSafetyMargin : Z;                      (* kTargetSafetyMargin.count() *)
  sNormalizeTarget : bool;  (* debug.sf.normalize_hint_session_durations *)
  display_update_imminent_timeout_ms : Z;       (* getUpdateTimeout().count() *)
  long_double : FP.format
}.

(** [getUpdateTimeout()] as a number of nanoseconds. *)
Definition getUpdateTimeout (cfg : Config) : Z :=
  1000000 * display_update_imminent_timeout_ms cfg.

(** ** The environment: Power HAL and clock *)

Record WorkDuration := { durationNanos : Z; timeStampNanos : Z }.

(** A hint session of the HAL is named by the position, in the log, of the
    [createHintSession] call that returned it. *)
Definition SessionId := nat.

Inductive HalCall :=
  (* AIDL IPower *)
  | WaitForVintfService
  | IsModeSupported              (* Mode::EXPENSIVE_RENDERING *)
  | IsBoostSupported             (* Boost::DISPLAY_UPDATE_IMMINENT *)
  | GetHintSessionPreferredRate
  | CreateHintSession (threadIds : list Z) (targetNanos : Z)
  | SetMode (enabled : bool)     (* Mode::EXPENSIVE_RENDERING *)
  | SetBoost                     (* Boost::DISPLAY_UPDATE_IMMINENT, 0 *)
  (* AIDL IPowerHintSession *)
  | SessionClose (s : SessionId)
  | UpdateTargetWorkDuration (s : SessionId) (targetNanos : Z)
  | ReportActualWorkDuration (s : SessionId) (durations : list WorkDuration)
  (* HIDL IPower *)
  | HidlGetService               (* V1_0::IPower::getService() *)
  | HidlCastFrom                 (* V1_3::IPower::castFrom *)
  | PowerHintAsync_1_3 (enabled : bool).  (* PowerHint::EXPENSIVE_RENDERING *)

(** The answer to a call: [isOk] is [ret.isOk()]; [out] is the value written
    through the out-parameter, or whether the pointer that comes back is
    non-null. *)
Record Reply := { isOk : bool; out : bool }.

Record Env := {
  hal : nat -> HalCall -> Reply;  (* answer to the n-th call *)
  log : list HalCall;             (* calls made so far, oldest first *)
  clock : nat -> Z;               (* n-th reading of systemTime() *)
  ticks : nat                     (* readings made so far *)
}.

Definition remote (c : HalCall) (e : Env) : Reply * Env :=
  (hal e (length (log e)) c,
   {| hal := hal e; log := log e ++ [c]; clock := clock e; ticks := ticks e |}).

Definition systemTime (e : Env) : Z * Env :=
  (clock e (ticks e),
   {| hal := hal e; log := log e; clock := clock e; ticks := S (ticks e) |}).

(** The calls made between two environments of one execution. *)
Definition calls_since (e e' : Env) : list HalCall :=
  drop (length (log e)) (log e').

(** ** HidlPowerHalWrapper *)

Module Hidl.

(** [HidlPowerHalWrapper::connect]: whether a wrapper is returned. *)
Definition connect (e : Env) : bool * Env :=
  let (r0, e) := remote HidlGetService e in
  if out r0 then
    let (r3, e) := remote HidlCastFrom e in
    (out r3, e)
  else (false, e).

Definition setExpensiveRendering (enabled : bool) (e : Env) : bool * Env :=
  let (ret, e) := remote (PowerHintAsync_1_3 enabled) e in
  (isOk ret, e).

Definition notifyDisplayUpdateImminent (e : Env) : bool * Env := (true, e).

End Hidl.

(** ** AidlPowerHalWrapper *)

Module Aidl.

Record t := Mk {
  mHasExpensiveRendering : bool;
  mHasDisplayUpdateImminent : bool;
  mSupportsPowerHint : bool;
  mPowerHintSession : option SessionId;    (* sp<IPowerHintSession> *)
  mPowerHintQueue : list WorkDuration;
  mTargetDuration : Z;
  mActualDuration : option Z;
  mPowerHintThreadIds : list Z;
  mLastActualDurationSent : option Z;
  mLastActualReportTimestamp : Z;
  mLastTargetDurationSent : Z;
  mShouldReconnectHal : bool
}.

Definition set_mPowerHintSession v '(Mk a b c _ e f g h i j k l) :=
  Mk a b c v e f g h i j k l.
Definition set_mPowerHintQueue v '(Mk a b c d _ f g h i j k l) :=
  Mk a b c d v f g h i j k l.
Definition set_mTargetDuration v '(Mk a b c d e _ g h i j k l) :=
  Mk a b c d e v g h i j k l.
Definition set_mActualDuration v '(Mk a b c d e f _ h i j k l) :=
  Mk a b c d e f v h i j k l.
Definition set_mPowerHintThreadIds v '(Mk a b c d e f g _ i j k l) :=
  Mk a b c d e f g v i j k l.
Definition set_mLastActualDurationSent v '(Mk a b c d e f g h _ j k l) :=
  Mk a b c d e f g h v j k l.
Definition set_mLastActualReportTimestamp v '(Mk a b c d e f g h i _ k l) :=
  Mk a b c d e f g h i v k l.
Definition set_mLastTargetDurationSent v '(Mk a b c d e f g h i j _ l) :=
  Mk a b c d e f g h i j v l.
Definition set_mShouldReconnectHal v '(Mk a b c d e f g h i j k _) :=
  Mk a b c d e f g h i j k v.

Section Methods.
Variable cfg : Config.

(** Modelled from the spec: the default member initialisers are in the
    class declaration (PowerAdvisor.h), which is not part of the source
    at hand.  The two target fields start at the sentinel default
    target, the optionals and containers start empty, no session is
    open and no reconnect is asked for. *)
Definition fresh (expensive imminent hint : bool) : t :=
  {| mHasExpensiveRendering := expensive;
     mHasDisplayUpdateImminent := imminent;
     mSupportsPowerHint := hint;
     mPowerHintSession := None;
     mPowerHintQueue := [];
     mTargetDuration := kDefaultTarget cfg;
     mActualDuration := None;
     mPowerHintThreadIds := [];
     mLastActualDurationSent := None;
     mLastActualReportTimestamp := 0;
     mLastTargetDurationSent := kDefaultTarget cfg;
     mShouldReconnectHal := false |}.

(** The constructor: the three capability probes. *)
Definition construct (e : Env) : t * Env :=
  let (r1, e) := remote IsModeSupported e in
  let expensive := if isOk r1 then out r1 else false in
  let (r2, e) := remote IsBoostSupported e in
  let imminent := if isOk r2 then out r2 else false in
  (* checkPowerHintSessionSupported() *)
  let (r3, e) := remote GetHintSessionPreferredRate e in
  (fresh expensive imminent (isOk r3), e).

(** The destructor. *)
Definition destroy (a : t) (e : Env) : Env :=
  match mPowerHintSession a with
  | Some s => snd (remote (SessionClose s) e)
  | None => e
  end.

Definition connect (e : Env) : option t * Env :=
  let (r, e) := remote WaitForVintfService e in
  if out r then
    let (a, e) := construct e in (Some a, e)
  else (None, e).

Definition setExpensiveRendering (enabled : bool) (a : t) (e : Env)
  : bool * Env :=
  if negb (mHasExpensiveRendering a) then (true, e)
  else
    let (ret, e) := remote (SetMode enabled) e in
    (isOk ret, e).

Definition notifyDisplayUpdateImminent (a : t) (e : Env) : bool * Env :=
  if negb (mHasDisplayUpdateImminent a) then (true, e)
  else
    let (ret, e) := remote SetBoost e in
    (isOk ret, e).

Definition supportsPowerHintSession (a : t) : bool := mSupportsPowerHint a.

Definition isPowerHintSessionRunning (a : t) : bool :=
  bool_decide (mPowerHintSession a <> None).

Definition closePowerHintSession (a : t) (e : Env) : t * Env :=
  match mPowerHintSession a with
  | Some s =>
      let (_, e) := remote (SessionClose s) e in
      (set_mPowerHintSession None a, e)
  | None => (a, e)
  end.

Definition startPowerHintSession (a : t) (e : Env) : bool * t * Env :=
  if bool_decide (mPowerHintSession a <> None)
     || bool_decide (mPowerHintThreadIds a = [])
  then (false, a, e)
  else
    let id := length (log e) in
    let (ret, e) :=
      remote (CreateHintSession (mPowerHintThreadIds a) (mTargetDuration a)) e in
    let a :=
      if isOk ret then
        set_mLastTargetDurationSent (mTargetDuration a)
          (set_mPowerHintSession (if out ret then Some id else None) a)
      else a in
    (isPowerHintSessionRunning a, a, e).

Definition restartPowerHintSession (a : t) (e : Env) : t * Env :=
  let (a, e) := closePowerHintSession a e in
  let '(_, a, e) := startPowerHintSession a e in
  (a, e).

Definition setPowerHintSessionThreadIds (threadIds : list Z) (a : t) (e : Env)
  : t * Env :=
  if bool_decide (threadIds <> mPowerHintThreadIds a) then
    let a := set_mPowerHintThreadIds threadIds a in
    if isPowerHintSessionRunning a then restartPowerHintSession a e
    else (a, e)
  else (a, e).

(** [abs(1.0 - static_cast<double>(x) / static_cast<double>(y))] *)
Definition deviation (x y : Z) : spec_float :=
  FP.abs (FP.sub FP.binary64 (FP.of_int FP.binary64 1)
            (FP.div FP.binary64 (FP.of_int FP.binary64 x)
                                (FP.of_int FP.binary64 y))).

Definition shouldSetTargetDuration (targetDurationNanos : Z) (a : t) : bool :=
  if targetDurationNanos <=? 0 then false
  else
    FP.geb (deviation (mLastTargetDurationSent a) targetDurationNanos)
           (kAllowedTargetDeviationPercent cfg).

Definition setTargetWorkDuration (targetDurationNanos : Z) (a : t) (e : Env)
  : t * Env :=
  let a := set_mTargetDuration targetDurationNanos a in
  if negb (sNormalizeTarget cfg) && isPowerHintSessionRunning a
     && shouldSetTargetDuration targetDurationNanos a
  then
    let a := set_mLastTargetDurationSent targetDurationNanos a in
    match mPowerHintSession a with
    | Some s =>
        let (ret, e) :=
          remote (UpdateTargetWorkDuration s targetDurationNanos) e in
        if negb (isOk ret) then (set_mShouldReconnectHal true a, e)
        else (a, e)
    | None => (a, e)  (* excluded by isPowerHintSessionRunning() *)
    end
  else (a, e).

Definition shouldReportActualDurationsNow (a : t) (e : Env) : bool * Env :=
  match mLastActualDurationSent a with
  | None => (true, e)
  | Some lastSent =>
      let (now, e) := systemTime e in
      if kStaleTimeout cfg <? now - mLastActualReportTimestamp a then (true, e)
      else
        match mActualDuration a with
        | None => (false, e)
        | Some mostRecent =>
            (FP.geb (deviation mostRecent lastSent)
                    (kAllowedActualDeviationPercent cfg), e)
        end
  end.

(** The value that is queued for a measured duration. *)
Definition reportedDuration (actualDurationNanos : Z) (a : t) : Z :=
  if sNormalizeTarget cfg then
    Int64.add actualDurationNanos
      (Int64.sub (mLastTargetDurationSent a) (mTargetDuration a))
  else if bool_decide (mLastTargetDurationSent a <> kDefaultTarget cfg)
          && bool_decide (mTargetDuration a <> 0)
  then
    let ld := long_double cfg in
    FP.to_int
      (FP.mul ld
         (FP.div ld (FP.of_int ld (mLastTargetDurationSent a))
                    (FP.of_int ld (mTargetDuration a)))
         (FP.of_int ld actualDurationNanos))
  else actualDurationNanos.

Definition sendActualWorkDuration (actualDurationNanos timeStampNanos : Z)
    (a : t) (e : Env) : t * Env :=
  if (actualDurationNanos <? 0) || negb (isPowerHintSessionRunning a)
  then (a, e)
  else
    let reported := reportedDuration actualDurationNanos a in
    let a := set_mActualDuration (Some reported) a in
    let duration :=
      {| durationNanos := reported; timeStampNanos := timeStampNanos |} in
    let a := set_mPowerHintQueue (mPowerHintQueue a ++ [duration]) a in
    let (now_, e) := shouldReportActualDurationsNow a e in
    if now_ then
      let (stamp, e) := systemTime e in
      let a := set_mLastActualReportTimestamp stamp a in
      match mPowerHintSession a with
      | Some s =>
          let (ret, e) :=
            remote (ReportActualWorkDuration s (mPowerHintQueue a)) e in
          let a :=
            if negb (isOk ret) then set_mShouldReconnectHal true a else a in
          let a := set_mPowerHintQueue [] a in
          (set_mLastActualDurationSent (Some reported) a, e)
      | None => (a, e)  (* excluded by isPowerHintSessionRunning() *)
      end
    else (a, e).

Definition shouldReconnectHAL (a : t) : bool := mShouldReconnectHal a.

Definition getPowerHintSessionThreadIds (a : t) : list Z :=
  mPowerHintThreadIds a.

Definition getTargetWorkDuration (a : t) : option Z :=
  Some (mTargetDuration a).

End Methods.

End Aidl.

(** ** PowerAdvisor::HalWrapper: the two implementations behind one interface *)

Inductive HalWrapper :=
  | HidlWrapper
  | AidlWrapper (a : Aidl.t).

Module HalWrapper.
Section Methods.
Variable cfg : Config.

Definition setExpensiveRendering (enabled : bool) (h : HalWrapper) (e : Env)
  : bool * HalWrapper * Env :=
  match h with
  | HidlWrapper =>
      let (r, e) := Hidl.setExpensiveRendering enabled e in (r, h, e)
  | AidlWrapper a =>
      let (r, e) := Aidl.setExpensiveRendering enabled a e in (r, h, e)
  end.

Definition notifyDisplayUpdateImminent (h : HalWrapper) (e : Env)
  : bool * HalWrapper * Env :=
  match h with
  | HidlWrapper =>
      let (r, e) := Hidl.notifyDisplayUpdateImminent e in (r, h, e)
  | AidlWrapper a =>
      let (r, e) := Aidl.notifyDisplayUpdateImminent a e in (r, h, e)
  end.

Definition supportsPowerHintSession (h : HalWrapper) (e : Env)
  : bool * HalWrapper * Env :=
  match h with
  | HidlWrapper => (false, h, e)
  | AidlWrapper a => (Aidl.supportsPowerHintSession a, h, e)
  end.

Definition setPowerHintSessionThreadIds (threadIds : list Z)
    (h : HalWrapper) (e : Env) : unit * HalWrapper * Env :=
  match h with
  | HidlWrapper => (tt, h, e)
  | AidlWrapper a =>
      let (a, e) := Aidl.setPowerHintSessionThreadIds threadIds a e in
      (tt, AidlWrapper a, e)
  end.

Definition startPowerHintSession (h : HalWrapper) (e : Env)
  : bool * HalWrapper * Env :=
  match h with
  | HidlWrapper => (false, h, e)
  | AidlWrapper a =>
      let '(r, a, e) := Aidl.startPowerHintSession a e in
      (r, AidlWrapper a, e)
  end.

Definition setTargetWorkDuration (targetDurationNanos : Z)
    (h : HalWrapper) (e : Env) : unit * HalWrapper * Env :=
  match h with
  | HidlWrapper => (tt, h, e)
  | AidlWrapper a =>
      let (a, e) := Aidl.setTargetWorkDuration cfg targetDurationNanos a e in
      (tt, AidlWrapper a, e)
  end.

Definition sendActualWorkDuration (actualDurationNanos timeStampNanos : Z)
    (h : HalWrapper) (e : Env) : unit * HalWrapper * Env :=
  match h with
  | HidlWrapper => (tt, h, e)
  | AidlWrapper a =>
      let (a, e) :=
        Aidl.sendActualWorkDuration cfg actualDurationNanos timeStampNanos a e in
      (tt, AidlWrapper a, e)
  end.

Definition shouldReconnectHAL (h : HalWrapper) : bool :=
  match h with
  | HidlWrapper => false
  | AidlWrapper a => Aidl.shouldReconnectHAL a
  end.

Definition getPowerHintSessionThreadIds (h : HalWrapper) : list Z :=
  match h with
  | HidlWrapper => []
  | AidlWrapper a => Aidl.getPowerHintSessionThreadIds a
  end.

Definition getTargetWorkDuration (h : HalWrapper) : option Z :=
  match h with
  | HidlWrapper => None
  | AidlWrapper a => Aidl.getTargetWorkDuration a
  end.

(** The destructor, run when the owning [unique_ptr] is reset. *)
Definition destroy (h : HalWrapper) (e : Env) : Env :=
  match h with
  | HidlWrapper => e
  | AidlWrapper a => Aidl.destroy a e
  end.

End Methods.
End HalWrapper.

(** ** PowerAdvisor *)

(** Modelled from the spec: the debounce timer (scheduler::OneShotTimer) is
    not part of the source at hand.  PowerAdvisor only starts and resets it;
    the timer thread answers by running the two callbacks given to its
    constructor ([resetCallback], [timeoutCallback_step] below). *)
Record OneShotTimer := { started : bool; resets : nat }.

(** The state of the process: the members of the PowerAdvisor object, the two
    function-local statics of [getPowerHal], and the environment.
    [mPowerHalMutex] tells whether the mutex is held by the running thread. *)
Record World := MkWorld {
  mBootFinished : bool;
  mExpensiveDisplays : gset Z;
  mNotifiedExpensiveRendering : bool;
  mPowerHintEnabled : option bool;
  mSupportsPowerHint : option bool;
  mPowerHintSessionRunning : bool;
  mReconnectPowerHal : bool;
  mSendUpdateImminent : bool;
  mLastScreenUpdatedTime : Z;
  mScreenUpdateTimer : OneShotTimer;
  mPowerHalMutex : bool;
  sHalWrapper : option HalWrapper;
  sHasHal : bool;
  env : Env
}.

Definition set_mBootFinished v '(MkWorld a b c d e f g h i j k l m n) :=
  MkWorld v b c d e f g h i j k l m n.
Definition set_mExpensiveDisplays v '(MkWorld a b c d e f g h i j k l m n) :=
  MkWorld a v c d e f g h i j k l m n.
Definition set_mNotifiedExpensiveRendering v '(MkWorld a b c d e f g h i j k l m n) :=
  MkWorld a b v d e f g h i j k l m n.
Definition set_mPowerHintEnabled v '(MkWorld a b c d e f g h i j k l m n) :=
  MkWorld a b c v e f g h i j k l m n.
Definition set_mSupportsPowerHint v '(MkWorld a b c d e f g h i j k l m n) :=
  MkWorld a b c d v f g h i j k l m n.
Definition set_mPowerHintSessionRunning v '(MkWorld a b c d e f g h i j k l m n) :=
  MkWorld a b c d e v g h i j k l m n.
Definition set_mReconnectPowerHal v '(MkWorld a b c d e f g h i j k l m n) :=
  MkWorld a b c d e f v h i j k l m n.
Definition set_mSendUpdateImminent v '(MkWorld a b c d e f g h i j k l m n) :=
  MkWorld a b c d e f g v i j k l m n.
Definition set_mLastScreenUpdatedTime v '(MkWorld a b c d e f g h i j k l m n) :=
  MkWorld a b c d e f g h v j k l m n.
Definition set_mScreenUpdateTimer v '(MkWorld a b c d e f g h i j k l m n) :=
  MkWorld a b c d e f g h i v k l m n.
Definition set_mPowerHalMutex v '(MkWorld a b c d e f g h i j k l m n) :=
  MkWorld a b c d e f g h i j v l m n.
Definition set_sHalWrapper v '(MkWorld a b c d e f g h i j k l m n) :=
  MkWorld a b c d e f g h i j k v m n.
Definition set_sHasHal v '(MkWorld a b c d e f g h i j k l m n) :=
  MkWorld a b c d e f g h i j k l v n.
Definition set_env v '(MkWorld a b c d e f g h i j k l m n) :=
  MkWorld a b c d e f g h i j k l m v.

(** *** Outcomes of a member function

    A member function returns ([Done]) or the thread gets stuck: it calls a
    member through a null [HalWrapper*], it locks [mPowerHalMutex], a
    [std::mutex], while it holds it, or the bound on the recursion of the
    model is hit ([OutOfFuel]; [getPowerHal_total] shows it never is). *)

Inductive Fault := NullDeref | Relock | OutOfFuel.

Inductive Outcome (A : Type) :=
  | Done (a : A) (w : World)
  | Stuck (f : Fault) (w : World).
Arguments Done {A} a w.
Arguments Stuck {A} f w.

Definition world_of {A} (r : Outcome A) : World :=
  match r with Done _ w => w | Stuck _ w => w end.

Definition M (A : Type) : Type := World -> Outcome A.

#[global] Instance M_ret : MRet M := fun A a w => Done a w.
#[global] Instance M_bind : MBind M := fun A B f m w =>
  match m w with
  | Done a w' => f a w'
  | Stuck k w' => Stuck k w'
  end.

Definition gets {A} (f : World -> A) : M A := fun w => Done (f w) w.
Definition modify (f : World -> World) : M unit := fun w => Done tt (f w).
Definition fault {A} (k : Fault) : M A := fun w => Stuck k w.

Definition in_env {A} (f : Env -> A * Env) : M A := fun w =>
  let (a, e) := f (env w) in Done a (set_env e w).

(** [std::lock_guard lock(mPowerHalMutex)] around [body]. *)
Definition lock_guard {A} (body : M A) : M A := fun w =>
  if mPowerHalMutex w then Stuck Relock w
  else
    match body (set_mPowerHalMutex true w) with
    | Done a w' => Done a (set_mPowerHalMutex false w')
    | Stuck k w' => Stuck k w'
    end.

(** What [getPowerHal] returns: null, or the address of the wrapper owned by
    the static [sHalWrapper]. *)
Inductive HalPtr := Null | ToStatic.

(** [halWrapper->method(...)] *)
Definition call {A} (halWrapper : HalPtr)
    (method : HalWrapper -> Env -> A * HalWrapper * Env) : M A := fun w =>
  match halWrapper, sHalWrapper w with
  | ToStatic, Some h =>
      let '(a, h', e') := method h (env w) in
      Done a (set_sHalWrapper (Some h') (set_env e' w))
  | _, _ => Stuck NullDeref w
  end.

(** [sHalWrapper = nullptr]: the wrapper that was owned is destroyed. *)
Definition reset_sHalWrapper : M unit := fun w =>
  match sHalWrapper w with
  | Some h =>
      Done tt (set_sHalWrapper None (set_env (HalWrapper.destroy h (env w)) w))
  | None => Done tt w
  end.

Section PowerAdvisor.
Variable cfg : Config.

(** The constructor emplaces the timer when [getUpdateTimeout() > 0ms]. *)
Definition hasScreenUpdateTimer : bool := 0 <? getUpdateTimeout cfg.

(** Modelled from the spec: the default member initialisers are in
    PowerAdvisor.h, which is not part of the source at hand.  Nothing has
    been notified, the two optionals are unset and the update-imminent
    flag starts armed; the statics of [getPowerHal] start as in the
    source. *)
Definition initial (hal : nat -> HalCall -> Reply) (clock : nat -> Z) : World :=
  {| mBootFinished := false;
     mExpensiveDisplays := ∅;
     mNotifiedExpensiveRendering := false;
     mPowerHintEnabled := None;
     mSupportsPowerHint := None;
     mPowerHintSessionRunning := false;
     mReconnectPowerHal := false;
     mSendUpdateImminent := true;
     mLastScreenUpdatedTime := 0;
     mScreenUpdateTimer := {| started := false; resets := 0 |};
     mPowerHalMutex := false;
     sHalWrapper := None;
     sHasHal := true;
     env := {| hal := hal; log := []; clock := clock; ticks := 0 |} |}.

(** The callbacks given to the timer. *)
Definition resetCallback : M unit := modify (set_mSendUpdateImminent false).

(** One turn of the loop of the timeout callback: it leaves the loop and
    re-arms the flag ([true]), or sleeps and looks again ([false]).  The
    call [mFlinger.disableExpensiveRendering()] that ends the callback goes
    to SurfaceFlinger; what comes back from it reaches PowerAdvisor as
    calls of [setExpensiveRenderingExpected], which are events of their
    own below. *)
Definition timeoutCallback_step : M bool :=
  now ← in_env systemTime;
  last ← gets mLastScreenUpdatedTime;
  if getUpdateTimeout cfg <=? now - last then
    modify (set_mSendUpdateImminent true);; mret true
  else mret false.

Definition init : M unit :=
  if hasScreenUpdateTimer then
    modify (fun w =>
      set_mScreenUpdateTimer
        {| started := true; resets := resets (mScreenUpdateTimer w) |} w)
  else mret tt.

Definition onBootFinished : M unit := modify (set_mBootFinished true).

Definition supportsPowerHintSession_ (getPowerHal : M HalPtr) : M bool :=
  cached ← gets mSupportsPowerHint;
  match cached with
  | None =>
      lock_guard (
        halWrapper ← getPowerHal;
        s ← call halWrapper HalWrapper.supportsPowerHintSession;
        modify (set_mSupportsPowerHint (Some s));;
        mret s)
  | Some s => mret s
  end.

Definition usePowerHintSession_ (getPowerHal : M HalPtr) : M bool :=
  enabled ← gets mPowerHintEnabled;
  if default false enabled then supportsPowerHintSession_ getPowerHal
  else mret false.

(** The second half of [getPowerHal], from "First attempt to connect to
    the AIDL Power HAL" on: [sHalWrapper] is null here, and the two
    arguments are the values grabbed from the wrapper that was there. *)
Definition connectPowerHal (usePowerHintSession : M bool)
    (oldPowerHintSessionThreadIds : list Z) (oldTargetWorkDuration : option Z)
  : M HalPtr :=
  aidl ← in_env (Aidl.connect cfg);
  match aidl with
  | None =>
      hidl ← in_env Hidl.connect;
      if hidl : bool then modify (set_sHalWrapper (Some HidlWrapper)) else mret tt
  | Some a =>
      modify (set_sHalWrapper (Some (AidlWrapper a)));;
      (* if AIDL, pass on any existing hint session values *)
      call ToStatic
        (HalWrapper.setPowerHintSessionThreadIds oldPowerHintSessionThreadIds);;
      match oldTargetWorkDuration with
      | Some d =>
          call ToStatic (HalWrapper.setTargetWorkDuration cfg d);;
          use ← usePowerHintSession;
          if (use : bool) && bool_decide (oldPowerHintSessionThreadIds <> []) then
            r ← call ToStatic HalWrapper.startPowerHintSession;
            modify (set_mPowerHintSessionRunning r)
          else mret tt
      | None => mret tt
      end
  end;;
  final ← gets sHalWrapper;
  match final with
  | None => modify (set_sHasHal false);; mret Null
  | Some _ => mret ToStatic
  end.

(** The body of [getPowerHal]; its call of [usePowerHintSession] comes
    back to [getPowerHal] when the capability is not cached yet. *)
Definition getPowerHal_body (usePowerHintSession : M bool) : M HalPtr :=
  hasHal ← gets sHasHal;
  if negb hasHal then mret Null
  else
    (* grab old hint session values before we destroy any existing wrapper *)
    old ← gets sHalWrapper;
    let oldPowerHintSessionThreadIds :=
      from_option HalWrapper.getPowerHintSessionThreadIds [] old in
    let oldTargetWorkDuration :=
      from_option HalWrapper.getTargetWorkDuration None old in
    reconnect ← gets mReconnectPowerHal;
    (if reconnect : bool then
       reset_sHalWrapper;; modify (set_mReconnectPowerHal false)
     else mret tt);;
    current ← gets sHalWrapper;
    if from_option (fun h => negb (HalWrapper.shouldReconnectHAL h)) false current
    then mret ToStatic
    else
      reset_sHalWrapper;;
      (* at this point, we know for sure there is no running session *)
      modify (set_mPowerHintSessionRunning false);;
      connectPowerHal usePowerHintSession
        oldPowerHintSessionThreadIds oldTargetWorkDuration.

Fixpoint getPowerHal_fuel (fuel : nat) : M HalPtr :=
  match fuel with
  | O => fault OutOfFuel
  | S fuel' => getPowerHal_body (usePowerHintSession_ (getPowerHal_fuel fuel'))
  end.

(** The nested call always finds the wrapper that was just connected, so
    two levels are all the code ever uses ([getPowerHal_total]). *)
Definition getPowerHal : M HalPtr := getPowerHal_fuel 2.

Definition supportsPowerHintSession : M bool :=
  supportsPowerHintSession_ getPowerHal.

(* checks both if it supports and if it's enabled *)
Definition usePowerHintSession : M bool := usePowerHintSession_ getPowerHal.

Definition isPowerHintSessionRunning : M bool := gets mPowerHintSessionRunning.

Definition setExpensiveRenderingExpected (displayId : Z) (expected : bool)
  : M unit :=
  modify (fun w =>
    set_mExpensiveDisplays
      (if expected then {[displayId]} ∪ mExpensiveDisplays w
       else mExpensiveDisplays w ∖ {[displayId]}) w);;
  displays ← gets mExpensiveDisplays;
  let expectsExpensiveRendering := negb (bool_decide (displays = ∅)) in
  notified ← gets mNotifiedExpensiveRendering;
  if negb (eqb notified expectsExpensiveRendering) then
    lock_guard (
      halWrapper ← getPowerHal;
      match halWrapper with
      | Null => mret tt
      | ToStatic =>
          ok ← call halWrapper
                 (HalWrapper.setExpensiveRendering expectsExpensiveRendering);
          if negb ok then
            (* The HAL has become unavailable; attempt to reconnect later *)
            modify (set_mReconnectPowerHal true)
          else modify (set_mNotifiedExpensiveRendering expectsExpensiveRendering)
      end)
  else mret tt.

Definition notifyDisplayUpdateImminent : M unit :=
  boot ← gets mBootFinished;
  if negb boot then mret tt
  else
    armed ← gets mSendUpdateImminent;       (* mSendUpdateImminent.exchange(false) *)
    modify (set_mSendUpdateImminent false);;
    returned ←
      (if armed : bool then
         lock_guard (
           halWrapper ← getPowerHal;
           match halWrapper with
           | Null => mret true
           | ToStatic =>
               ok ← call halWrapper HalWrapper.notifyDisplayUpdateImminent;
               if negb ok then
                 modify (set_mReconnectPowerHal true);; mret true
               else
                 (if hasScreenUpdateTimer then
                    modify (fun w =>
                      set_mScreenUpdateTimer
                        {| started := started (mScreenUpdateTimer w);
                           resets := S (resets (mScreenUpdateTimer w)) |} w)
                  else modify (set_mSendUpdateImminent true));;
                 mret false
           end)
       else mret false);
    if returned : bool then mret tt
    else if hasScreenUpdateTimer then
      now ← in_env systemTime;
      modify (set_mLastScreenUpdatedTime now)
    else mret tt.

Definition setTargetWorkDuration (targetDurationNanos : Z) : M unit :=
  use ← usePowerHintSession;
  if negb use then mret tt
  else
    lock_guard (
      halWrapper ← getPowerHal;
      match halWrapper with
      | Null => mret tt
      | ToStatic =>
          call halWrapper
            (HalWrapper.setTargetWorkDuration cfg
               (Int64.sub targetDurationNanos (kTargetSafetyMargin cfg)))
      end).

Definition sendActualWorkDuration (actualDurationNanos timeStampNanos : Z)
  : M unit :=
  boot ← gets mBootFinished;
  skip ← (if negb boot then mret true
          else use ← usePowerHintSession; mret (negb use));
  if skip : bool then mret tt
  else
    lock_guard (
      halWrapper ← getPowerHal;
      match halWrapper with
      | Null => mret tt
      | ToStatic =>
          call halWrapper
            (HalWrapper.sendActualWorkDuration cfg
               actualDurationNanos timeStampNanos)
      end).

Definition enablePowerHint (enabled : bool) : M unit :=
  modify (set_mPowerHintEnabled (Some enabled)).

Definition startPowerHintSession (threadIds : list Z) : M bool :=
  usePowerHintSession;;  (* the result only selects a log line *)
  lock_guard (
    halWrapper ← getPowerHal;
    match halWrapper with
    | Null => mret tt
    | ToStatic =>
        use ← usePowerHintSession;
        if use : bool then
          call halWrapper (HalWrapper.setPowerHintSessionThreadIds threadIds);;
          r ← call halWrapper HalWrapper.startPowerHintSession;
          modify (set_mPowerHintSessionRunning r)
        else mret tt
    end);;
  gets mPowerHintSessionRunning.

(** *** Executions: the calls of the renderer and of the timer thread *)

Inductive Op :=
  | OpInit
  | OpOnBootFinished
  | OpSetExpensiveRenderingExpected (displayId : Z) (expected : bool)
  | OpNotifyDisplayUpdateImminent
  | OpUsePowerHintSession
  | OpSupportsPowerHintSession
  | OpIsPowerHintSessionRunning
  | OpSetTargetWorkDuration (targetDurationNanos : Z)
  | OpSendActualWorkDuration (actualDurationNanos timeStampNanos : Z)
  | OpEnablePowerHint (enabled : bool)
  | OpStartPowerHintSession (threadIds : list Z)
  | OpTimerReset          (* the timer thread runs the reset callback *)
  | OpTimerTimeoutStep.   (* ... one turn of the timeout callback *)

Definition run_op (o : Op) : M unit :=
  match o with
  | OpInit => init
  | OpOnBootFinished => onBootFinished
  | OpSetExpensiveRenderingExpected d x => setExpensiveRenderingExpected d x
  | OpNotifyDisplayUpdateImminent => notifyDisplayUpdateImminent
  | OpUsePowerHintSession => usePowerHintSession;; mret tt
  | OpSupportsPowerHintSession => supportsPowerHintSession;; mret tt
  | OpIsPowerHintSessionRunning => isPowerHintSessionRunning;; mret tt
  | OpSetTargetWorkDuration d => setTargetWorkDuration d
  | OpSendActualWorkDuration d ts => sendActualWorkDuration d ts
  | OpEnablePowerHint x => enablePowerHint x
  | OpStartPowerHintSession ids => startPowerHintSession ids;; mret tt
  | OpTimerReset => resetCallback
  | OpTimerTimeoutStep => timeoutCallback_step;; mret tt
  end.

Fixpoint run (ops : list Op) : M unit :=
  match ops with
  | [] => mret tt
  | o :: ops' => run_op o;; run ops'
  end.

(** The states the process can be in between two calls. *)
Definition reachable (w : World) : Prop :=
  exists hal clock ops, run ops (initial hal clock) = Done tt w.

End PowerAdvisor.

(** ** Concrete configurations, HALs and states used by the examples *)

(** The [double] nearest to 0.1. *)
Definition one_tenth : spec_float :=
  FP.div FP.binary64 (FP.of_int FP.binary64 1) (FP.of_int FP.binary64 10).

(** Thresholds of 10%, a staleness bound of 100ms, a default target of 50ms,
    a safety margin of 2ms and an update-imminent timeout of 80ms. *)
Definition cfg_example (ld : FP.format) : Config :=
  {| kAllowedTargetDeviationPercent := one_tenth;
     kAllowedActualDeviationPercent := one_tenth;
     kStaleTimeout := 100000000;
     kDefaultTarget := 50000000;
     kTargetSafetyMargin := 2000000;
     sNormalizeTarget := false;
     display_update_imminent_timeout_ms := 80;
     long_double := ld |}.

Definition cfg0 : Config := cfg_example FP.x87_extended.

(** A HAL that answers every call, one that is not there at all, and HALs
    that are there but fail one kind of call. *)
Definition reply_ok : Reply := {| isOk := true; out := true |}.
Definition reply_fail : Reply := {| isOk := false; out := false |}.

Definition hal_ok : nat -> HalCall -> Reply := fun _ _ => reply_ok.
Definition hal_absent : nat -> HalCall -> Reply := fun _ _ => reply_fail.
Definition hal_failing_reports : nat -> HalCall -> Reply := fun _ c =>
  match c with ReportActualWorkDuration _ _ => reply_fail | _ => reply_ok end.
Definition hal_failing_target : nat -> HalCall -> Reply := fun _ c =>
  match c with UpdateTargetWorkDuration _ _ => reply_fail | _ => reply_ok end.
Definition hal_failing_mode : nat -> HalCall -> Reply := fun _ c =>
  match c with SetMode _ => reply_fail | _ => reply_ok end.

(** A clock that advances by one millisecond at each reading. *)
Definition clock_ms : nat -> Z := fun n => 1000000 * Z.of_nat n.

Definition env_example (hal : nat -> HalCall -> Reply) : Env :=
  {| hal := hal; log := []; clock := clock_ms; ticks := 0 |}.

(** A wrapper with an open hint session, whose last target sent is
    [lastTarget] and whose current target is [target]. *)
Definition aidl_running (lastTarget target : Z) : Aidl.t :=
  {| Aidl.mHasExpensiveRendering := true;
     Aidl.mHasDisplayUpdateImminent := true;
     Aidl.mSupportsPowerHint := true;
     Aidl.mPowerHintSession := Some 0%nat;
     Aidl.mPowerHintQueue := [];
     Aidl.mTargetDuration := target;
     Aidl.mActualDuration := None;
     Aidl.mPowerHintThreadIds := [1; 2];
     Aidl.mLastActualDurationSent := None;
     Aidl.mLastActualReportTimestamp := 0;
     Aidl.mLastTargetDurationSent := lastTarget;
     Aidl.mShouldReconnectHal := false |}.

(** The same wrapper after a report of 9ms, sent at time 0. *)
Definition aidl_reported (lastTarget target : Z) : Aidl.t :=
  Aidl.set_mLastActualDurationSent (Some 9000000) (aidl_running lastTarget target).

(** The process after the power hint was enabled and a hint session was
    started for two threads on a HAL that answers every call. *)
Definition ops_session : list Op :=
  [OpOnBootFinished; OpEnablePowerHint true; OpStartPowerHintSession [1; 2]].

(** ... then a target update that the HAL refuses: the wrapper asks to be
    reconnected. *)
Definition ops_broken_session : list Op :=
  ops_session ++ [OpSetTargetWorkDuration 16000000].

Definition world_after (hal : nat -> HalCall -> Reply) (ops : list Op) : World :=
  world_of (run cfg0 ops (initial hal clock_ms)).

(** ... and with one record of 9.1ms still waiting in the queue. *)
Definition aidl_queued : Aidl.t :=
  Aidl.set_mPowerHintQueue [ {| durationNanos := 9100000; timeStampNanos := 1 |} ]
    (aidl_reported 50000000 50000000).

(** * Properties

    The auxiliary notions used by the statements. *)

(** The calls that carry a hint: the expensive-rendering toggle of either
    generation and the update-imminent boost. *)
Definition signal (c : HalCall) : bool :=
  match c with
  | SetMode _ | PowerHintAsync_1_3 _ | SetBoost => true
  | _ => false
  end.

(** [e'] continues [e] with calls that carry no hint. *)
Definition quiet (e e' : Env) : Prop :=
  hal e' = hal e /\ clock e' = clock e
  /\ exists d, log e' = log e ++ d /\ Forall (fun c => signal c = false) d.

(** What [getPowerHal] leaves alone. *)
Definition frame (w w' : World) : Prop :=
  mBootFinished w' = mBootFinished w
  /\ mExpensiveDisplays w' = mExpensiveDisplays w
  /\ mNotifiedExpensiveRendering w' = mNotifiedExpensiveRendering w
  /\ mPowerHintEnabled w' = mPowerHintEnabled w
  /\ mSendUpdateImminent w' = mSendUpdateImminent w
  /\ mLastScreenUpdatedTime w' = mLastScreenUpdatedTime w
  /\ mScreenUpdateTimer w' = mScreenUpdateTimer w
  /\ (forall b, mSupportsPowerHint w = Some b -> mSupportsPowerHint w' = Some b)
  /\ quiet (env w) (env w').

Definition preserves (R : World -> World -> Prop) {A} (m : M A) : Prop :=
  forall w, R w (world_of (m w)).

(** A state in which [getPowerHal] has a wrapper that does not ask to be
    replaced. *)
Definition connected (w : World) : Prop :=
  sHasHal w = true /\ mReconnectPowerHal w = false
  /\ exists h, sHalWrapper w = Some h /\ HalWrapper.shouldReconnectHAL h = false.

(** A connection attempt starts with the lookup of the AIDL service. *)
Definition is_attempt (c : HalCall) : bool :=
  match c with WaitForVintfService => true | _ => false end.

(** The state [getPowerHal] connects from: the wrapper, if there was one,
    is destroyed and the two flags are cleared. *)
Definition torn_down (w : World) : World :=
  set_mPowerHintSessionRunning false
    (set_sHalWrapper None
       (set_env (from_option (fun h => HalWrapper.destroy h (env w)) (env w)
                   (sHalWrapper w))
          (set_mReconnectPowerHal false w))).

(** The thread ids held by the current wrapper. *)
Definition ids_of (w : World) : list Z :=
  from_option HalWrapper.getPowerHintSessionThreadIds [] (sHalWrapper w).

(** From [w] to [w'] the thread ids are kept or dropped and the cached
    capability is kept, or else the capability is cached as present. *)
Definition kept (w w' : World) : Prop :=
  ((ids_of w' = ids_of w \/ ids_of w' = [])
   /\ forall b, mSupportsPowerHint w = Some b -> mSupportsPowerHint w' = Some b)
  \/ mSupportsPowerHint w' = Some true.

(** Thread ids are only ever stored in a wrapper once the capability has
    been found: the invariant behind the restart of the session. *)
Definition hint_ids_supported (w : World) : Prop :=
  forall a, sHalWrapper w = Some (AidlWrapper a) ->
            Aidl.mPowerHintThreadIds a <> [] ->
            mSupportsPowerHint w = Some true.

(** The process has given up on the Power HAL. *)
Definition gave_up (w : World) : Prop :=
  sHasHal w = false /\ sHalWrapper w = None.

(** Once it has, it stays so and nothing more is sent. *)
Definition silent (w w' : World) : Prop :=
  gave_up w -> gave_up w' /\ log (env w') = log (env w).

(** The expensive-rendering toggle of either generation, and the
    update-imminent boost. *)
Definition is_toggle (c : HalCall) : bool :=
  match c with SetMode _ | PowerHintAsync_1_3 _ => true | _ => false end.

Definition is_boost (c : HalCall) : bool :=
  match c with SetBoost => true | _ => false end.

(** Whether a wrapper passes the toggle on to the HAL: the HIDL wrapper
    always does, the AIDL wrapper when the mode is supported. *)
Definition passes_toggle (h : HalWrapper) : bool :=
  match h with
  | HidlWrapper => true
  | AidlWrapper a => Aidl.mHasExpensiveRendering a
  end.

(** The toggles among the calls [d], each with the answer of the HAL to it
    ([isOk]); [n] is the number of calls made before [d]. *)
Fixpoint toggles_sent (hal : nat -> HalCall -> Reply) (n : nat) (d : list HalCall)
  : list (bool * bool) :=
  match d with
  | [] => []
  | c :: d' =>
      match c with
      | SetMode x | PowerHintAsync_1_3 x => [(x, isOk (hal n c))]
      | _ => []
      end ++ toggles_sent hal (S n) d'
  end.

(** No toggle of [ts] repeats what the HAL was told: each one differs from
    the last toggle before it that the HAL accepted, and from [notified]
    when there is none. *)
Fixpoint never_redundant (notified : bool) (ts : list (bool * bool)) : Prop :=
  match ts with
  | [] => True
  | (x, ok) :: ts' =>
      x <> notified /\ never_redundant (if ok : bool then x else notified) ts'
  end.

(** A sequence of calls of [setExpensiveRenderingExpected]. *)
Definition toggle_ops (calls : list (Z * bool)) : list Op :=
  map (fun c => OpSetExpensiveRenderingExpected (fst c) (snd c)) calls.

(** A connected AIDL wrapper whose HAL lacks the expensive-rendering mode:
    it answers every toggle itself. *)
Definition toggles_unsupported (w : World) : Prop :=
  sHasHal w = true /\ mReconnectPowerHal w = false
  /\ exists a, sHalWrapper w = Some (AidlWrapper a)
               /\ Aidl.mHasExpensiveRendering a = false
               /\ Aidl.mShouldReconnectHal a = false.

(** [known] is what the HAL was last told: it is the value notified, unless
    the wrapper keeps the toggles to itself. *)
Definition toggle_memory (known : bool) (w : World) : Prop :=
  mNotifiedExpensiveRendering w = known \/ toggles_unsupported w.

(** The number of boosts sent between two states. *)
Definition boosts (w w' : World) : nat :=
  length (filter is_boost (calls_since (env w) (env w'))).


(** The end of [notifyDisplayUpdateImminent]: with a timer, the time of the
    update is recorded. *)
Definition record_update (cfg : Config) (w : World) : World :=
  if hasScreenUpdateTimer cfg then
    set_mLastScreenUpdatedTime (fst (systemTime (env w)))
      (set_env (snd (systemTime (env w))) w)
  else w.

(** [mScreenUpdateTimer->reset()] *)
Definition reset_timer (w : World) : World :=
  set_mScreenUpdateTimer
    {| started := started (mScreenUpdateTimer w);
       resets := S (resets (mScreenUpdateTimer w)) |} w.



(** After the boost of a window was sent: the flag is down, nothing more was
    sent since, and the last update is a reading of the clock made since the
    window opened, at reading number [t0]; [k] bounds the readings made. *)
Definition disarmed (t0 : nat) (e0 : Env) (k : nat) (w : World) : Prop :=
  mBootFinished w = true
  /\ mSendUpdateImminent w = false
  /\ clock (env w) = clock e0
  /\ log (env w) = log e0 ++ [SetBoost]
  /\ (ticks (env w) <= k)%nat
  /\ exists m, (t0 <= m < ticks (env w))%nat
               /\ mLastScreenUpdatedTime w = clock e0 m.

(** From [w] to [w'] the clock was not read. *)
Definition same_ticks (w w' : World) : Prop := ticks (env w') = ticks (env w).



(** A device with a HIDL Power HAL only, and one whose AIDL Power HAL lacks
    the update-imminent boost. *)
Definition hal_legacy : nat -> HalCall -> Reply := fun _ c =>
  match c with WaitForVintfService => reply_fail | _ => reply_ok end.

(** The records handed to the HAL by a list of calls, oldest first. *)
Definition reported (calls : list HalCall) : list WorkDuration :=
  flat_map (fun c => match c with
                     | ReportActualWorkDuration _ batch => batch
                     | _ => []
                     end) calls.

(** One call of [AidlPowerHalWrapper::sendActualWorkDuration] for each
    sample (duration, time stamp), in order. *)
Fixpoint sendActualWorkDurations (cfg : Config) (samples : list (Z * Z))
    (a : Aidl.t) (e : Env) : Aidl.t * Env :=
  match samples with
  | [] => (a, e)
  | (d, t) :: rest =>
      let (a', e') := Aidl.sendActualWorkDuration cfg d t a e in
      sendActualWorkDurations cfg rest a' e'
  end.

(** The record queued for a sample by a wrapper in state [a]. *)
Definition record_of (cfg : Config) (a : Aidl.t) (sample : Z * Z) : WorkDuration :=
  {| durationNanos := Aidl.reportedDuration cfg (fst sample) a;
     timeStampNanos := snd sample |}.

(** [0.0] as a [double]. *)
Definition zero : spec_float := FP.of_int FP.binary64 0.

(** The example configuration with debug.sf.normalize_hint_session_durations
    set. *)
Definition cfg_normalized : Config :=
  {| kAllowedTargetDeviationPercent := one_tenth;
     kAllowedActualDeviationPercent := one_tenth;
     kStaleTimeout := 100000000;
     kDefaultTarget := 50000000;
     kTargetSafetyMargin := 2000000;
     sNormalizeTarget := true;
     display_update_imminent_timeout_ms := 80;
     long_double := FP.x87_extended |}.

(** [wp m Q S w]: run from [w], the member function [m] returns a value and
    a state in [Q], or gets stuck in a state in [S]. *)
Definition wp {A} (m : M A) (Q : A -> World -> Prop) (S : World -> Prop)
    (w : World) : Prop :=
  match m w with
  | Done a w' => Q a w'
  | Stuck _ w' => S w'
  end.

(** The answer to [supportsPowerHintSession] is cached as [b]. *)
Definition cached (b : bool) (w : World) : Prop := mSupportsPowerHint w = Some b.

(** The hint session held by a wrapper, and by the current wrapper. *)
Definition wrapper_session (h : HalWrapper) : option SessionId :=
  match h with
  | AidlWrapper a => Aidl.mPowerHintSession a
  | HidlWrapper => None
  end.

Definition session_of (w : World) : option SessionId :=
  from_option wrapper_session None (sHalWrapper w).

(** [mPowerHintSessionRunning] is set only while a hint session is open. *)
Definition running_has_session (w : World) : Prop :=
  mPowerHintSessionRunning w = true -> session_of w <> None.

Definition keeps_running_has_session (w w' : World) : Prop :=
  running_has_session w -> running_has_session w'.

(** The number of connection attempts made so far. *)
Definition attempts (e : Env) : nat := length (filter is_attempt (log e)).

(** A Power HAL none of whose calls ever fails. *)
Definition healthy (e : Env) : Prop := forall n c, isOk (hal e n c) = true.

(** On a healthy HAL: no reconnection is pending, the wrapper, if there is
    one, does not ask for one, and there was no attempt to connect before
    the first use and one since. *)
Definition connects_once (w : World) : Prop :=
  healthy (env w)
  /\ mReconnectPowerHal w = false
  /\ (attempts (env w) <= 1)%nat
  /\ match sHalWrapper w with
     | Some h => HalWrapper.shouldReconnectHAL h = false /\ sHasHal w = true
     | None => sHasHal w = true -> attempts (env w) = 0%nat
     end.

(** What a method of the wrapper does on a healthy HAL: the answer is in
    [P], no reconnection is asked for and no connection is attempted. *)
Definition steady {A} (m : HalWrapper -> Env -> A * HalWrapper * Env)
    (P : A -> Prop) : Prop :=
  forall h e,
    healthy e -> HalWrapper.shouldReconnectHAL h = false ->
    P (fst (fst (m h e)))
    /\ HalWrapper.shouldReconnectHAL (snd (fst (m h e))) = false
    /\ hal (snd (m h e)) = hal e
    /\ exists d, log (snd (m h e)) = log e ++ d /\ filter is_attempt d = [].

(** The creations of hint sessions, and an execution that has made none
    since [e0] while the power hint is not enabled. *)
Definition is_create (c : HalCall) : bool :=
  match c with CreateHintSession _ _ => true | _ => false end.

Definition no_create_since (e0 : Env) (w : World) : Prop :=
  exists d, log (env w) = log e0 ++ d /\ filter is_create d = [].

Definition policy_off (e0 : Env) (w : World) : Prop :=
  mPowerHintEnabled w <> Some true /\ no_create_since e0 w.

(** A method of the wrapper that creates no hint session. *)
Definition creates_nothing {A} (m : HalWrapper -> Env -> A * HalWrapper * Env)
  : Prop :=
  forall h e, exists d, log (snd (m h e)) = log e ++ d /\ filter is_create d = [].

(** A HIDL wrapper is connected to a HAL that accepts every toggle, and
    toggles are all that was sent since [e0]. *)
Definition hidl_toggle (c : HalCall) : Prop := exists x, c = PowerHintAsync_1_3 x.

Definition toggles_accepted (e : Env) : Prop :=
  forall n x, isOk (hal e n (PowerHintAsync_1_3 x)) = true.

Definition legacy_since (e0 : Env) (w : World) : Prop :=
  sHalWrapper w = Some HidlWrapper
  /\ sHasHal w = true
  /\ mReconnectPowerHal w = false
  /\ toggles_accepted (env w)
  /\ exists d, log (env w) = log e0 ++ d /\ Forall hidl_toggle d.

(** What a method does on the HIDL wrapper: the answer is in [P] and only
    toggles are sent. *)
Definition on_hidl {A} (m : HalWrapper -> Env -> A * HalWrapper * Env)
    (P : A -> Prop) : Prop :=
  forall e,
    toggles_accepted e ->
    P (fst (fst (m HidlWrapper e)))
    /\ snd (fst (m HidlWrapper e)) = HidlWrapper
    /\ hal (snd (m HidlWrapper e)) = hal e
    /\ exists d, log (snd (m HidlWrapper e)) = log e ++ d /\ Forall hidl_toggle d.

(** The two calls that wait for the end of boot: the update-imminent boost
    and the report of actual durations. *)
Definition is_boot_gated (c : HalCall) : bool :=
  match c with SetBoost | ReportActualWorkDuration _ _ => true | _ => false end.

Definition none_gated_since (e0 : Env) (w : World) : Prop :=
  exists d, log (env w) = log e0 ++ d /\ filter is_boot_gated d = [].

Definition before_boot (e0 : Env) (w : World) : Prop :=
  mBootFinished w = false /\ none_gated_since e0 w.

(** A method of the wrapper that sends neither of them. *)
Definition sends_none_gated {A} (m : HalWrapper -> Env -> A * HalWrapper * Env)
  : Prop :=
  forall h e, exists d, log (snd (m h e)) = log e ++ d /\ filter is_boot_gated d = [].

(** A HAL that refuses the boost. *)
Definition hal_failing_boost : nat -> HalCall -> Reply := fun _ c =>
  match c with SetBoost => reply_fail | _ => reply_ok end.

(** The example configuration without an update-imminent timer. *)
Definition cfg_untimed : Config :=
  {| kAllowedTargetDeviationPercent := one_tenth;
     kAllowedActualDeviationPercent := one_tenth;
     kStaleTimeout := 100000000;
     kDefaultTarget := 50000000;
     kTargetSafetyMargin := 2000000;
     sNormalizeTarget := false;
     display_update_imminent_timeout_ms := 0;
     long_double := FP.x87_extended |}.

(** A clock that advances by 100ms at each reading. *)
Definition clock_100ms : nat -> Z := fun n => 100000000 * Z.of_nat n.

(** The process after boot and a first toggle, which connects the HAL. *)
Definition ops_connected : list Op :=
  [OpOnBootFinished; OpSetExpensiveRenderingExpected 0 true].

(** ** Theorems *)

Lemma calls_since_refl e : calls_since e e = [].
Proof. apply drop_all. Qed.

Lemma calls_since_app e e' l : log e' = log e ++ l -> calls_since e e' = l.
Proof. unfold calls_since. intros ->. apply drop_app_length. Qed.

(** *** Arithmetic on [int64_t] *)

Lemma Int64_wrap_in_range z : Int64.min <= z <= Int64.max -> Int64.wrap z = z.
Proof.
  unfold Int64.min, Int64.max, Int64.wrap. intros H.
  rewrite Z.mod_small; lia.
Qed.

Lemma Int64_wrap_range z : Int64.min <= Int64.wrap z <= Int64.max.
Proof.
  unfold Int64.min, Int64.max, Int64.wrap.
  pose proof (Z.mod_pos_bound (z + 2 ^ 63) (2 ^ 64) ltac:(lia)). lia.
Qed.

Lemma Int64_add_sub x y z : Int64.add x (Int64.sub y z) = Int64.wrap (x + y - z).
Proof.
  unfold Int64.add, Int64.sub, Int64.wrap. f_equal.
  replace (x + ((y - z + 2 ^ 63) mod 2 ^ 64 - 2 ^ 63) + 2 ^ 63)
    with (x + (y - z + 2 ^ 63) mod 2 ^ 64) by lia.
  rewrite Zplus_mod_idemp_r. f_equal. lia.
Qed.

Lemma to_int_trunc x z :
  FP.trunc x = Some z -> Int64.min <= z <= Int64.max -> FP.to_int x = z.
Proof.
  intros Hx Hz. unfold FP.to_int. rewrite Hx.
  destruct (Z.leb_spec Int64.min z), (Z.leb_spec z Int64.max); simpl; lia.
Qed.

Lemma to_int_range x : Int64.min <= FP.to_int x <= Int64.max.
Proof.
  unfold FP.to_int. destruct (FP.trunc x) as [z|]; [|unfold Int64.min, Int64.max; lia].
  destruct (Z.leb_spec Int64.min z), (Z.leb_spec z Int64.max); simpl;
    unfold Int64.min, Int64.max in *; lia.
Qed.

Section AidlFacts.
Variable cfg : Config.

Lemma shouldReportActualDurationsNow_env a e :
  let e' := snd (Aidl.shouldReportActualDurationsNow cfg a e) in
  hal e' = hal e /\ log e' = log e /\ clock e' = clock e.
Proof.
  unfold Aidl.shouldReportActualDurationsNow, systemTime.
  repeat case_match; simpl; auto.
Qed.

Lemma sendActualWorkDuration_spec actual t a e s :
  Aidl.mPowerHintSession a = Some s ->
  0 <= actual ->
  let reported := Aidl.reportedDuration cfg actual a in
  let batch := Aidl.mPowerHintQueue a
               ++ [{| durationNanos := reported; timeStampNanos := t |}] in
  let queued := Aidl.set_mPowerHintQueue batch
                  (Aidl.set_mActualDuration (Some reported) a) in
  let (flush, e1) := Aidl.shouldReportActualDurationsNow cfg queued e in
  let (a', e') := Aidl.sendActualWorkDuration cfg actual t a e in
  if flush then
    let ok := isOk (hal e (length (log e)) (ReportActualWorkDuration s batch)) in
    calls_since e e' = [ReportActualWorkDuration s batch]
    /\ a' = Aidl.set_mLastActualDurationSent (Some reported)
              (Aidl.set_mPowerHintQueue []
                 ((if ok then id else Aidl.set_mShouldReconnectHal true)
                    (Aidl.set_mLastActualReportTimestamp (clock e1 (ticks e1)) queued)))
  else
    calls_since e e' = [] /\ a' = queued.
Proof.
  intros Hs Hact. cbv zeta.
  unfold Aidl.sendActualWorkDuration, Aidl.isPowerHintSessionRunning.
  rewrite Hs.
  replace (actual <? 0) with false by (symmetry; apply Z.ltb_ge; lia).
  rewrite bool_decide_true by done. cbn [negb orb].
  set (reported := Aidl.reportedDuration cfg actual a).
  destruct a; simpl in Hs; subst; simpl.
  match goal with |- context [Aidl.shouldReportActualDurationsNow cfg ?q e] =>
    pose proof (shouldReportActualDurationsNow_env q e) as He1;
    destruct (Aidl.shouldReportActualDurationsNow cfg q e) as [flush e1] end.
  simpl in He1. destruct He1 as (Hh & Hl & Hc).
  destruct flush.
  - rewrite Hh, Hl.
    split; [by apply calls_since_app|].
    by destruct (isOk _).
  - split; [apply calls_since_app; by rewrite Hl, app_nil_r | done].
Qed.

(** C4.  The flush predicate [shouldReportActualDurationsNow] answers true
  exactly when no actual duration has ever been sent, or more than the
  staleness bound has passed since the last report, or a most recent
  actual duration exists and deviates from the last one sent by the
  actual-deviation threshold or more.  When it answers false during
  [sendActualWorkDuration], the record is appended to the queue and no
  call is made. *)
Theorem shouldReportActualDurationsNow_triggers :
  (forall a e,
     fst (Aidl.shouldReportActualDurationsNow cfg a e) = true <->
     (Aidl.mLastActualDurationSent a = None
      \/ kStaleTimeout cfg < clock e (ticks e) - Aidl.mLastActualReportTimestamp a
      \/ exists recent lastSent,
           Aidl.mActualDuration a = Some recent
           /\ Aidl.mLastActualDurationSent a = Some lastSent
           /\ FP.geb (Aidl.deviation recent lastSent)
                     (kAllowedActualDeviationPercent cfg) = true))
  /\ (forall actual t a e s,
        Aidl.mPowerHintSession a = Some s ->
        0 <= actual ->
        let reported := Aidl.reportedDuration cfg actual a in
        let record := {| durationNanos := reported; timeStampNanos := t |} in
        let queued :=
          Aidl.set_mPowerHintQueue (Aidl.mPowerHintQueue a ++ [record])
            (Aidl.set_mActualDuration (Some reported) a) in
        fst (Aidl.shouldReportActualDurationsNow cfg queued e) = false ->
        let (a', e') := Aidl.sendActualWorkDuration cfg actual t a e in
        calls_since e e' = []
        /\ Aidl.mPowerHintQueue a' = Aidl.mPowerHintQueue a ++ [record]).
Proof.
  split.
  - intros a e. unfold Aidl.shouldReportActualDurationsNow.
    destruct (Aidl.mLastActualDurationSent a) as [lastSent|]; simpl.
    2: { split; auto. }
    destruct (Z.ltb_spec (kStaleTimeout cfg)
                (clock e (ticks e) - Aidl.mLastActualReportTimestamp a)); simpl.
    { split; auto. }
    destruct (Aidl.mActualDuration a) as [recent|]; simpl.
    + split.
      * intros Hd. right; right. by exists recent, lastSent.
      * intros [?|[?|(r & l & ? & ? & ?)]]; [done | lia | by simplify_eq].
    + split; [done|].
      intros [?|[?|(r & l & ? & ? & ?)]]; [done | lia | done].
  - intros actual t a e s Hs Hact reported record queued Hno.
    pose proof (sendActualWorkDuration_spec actual t a e s Hs Hact) as H.
    cbv zeta in H. fold reported record queued in H.
    destruct (Aidl.shouldReportActualDurationsNow cfg queued e) as [flush e1].
    simpl in Hno. subst flush.
    destruct (Aidl.sendActualWorkDuration cfg actual t a e) as [a' e'].
    cbv beta iota in H. destruct H as [-> ->]. split; [done|]. by destruct a.
Qed.

(** C1, as amended.  In [sendActualWorkDuration] with an open session and a
  non-negative duration: when the flush decision fires, the whole queue
  with the new record is handed to [reportActualWorkDuration] in one call,
  and afterwards the queue is empty and the last duration sent is updated
  whether the call succeeded or failed; a failure only raises the
  reconnect flag.  When the decision does not fire, no call is made and
  the queue holds the new record. *)
Theorem sendActualWorkDuration_flush_clears_queue actual t a e s :
  Aidl.mPowerHintSession a = Some s ->
  0 <= actual ->
  let reported := Aidl.reportedDuration cfg actual a in
  let record := {| durationNanos := reported; timeStampNanos := t |} in
  let batch := Aidl.mPowerHintQueue a ++ [record] in
  let queued :=
    Aidl.set_mPowerHintQueue batch (Aidl.set_mActualDuration (Some reported) a) in
  let flush := fst (Aidl.shouldReportActualDurationsNow cfg queued e) in
  let ok := isOk (hal e (length (log e)) (ReportActualWorkDuration s batch)) in
  let (a', e') := Aidl.sendActualWorkDuration cfg actual t a e in
  (flush = true ->
     calls_since e e' = [ReportActualWorkDuration s batch]
     /\ Aidl.mPowerHintQueue a' = []
     /\ Aidl.mLastActualDurationSent a' = Some reported
     /\ Aidl.mShouldReconnectHal a' = Aidl.mShouldReconnectHal a || negb ok)
  /\ (flush = false ->
        calls_since e e' = [] /\ Aidl.mPowerHintQueue a' = batch).
Proof.
  intros Hs Hact reported record batch queued flush ok.
  pose proof (sendActualWorkDuration_spec actual t a e s Hs Hact) as H.
  cbv zeta in H. fold reported record batch queued in H.
  subst flush.
  destruct (Aidl.shouldReportActualDurationsNow cfg queued e) as [flush e1].
  destruct (Aidl.sendActualWorkDuration cfg actual t a e) as [a' e'].
  simpl. fold ok in H. destruct flush.
  - destruct H as [-> ->]. split; [|done]. intros _.
    split; [done|]. subst queued. destruct a; simpl.
    destruct ok; simpl; rewrite ?orb_false_r, ?orb_true_r; done.
  - destruct H as [-> ->]. split; [done|]. intros _. split; [done|].
    subst queued. by destruct a.
Qed.

(** C3.  In the proportional (default) mode, for an open session and a
  non-negative [actual]: the record that is queued, and sent with the
  batch if the flush fires, carries [actual] scaled by the ratio of the
  last target sent to the current target, computed in [long double] and
  truncated to the integer [scaled], when the last target sent is not the
  default target and the current target is not zero, [scaled] being in
  the range of [int64_t]; it carries [actual] itself otherwise. *)
Theorem sendActualWorkDuration_proportional actual t a e s scaled :
  sNormalizeTarget cfg = false ->
  Aidl.mPowerHintSession a = Some s ->
  0 <= actual ->
  let ld := long_double cfg in
  let lastSent := Aidl.mLastTargetDurationSent a in
  let target := Aidl.mTargetDuration a in
  let product :=
    FP.mul ld (FP.div ld (FP.of_int ld lastSent) (FP.of_int ld target))
              (FP.of_int ld actual) in
  (lastSent <> kDefaultTarget cfg -> target <> 0 ->
   FP.trunc product = Some scaled /\ Int64.min <= scaled <= Int64.max) ->
  let duration :=
    if bool_decide (lastSent <> kDefaultTarget cfg /\ target <> 0) then scaled
    else actual in
  let record := {| durationNanos := duration; timeStampNanos := t |} in
  let (a', e') := Aidl.sendActualWorkDuration cfg actual t a e in
  Aidl.mActualDuration a' = Some duration
  /\ ((calls_since e e' = []
       /\ Aidl.mPowerHintQueue a' = Aidl.mPowerHintQueue a ++ [record])
      \/ (calls_since e e' =
            [ReportActualWorkDuration s (Aidl.mPowerHintQueue a ++ [record])]
          /\ Aidl.mPowerHintQueue a' = [])).
Proof.
  intros Hn Hs Hact ld lastSent target product Hfit duration record.
  assert (Hd : Aidl.reportedDuration cfg actual a = duration).
  { unfold Aidl.reportedDuration, duration. rewrite Hn.
    fold lastSent target ld. fold product.
    destruct (decide (lastSent <> kDefaultTarget cfg)) as [H1|H1];
      destruct (decide (target <> 0)) as [H2|H2];
      rewrite ?(bool_decide_true _ H1), ?(bool_decide_false _ H1),
              ?(bool_decide_true _ H2), ?(bool_decide_false _ H2); simpl.
    - rewrite bool_decide_true by done.
      destruct (Hfit H1 H2) as [Ht Hr]. by apply to_int_trunc.
    - rewrite bool_decide_false; [done | tauto].
    - rewrite bool_decide_false; [done | tauto].
    - rewrite bool_decide_false; [done | tauto]. }
  pose proof (sendActualWorkDuration_spec actual t a e s Hs Hact) as H.
  cbv zeta in H. rewrite Hd in H. fold record in H.
  destruct (Aidl.shouldReportActualDurationsNow cfg _ e) as [flush e1].
  destruct (Aidl.sendActualWorkDuration cfg actual t a e) as [a' e'].
  destruct flush.
  - destruct H as [-> ->]. split; [by destruct a, (isOk _)|].
    right. split; [done|]. by destruct a, (isOk _).
  - destruct H as [-> ->]. split; [by destruct a|].
    left. split; [done|]. by destruct a.
Qed.

Lemma setTargetWorkDuration_spec d a e :
  let a1 := Aidl.set_mTargetDuration d a in
  let (a', e') := Aidl.setTargetWorkDuration cfg d a e in
  match Aidl.mPowerHintSession a with
  | Some s =>
      if negb (sNormalizeTarget cfg) && Aidl.shouldSetTargetDuration cfg d a then
        let ok := isOk (hal e (length (log e)) (UpdateTargetWorkDuration s d)) in
        calls_since e e' = [UpdateTargetWorkDuration s d]
        /\ a' = (if ok then id else Aidl.set_mShouldReconnectHal true)
                  (Aidl.set_mLastTargetDurationSent d a1)
      else calls_since e e' = [] /\ a' = a1
  | None => calls_since e e' = [] /\ a' = a1
  end.
Proof.
  unfold Aidl.setTargetWorkDuration, Aidl.isPowerHintSessionRunning,
    Aidl.shouldSetTargetDuration.
  destruct a as [? ? ? [s|] ? ? ? ? ? ? ? ?]; simpl.
  - destruct (sNormalizeTarget cfg); simpl.
    { split; [apply calls_since_refl | done]. }
    destruct (d <=? 0); simpl.
    { split; [apply calls_since_refl | done]. }
    destruct (FP.geb _ _); simpl.
    + destruct (isOk _); simpl; (split; [by apply calls_since_app | done]).
    + split; [apply calls_since_refl | done].
  - rewrite andb_false_r. simpl. split; [apply calls_since_refl | done].
Qed.

(** C2, as amended.  In the non-normalize mode [setTargetWorkDuration d]
  always stores [d], and it calls [updateTargetWorkDuration] exactly when
  a hint session is running, [d] is positive, and the deviation
  [|1 - lastSent / d|] reaches the target threshold; the last target sent
  becomes [d] when the call is made and stays as it was when it is not. *)
Theorem setTargetWorkDuration_push_iff d a e :
  sNormalizeTarget cfg = false ->
  let (a', e') := Aidl.setTargetWorkDuration cfg d a e in
  Aidl.mTargetDuration a' = d
  /\ (calls_since e e' <> [] <->
        Aidl.isPowerHintSessionRunning a = true
        /\ 0 < d
        /\ FP.geb (Aidl.deviation (Aidl.mLastTargetDurationSent a) d)
                  (kAllowedTargetDeviationPercent cfg) = true)
  /\ (calls_since e e' <> [] ->
      exists s, Aidl.mPowerHintSession a = Some s
                /\ calls_since e e' = [UpdateTargetWorkDuration s d]
                /\ Aidl.mLastTargetDurationSent a' = d)
  /\ (calls_since e e' = [] ->
      Aidl.mLastTargetDurationSent a' = Aidl.mLastTargetDurationSent a).
Proof.
  intros Hn. pose proof (setTargetWorkDuration_spec d a e) as H.
  cbv zeta in H.
  destruct (Aidl.setTargetWorkDuration cfg d a e) as [a' e'].
  unfold Aidl.isPowerHintSessionRunning, Aidl.shouldSetTargetDuration in *.
  rewrite Hn in H. simpl in H.
  destruct (Aidl.mPowerHintSession a) as [s|] eqn:Hs.
  - rewrite bool_decide_true by done.
    destruct (Z.leb_spec d 0) as [Hd|Hd].
    + destruct H as [-> ->]. repeat split; try (by destruct a); try done; lia.
    + destruct (FP.geb _ _) eqn:Hg.
      * destruct H as [-> ->]. repeat split; try done.
        -- by destruct a, (isOk _).
        -- intros _. exists s. repeat split; try done. by destruct a, (isOk _).
      * destruct H as [-> ->]. repeat split; try (by destruct a); try done.
        all: by intros (_ & _ & ?).
  - rewrite bool_decide_false by (intros ?; done).
    destruct H as [-> ->]. repeat split; try (by destruct a); try done.
    by intros (? & _).
Qed.

(** C10.  Whenever [setTargetWorkDuration d] pushes the target, it is the
  single call [updateTargetWorkDuration d]; the last target sent is [d]
  afterwards whatever the HAL answered, a failure only adds the reconnect
  flag, and the deviation checks and the scaling of actual durations that
  follow are computed from [d]. *)
Theorem setTargetWorkDuration_lastSent_survives_failure d a e :
  let (a', e') := Aidl.setTargetWorkDuration cfg d a e in
  calls_since e e' <> [] ->
  exists s,
    let ok := isOk (hal e (length (log e)) (UpdateTargetWorkDuration s d)) in
    calls_since e e' = [UpdateTargetWorkDuration s d]
    /\ Aidl.mLastTargetDurationSent a' = d
    /\ (ok = false ->
          a' = Aidl.set_mShouldReconnectHal true
                 (Aidl.set_mLastTargetDurationSent d (Aidl.set_mTargetDuration d a)))
    /\ (forall d',
          Aidl.shouldSetTargetDuration cfg d' a' =
          if d' <=? 0 then false
          else FP.geb (Aidl.deviation d d') (kAllowedTargetDeviationPercent cfg))
    /\ (forall actual,
          Aidl.reportedDuration cfg actual a' =
          Aidl.reportedDuration cfg actual
            (Aidl.set_mLastTargetDurationSent d (Aidl.set_mTargetDuration d a))).
Proof.
  pose proof (setTargetWorkDuration_spec d a e) as H. cbv zeta in H.
  destruct (Aidl.setTargetWorkDuration cfg d a e) as [a' e'].
  intros Hpush.
  destruct (Aidl.mPowerHintSession a) as [s|]; [|by destruct H].
  destruct (negb _ && _); [|by destruct H].
  destruct H as [Hc ->]. exists s. cbv zeta.
  unfold Aidl.shouldSetTargetDuration, Aidl.reportedDuration.
  destruct a, (isOk _); simpl; repeat split; done.
Qed.
End AidlFacts.

(** C1 as stated fails: the batch is handed over, the call fails, and the
    queue is empty afterwards. *)
Lemma sendActualWorkDuration_failed_flush_drops_batch :
  let e := env_example hal_failing_reports in
  let batch := [ {| durationNanos := 9100000; timeStampNanos := 1 |};
                 {| durationNanos := 12000000; timeStampNanos := 2 |} ] in
  let (a', e') := Aidl.sendActualWorkDuration cfg0 12000000 2 aidl_queued e in
  calls_since e e' = [ReportActualWorkDuration 0%nat batch]
  /\ isOk (hal e 0%nat (ReportActualWorkDuration 0%nat batch)) = false
  /\ Aidl.mPowerHintQueue a' = [].
Proof. vm_compute. done. Qed.

Lemma sendActualWorkDuration_flush_clears_queue_witness :
  let e := env_example hal_failing_reports in
  let batch := [ {| durationNanos := 9100000; timeStampNanos := 1 |};
                 {| durationNanos := 12000000; timeStampNanos := 2 |} ] in
  let (a', e') := Aidl.sendActualWorkDuration cfg0 12000000 2 aidl_queued e in
  calls_since e e' = [ReportActualWorkDuration 0%nat batch]
  /\ Aidl.mPowerHintQueue a' = []
  /\ Aidl.mLastActualDurationSent a' = Some 12000000
  /\ Aidl.mShouldReconnectHal a' = true.
Proof.
  apply (proj1 (sendActualWorkDuration_flush_clears_queue cfg0 12000000 2 aidl_queued
                  (env_example hal_failing_reports) 0%nat eq_refl ltac:(lia))).
  vm_compute; reflexivity.
Defined.

Lemma sendActualWorkDuration_proportional_witness :
  let e := env_example hal_ok in
  let (a', e') :=
    Aidl.sendActualWorkDuration cfg0 9000000 7 (aidl_running 10000000 11000000) e in
  Aidl.mActualDuration a' = Some 8181818
  /\ ((calls_since e e' = []
       /\ Aidl.mPowerHintQueue a' =
           [] ++ [ {| durationNanos := 8181818; timeStampNanos := 7 |} ])
      \/ (calls_since e e' =
            [ReportActualWorkDuration 0%nat
               ([] ++ [ {| durationNanos := 8181818; timeStampNanos := 7 |} ])]
          /\ Aidl.mPowerHintQueue a' = [])).
Proof.
  apply (sendActualWorkDuration_proportional cfg0 9000000 7
           (aidl_running 10000000 11000000) (env_example hal_ok) 0%nat 8181818);
    [reflexivity | reflexivity | lia |].
  intros _ _. split; [vm_compute; reflexivity | unfold Int64.min, Int64.max; lia].
Defined.

(** The same sample on the three formats a platform may choose for
    [long double]. *)
Example reportedDuration_10_11_9 :
  Forall (fun ld =>
            Aidl.reportedDuration (cfg_example ld) 9000000
              (aidl_running 10000000 11000000) = 8181818)
         [FP.binary64; FP.x87_extended; FP.binary128].
Proof. repeat constructor; vm_compute; reflexivity. Qed.

(** A product that does not fit: the cast gives the smallest [int64_t], not
    the integer part. *)
Example reportedDuration_out_of_range :
  let a := aidl_running 9000000000000000000 1 in
  FP.trunc (FP.mul FP.x87_extended
              (FP.div FP.x87_extended (FP.of_int FP.x87_extended 9000000000000000000)
                                      (FP.of_int FP.x87_extended 1))
              (FP.of_int FP.x87_extended 2)) = Some 18000000000000000000
  /\ Aidl.reportedDuration cfg0 2 a = Int64.min.
Proof. vm_compute. done. Qed.

Lemma shouldReportActualDurationsNow_triggers_witness :
  let e := env_example hal_ok in
  let (a', e') :=
    Aidl.sendActualWorkDuration cfg0 9180000 10000000 (aidl_reported 50000000 50000000) e in
  calls_since e e' = []
  /\ Aidl.mPowerHintQueue a' =
     [] ++ [ {| durationNanos := 9180000; timeStampNanos := 10000000 |} ].
Proof.
  apply (proj2 (shouldReportActualDurationsNow_triggers cfg0) 9180000 10000000
           (aidl_reported 50000000 50000000) (env_example hal_ok) 0%nat);
    [reflexivity | lia | vm_compute; reflexivity].
Defined.

Lemma setTargetWorkDuration_push_iff_witness :
  let e := env_example hal_ok in
  let a := aidl_running 1000000 1000000 in
  let (a', e') := Aidl.setTargetWorkDuration cfg0 1150000 a e in
  calls_since e e' = [UpdateTargetWorkDuration 0%nat 1150000]
  /\ Aidl.mLastTargetDurationSent a' = 1150000.
Proof.
  pose proof (setTargetWorkDuration_push_iff cfg0 1150000 (aidl_running 1000000 1000000)
                (env_example hal_ok) eq_refl) as H.
  cbv zeta.
  destruct (Aidl.setTargetWorkDuration cfg0 1150000 (aidl_running 1000000 1000000)
              (env_example hal_ok)) as [a' e'].
  destruct H as (_ & Hiff & Hpush & _).
  destruct Hpush as (s & Hs & Hc & Hl).
  - apply Hiff. split; [reflexivity | split; [lia | vm_compute; reflexivity]].
  - injection Hs as <-. auto.
Defined.

(** The other half of the example of C2: 5% is below the threshold. *)
Example setTargetWorkDuration_1050000_not_pushed :
  let e := env_example hal_ok in
  let (a', e') := Aidl.setTargetWorkDuration cfg0 1050000 (aidl_running 1000000 1000000) e in
  calls_since e e' = []
  /\ Aidl.mTargetDuration a' = 1050000
  /\ Aidl.mLastTargetDurationSent a' = 1000000.
Proof. vm_compute. done. Qed.

(** C2 as stated fails: a session is running and the deviation is above
    the threshold, yet a negative target is not pushed. *)
Lemma setTargetWorkDuration_negative_target_not_pushed :
  let e := env_example hal_ok in
  let a := aidl_running 1000000 1000000 in
  let (a', e') := Aidl.setTargetWorkDuration cfg0 (-1000000) a e in
  sNormalizeTarget cfg0 = false
  /\ Aidl.isPowerHintSessionRunning a = true
  /\ FP.geb (Aidl.deviation (Aidl.mLastTargetDurationSent a) (-1000000))
            (kAllowedTargetDeviationPercent cfg0) = true
  /\ calls_since e e' = [].
Proof. vm_compute. done. Qed.

Lemma setTargetWorkDuration_lastSent_survives_failure_witness :
  let e := env_example hal_failing_target in
  let a := aidl_running 1000000 1000000 in
  let (a', e') := Aidl.setTargetWorkDuration cfg0 1150000 a e in
  exists s,
    calls_since e e' = [UpdateTargetWorkDuration s 1150000]
    /\ Aidl.mLastTargetDurationSent a' = 1150000
    /\ Aidl.mShouldReconnectHal a' = true.
Proof.
  pose proof (setTargetWorkDuration_lastSent_survives_failure cfg0 1150000
                (aidl_running 1000000 1000000) (env_example hal_failing_target)) as H.
  cbv zeta.
  destruct (Aidl.setTargetWorkDuration cfg0 1150000 (aidl_running 1000000 1000000)
              (env_example hal_failing_target)) as [a' e'] eqn:E.
  destruct H as (s & Hc & Hl & Hf & _).
  - vm_compute in E. injection E as <- <-. vm_compute. discriminate.
  - exists s. repeat split; [exact Hc | exact Hl |].
    vm_compute in E. injection E as <- <-. reflexivity.
Defined.

Lemma quiet_refl e : quiet e e.
Proof. repeat split. exists []. by rewrite app_nil_r. Qed.

Lemma quiet_trans e1 e2 e3 : quiet e1 e2 -> quiet e2 e3 -> quiet e1 e3.
Proof.
  intros (H1 & H2 & d1 & H3 & H4) (H5 & H6 & d2 & H7 & H8).
  repeat split; try congruence.
  exists (d1 ++ d2). split; [by rewrite H7, H3, app_assoc | by apply Forall_app].
Qed.

Lemma quiet_remote c e : signal c = false -> quiet e (snd (remote c e)).
Proof. intros. repeat split. exists [c]. split; [done | by constructor]. Qed.

Lemma quiet_systemTime e : quiet e (snd (systemTime e)).
Proof. repeat split. exists []. by rewrite app_nil_r. Qed.

#[local] Instance frame_preorder : PreOrder frame.
Proof.
  split.
  - intros w. repeat split; auto. apply quiet_refl.
  - intros w1 w2 w3 H12 H23. unfold frame in *.
    destruct H12 as (?&?&?&?&?&?&?&?&?), H23 as (?&?&?&?&?&?&?&?&?).
    repeat split; try congruence; eauto using quiet_trans.
    all: eapply quiet_trans; eauto.
Qed.

Section Preserves.
Context (R : World -> World -> Prop) `{!PreOrder R}.

Lemma preserves_ret {A} (a : A) : preserves R (mret a).
Proof. intros w. reflexivity. Qed.

Lemma preserves_gets {A} (f : World -> A) : preserves R (gets f).
Proof. intros w. reflexivity. Qed.

Lemma preserves_fault {A} k : preserves R (@fault A k).
Proof. intros w. reflexivity. Qed.

Lemma preserves_bind {A B} (m : M A) (f : A -> M B) :
  preserves R m -> (forall a, preserves R (f a)) -> preserves R (m ≫= f).
Proof.
  intros Hm Hf w. specialize (Hm w). unfold mbind, M_bind.
  destruct (m w) as [a w1|k w1]; simpl in *; [|done].
  etransitivity; [exact Hm | apply Hf].
Qed.

Lemma preserves_modify (f : World -> World) :
  (forall w, R w (f w)) -> preserves R (modify f).
Proof. intros H w. apply H. Qed.

Lemma preserves_lock_guard {A} (m : M A) :
  (forall b w, R w (set_mPowerHalMutex b w)) ->
  preserves R m -> preserves R (lock_guard m).
Proof.
  intros Hb Hm w. unfold lock_guard.
  destruct (mPowerHalMutex w); [reflexivity|].
  specialize (Hm (set_mPowerHalMutex true w)).
  destruct (m _) as [a w1|k w1]; simpl in *.
  - etransitivity; [apply Hb|]. etransitivity; [exact Hm | apply Hb].
  - etransitivity; [apply Hb | exact Hm].
Qed.

Lemma preserves_if {A} (b : bool) (m1 m2 : M A) :
  preserves R m1 -> preserves R m2 -> preserves R (if b then m1 else m2).
Proof. by destruct b. Qed.
End Preserves.

(** *** The wrappers make no hint call while they connect or manage the
        hint session *)

Section Quiet.
Variable cfg : Config.

Ltac quiet_steps :=
  unfold quiet; simpl; rewrite <- ?app_assoc; simpl;
  split; [reflexivity | split; [reflexivity |]];
  first [ exists []; split; [by rewrite app_nil_r | constructor]
        | eexists; split; [reflexivity | by repeat constructor] ].

Lemma Aidl_connect_quiet e : quiet e (snd (Aidl.connect cfg e)).
Proof.
  unfold Aidl.connect, Aidl.construct. simpl.
  destruct (out _); simpl; quiet_steps.
Qed.

Lemma Hidl_connect_quiet e : quiet e (snd (Hidl.connect e)).
Proof. unfold Hidl.connect. simpl. destruct (out _); simpl; quiet_steps. Qed.

Lemma destroy_quiet h e : quiet e (HalWrapper.destroy h e).
Proof.
  destruct h as [|a]; simpl; [apply quiet_refl|].
  unfold Aidl.destroy. destruct (Aidl.mPowerHintSession a); quiet_steps.
Qed.

Lemma closePowerHintSession_quiet a e :
  quiet e (snd (Aidl.closePowerHintSession a e)).
Proof.
  unfold Aidl.closePowerHintSession.
  destruct (Aidl.mPowerHintSession a); simpl; quiet_steps.
Qed.

Lemma Aidl_startPowerHintSession_quiet a e :
  quiet e (snd (Aidl.startPowerHintSession a e)).
Proof.
  unfold Aidl.startPowerHintSession.
  destruct (_ || _); simpl; quiet_steps.
Qed.

Lemma Aidl_setPowerHintSessionThreadIds_quiet ids a e :
  quiet e (snd (Aidl.setPowerHintSessionThreadIds ids a e)).
Proof.
  unfold Aidl.setPowerHintSessionThreadIds, Aidl.restartPowerHintSession.
  destruct (bool_decide _); [|apply quiet_refl].
  destruct (Aidl.isPowerHintSessionRunning _); [|apply quiet_refl].
  pose proof (closePowerHintSession_quiet (Aidl.set_mPowerHintThreadIds ids a) e) as H1.
  destruct (Aidl.closePowerHintSession _ e) as [a1 e1].
  pose proof (Aidl_startPowerHintSession_quiet a1 e1) as H2.
  destruct (Aidl.startPowerHintSession a1 e1) as [[r a2] e2].
  simpl in *. eapply quiet_trans; eauto.
Qed.

Lemma Aidl_setTargetWorkDuration_quiet d a e :
  quiet e (snd (Aidl.setTargetWorkDuration cfg d a e)).
Proof.
  unfold Aidl.setTargetWorkDuration.
  destruct (_ && _); [|apply quiet_refl].
  destruct (Aidl.mPowerHintSession _); [|apply quiet_refl].
  simpl. destruct (negb _); simpl; quiet_steps.
Qed.

Lemma setPowerHintSessionThreadIds_quiet ids h e :
  quiet e (snd (HalWrapper.setPowerHintSessionThreadIds ids h e)).
Proof.
  destruct h as [|a]; simpl; [apply quiet_refl|].
  pose proof (Aidl_setPowerHintSessionThreadIds_quiet ids a e).
  by destruct (Aidl.setPowerHintSessionThreadIds ids a e).
Qed.

Lemma setTargetWorkDuration_quiet d h e :
  quiet e (snd (HalWrapper.setTargetWorkDuration cfg d h e)).
Proof.
  destruct h as [|a]; simpl; [apply quiet_refl|].
  pose proof (Aidl_setTargetWorkDuration_quiet d a e).
  by destruct (Aidl.setTargetWorkDuration cfg d a e).
Qed.

Lemma startPowerHintSession_quiet h e :
  quiet e (snd (HalWrapper.startPowerHintSession h e)).
Proof.
  destruct h as [|a]; simpl; [apply quiet_refl|].
  pose proof (Aidl_startPowerHintSession_quiet a e).
  by destruct (Aidl.startPowerHintSession a e) as [[? ?] ?].
Qed.

Lemma supportsPowerHintSession_quiet h e :
  quiet e (snd (HalWrapper.supportsPowerHintSession h e)).
Proof. destruct h; apply quiet_refl. Qed.

(** *** What [getPowerHal] leaves alone *)

Ltac frame_split :=
  unfold frame; simpl;
  repeat match goal with |- _ /\ _ => split; [solve [auto] |] end;
  auto using quiet_refl.

Lemma frame_env w e : quiet (env w) e -> frame w (set_env e w).
Proof. intros. destruct w. frame_split. Qed.

Lemma preserves_in_env {A} (f : Env -> A * Env) :
  (forall e, quiet e (snd (f e))) -> preserves frame (in_env f).
Proof.
  intros H w. unfold in_env. specialize (H (env w)).
  destruct (f (env w)) as [a e]. simpl. by apply frame_env.
Qed.

Lemma preserves_call {A} p (m : HalWrapper -> Env -> A * HalWrapper * Env) :
  (forall h e, quiet e (snd (m h e))) -> preserves frame (call p m).
Proof.
  intros H w. unfold call.
  destruct p; [reflexivity|].
  destruct (sHalWrapper w) as [h|] eqn:E; [|reflexivity].
  specialize (H h (env w)). destruct (m h (env w)) as [[a h'] e']. simpl in *.
  destruct w; frame_split.
Qed.

Lemma preserves_reset_sHalWrapper : preserves frame reset_sHalWrapper.
Proof.
  intros w. unfold reset_sHalWrapper.
  destruct (sHalWrapper w) as [h|] eqn:E; [|reflexivity]. simpl.
  pose proof (destroy_quiet h (env w)). destruct w; frame_split.
Qed.

Ltac frame_setter := intros w; destruct w; frame_split.

Lemma frame_mutex b w : frame w (set_mPowerHalMutex b w).
Proof. revert w. frame_setter. Qed.

Lemma frame_supports s w :
  mSupportsPowerHint w = None -> frame w (set_mSupportsPowerHint (Some s) w).
Proof. destruct w; simpl; intros ->. frame_split. split; [done|]. apply quiet_refl. Qed.

Ltac frame_auto :=
  repeat first
    [ match goal with
      | |- preserves _ (_ ≫= _) => apply (preserves_bind frame); [| intros ? ]
      end
    | apply (preserves_lock_guard frame); [ intros; apply frame_mutex |]
    | match goal with
      | |- preserves _ (match ?x with _ => _ end) => destruct x
      end
    | apply (preserves_ret frame)
    | apply (preserves_gets frame)
    | apply (preserves_fault frame)
    | apply preserves_reset_sHalWrapper
    | apply preserves_in_env;
        first [ apply Aidl_connect_quiet | apply Hidl_connect_quiet ]
    | apply preserves_call;
        first [ apply setPowerHintSessionThreadIds_quiet
              | apply setTargetWorkDuration_quiet
              | apply startPowerHintSession_quiet
              | apply supportsPowerHintSession_quiet ]
    | assumption
    | match goal with
      | |- preserves _ (modify _) => apply (preserves_modify frame); frame_setter
      end ].

Lemma usePowerHintSession_frame (g : M HalPtr) :
  preserves frame g -> preserves frame (usePowerHintSession_ g).
Proof.
  intros Hg w. unfold usePowerHintSession_, supportsPowerHintSession_.
  unfold mbind at 1, M_bind, gets.
  destruct (default false (mPowerHintEnabled w)); [|reflexivity].
  unfold mbind at 1, M_bind.
  destruct (mSupportsPowerHint w) eqn:Hc; [reflexivity|].
  unfold lock_guard. destruct (mPowerHalMutex w); [reflexivity|].
  pose proof (Hg (set_mPowerHalMutex true w)) as H1.
  unfold mbind, M_bind.
  destruct (g _) as [p w1|k w1]; simpl in H1 |- *.
  2: { etransitivity; [apply frame_mutex | exact H1]. }
  pose proof (preserves_call p HalWrapper.supportsPowerHintSession
                supportsPowerHintSession_quiet w1) as H2.
  destruct (call p _ w1) as [s w2|k w2]; simpl in H2 |- *.
  2: { etransitivity; [apply frame_mutex |]. by etransitivity. }
  unfold modify. simpl.
  assert (Hn : mSupportsPowerHint w = None -> frame w
            (set_mPowerHalMutex false (set_mSupportsPowerHint (Some s) w2))).
  { intros Hw.
    assert (F : frame w w2).
    { etransitivity; [apply frame_mutex |]. by etransitivity. }
    destruct F as (?&?&?&?&?&?&?&?&?).
    destruct w2; simpl in *. frame_split. split; [congruence | done]. }
  by apply Hn.
Qed.

Lemma connectPowerHal_quiet (use : M bool) ids target :
  preserves frame use -> preserves frame (connectPowerHal cfg use ids target).
Proof. intros Hu. unfold connectPowerHal. frame_auto. Qed.

Lemma getPowerHal_body_frame (use : M bool) :
  preserves frame use -> preserves frame (getPowerHal_body cfg use).
Proof.
  intros Hu. unfold getPowerHal_body. frame_auto.
  by apply connectPowerHal_quiet.
Qed.

(** Destroying a wrapper closes its hint session and does nothing else. *)
Lemma destroy_calls h e :
  exists l, log (HalWrapper.destroy h e) = log e ++ l
            /\ Forall (fun c => exists s, c = SessionClose s) l.
Proof.
  destruct h as [|a]; simpl.
  - exists []. by rewrite app_nil_r.
  - unfold Aidl.destroy. destruct (Aidl.mPowerHintSession a) as [s|]; simpl.
    + exists [SessionClose s]. split; [done|]. constructor; eauto.
    + exists []. by rewrite app_nil_r.
Qed.

Lemma getPowerHal_fuel_frame n : preserves frame (getPowerHal_fuel cfg n).
Proof.
  induction n as [|n IH]; simpl.
  - apply (preserves_fault frame).
  - apply getPowerHal_body_frame. by apply usePowerHintSession_frame.
Qed.
End Quiet.

Section GetPowerHal.
Variable cfg : Config.

Lemma fresh_setPowerHintSessionThreadIds ids x y z e :
  Aidl.setPowerHintSessionThreadIds ids (Aidl.fresh cfg x y z) e =
  (Aidl.set_mPowerHintThreadIds ids (Aidl.fresh cfg x y z), e).
Proof.
  unfold Aidl.setPowerHintSessionThreadIds. simpl.
  case_bool_decide as H; [done|]. by subst.
Qed.

Lemma idle_setTargetWorkDuration d a e :
  Aidl.mPowerHintSession a = None ->
  Aidl.setTargetWorkDuration cfg d a e = (Aidl.set_mTargetDuration d a, e).
Proof.
  intros H. unfold Aidl.setTargetWorkDuration, Aidl.isPowerHintSessionRunning.
  destruct a; simpl in *; subst. rewrite bool_decide_false by (intros ?; done).
  by rewrite andb_false_r.
Qed.

Lemma getPowerHal_unreachable n w :
  sHasHal w = false -> getPowerHal_fuel cfg (S n) w = Done Null w.
Proof.
  intros H. simpl. unfold getPowerHal_body, mbind, M_bind, gets.
  by rewrite H.
Qed.

Lemma getPowerHal_connected n w :
  connected w -> getPowerHal_fuel cfg (S n) w = Done ToStatic w.
Proof.
  intros (H1 & H2 & h & H3 & H4). simpl.
  unfold getPowerHal_body, mbind, M_bind, gets, mret, M_ret.
  destruct w; simpl in *; subst; simpl. by rewrite H4.
Qed.

Section Nested.
(** The nested call of [getPowerHal]: any function that returns the
    wrapper of a connected state. *)
Variable g : M HalPtr.
Hypothesis g_connected : forall w, connected w -> g w = Done ToStatic w.

(** [usePowerHintSession], when a wrapper is connected. *)
Lemma usePowerHintSession_connected w h :
  sHasHal w = true -> mReconnectPowerHal w = false ->
  sHalWrapper w = Some h -> HalWrapper.shouldReconnectHAL h = false ->
  usePowerHintSession_ g w =
  if default false (mPowerHintEnabled w) then
    match mSupportsPowerHint w with
    | Some s => Done s w
    | None =>
        if mPowerHalMutex w then Stuck Relock w
        else
          let s := fst (fst (HalWrapper.supportsPowerHintSession h (env w))) in
          Done s (set_mSupportsPowerHint (Some s) w)
    end
  else Done false w.
Proof.
  intros H1 H2 H3 H4. unfold usePowerHintSession_, supportsPowerHintSession_.
  unfold mbind, M_bind, gets, lock_guard.
  destruct (default false _); [|done].
  destruct (mSupportsPowerHint w) eqn:Hs; [done|].
  destruct (mPowerHalMutex w) eqn:Hm; [done|].
  rewrite g_connected.
  2: { destruct w; simpl in *; subst. repeat split. by exists h. }
  unfold call, modify, mret, M_ret.
  destruct w; simpl in *; subst. by destruct h.
Qed.

(** Symbolic execution of [connectPowerHal] down to its leaves. *)
Ltac case_out c :=
  match goal with
  | |- context [out (hal ?e ?n c)] => destruct (out (hal e n c)) eqn:?; simpl
  end.
Ltac case_create :=
  match goal with
  | |- context [isOk (hal ?e ?n (CreateHintSession ?i ?d))] =>
      destruct (isOk (hal e n (CreateHintSession i d))) eqn:?; simpl;
      [ destruct (out (hal e n (CreateHintSession i d))) eqn:?; simpl | ]
  end.
Ltac case_use :=
  erewrite usePowerHintSession_connected by (simpl; reflexivity); simpl;
  repeat match goal with
    | |- context [default false ?en] => destruct en as [[|]|]; simpl
    | |- context [match ?sp with Some _ => _ | None => _ end] =>
        is_var sp; destruct sp as [[|]|]; simpl
    | |- context [if ?mx then _ else _] => is_var mx; destruct mx; simpl
    | |- context [isOk (hal ?e ?n GetHintSessionPreferredRate) && _] =>
        destruct (isOk (hal e n GetHintSessionPreferredRate)) eqn:?; simpl
    end.
Ltac case_start :=
  match goal with
  | |- context [bool_decide (?ids <> [])] =>
      destruct ids as [|? ?]; simpl;
      [ | unfold Aidl.startPowerHintSession; simpl;
          try case_create ]
  end.
Ltac run_connect w :=
  unfold connectPowerHal;
  unfold mbind, M_bind, gets, mret, M_ret, modify, in_env;
  unfold Aidl.connect, Aidl.construct, Hidl.connect;
  destruct w as [bf ed ne en sp run rc su lt tm mx hw hh e];
  simpl in *; subst;
  case_out WaitForVintfService;
  [ rewrite fresh_setPowerHintSessionThreadIds; simpl;
    match goal with
    | |- context [match ?target with Some _ => _ | None => _ end] =>
        is_var target; destruct target as [d|]; simpl;
        [ rewrite idle_setTargetWorkDuration by done; simpl;
          case_use; try case_start
        | ]
    end
  | case_out HidlGetService; [case_out HidlCastFrom|] ].

Ltac calls_calc :=
  unfold calls_since; simpl; rewrite <- ?app_assoc;
  rewrite ?drop_app_length, ?drop_all; simpl.

Lemma connectPowerHal_no_OutOfFuel ids target w w' :
  sHalWrapper w = None ->
  sHasHal w = true -> mReconnectPowerHal w = false ->
  connectPowerHal cfg (usePowerHintSession_ g) ids target w <> Stuck OutOfFuel w'.
Proof. intros H0 H1 H2. run_connect w; discriminate. Qed.

Lemma connectPowerHal_nested ids target w :
  sHalWrapper w = None ->
  sHasHal w = true -> mReconnectPowerHal w = false ->
  connectPowerHal cfg (usePowerHintSession_ g) ids target w =
  connectPowerHal cfg (usePowerHintSession_ (mret ToStatic)) ids target w.
Proof.
  intros H0 H1 H2. run_connect w; try reflexivity.
  all: unfold usePowerHintSession_, supportsPowerHintSession_, lock_guard,
         call, mbind, M_bind, gets, mret, M_ret, modify; simpl;
       rewrite ?Heqb; reflexivity.
Qed.

Lemma connectPowerHal_ids ids target w :
  sHalWrapper w = None ->
  sHasHal w = true -> mReconnectPowerHal w = false ->
  let w' := world_of (connectPowerHal cfg (usePowerHintSession_ g) ids target w) in
  ids_of w' = ids \/ ids_of w' = [].
Proof. intros H0 H1 H2. cbv zeta. run_connect w; auto. Qed.

Lemma connectPowerHal_locked ids target w :
  sHalWrapper w = None ->
  sHasHal w = true -> mReconnectPowerHal w = false ->
  mPowerHalMutex w = true ->
  let w' := world_of (connectPowerHal cfg (usePowerHintSession_ g) ids target w) in
  mSupportsPowerHint w' = mSupportsPowerHint w.
Proof. intros H0 H1 H2 H3. cbv zeta. run_connect w; auto. Qed.

Lemma connectPowerHal_null ids target w w' :
  sHalWrapper w = None ->
  sHasHal w = true -> mReconnectPowerHal w = false ->
  connectPowerHal cfg (usePowerHintSession_ g) ids target w = Done Null w' ->
  sHalWrapper w' = None.
Proof. intros H0 H1 H2. run_connect w; intros; by simplify_eq. Qed.

Lemma connectPowerHal_static ids target w w' :
  sHalWrapper w = None ->
  sHasHal w = true -> mReconnectPowerHal w = false ->
  connectPowerHal cfg (usePowerHintSession_ g) ids target w = Done ToStatic w' ->
  sHasHal w' = true.
Proof. intros H0 H1 H2. run_connect w; intros; by simplify_eq. Qed.

Lemma connectPowerHal_connected ids target w w' :
  sHalWrapper w = None ->
  sHasHal w = true -> mReconnectPowerHal w = false ->
  connectPowerHal cfg (usePowerHintSession_ g) ids target w = Done ToStatic w' ->
  connected w'.
Proof.
  intros H0 H1 H2. run_connect w; intros; simplify_eq.
  all: repeat split; eexists; split; reflexivity.
Qed.

(** What a connection restores. *)
Lemma connectPowerHal_restores ids target w :
  sHalWrapper w = None ->
  sHasHal w = true -> mReconnectPowerHal w = false ->
  mPowerHintSessionRunning w = false ->
  (ids <> [] -> mSupportsPowerHint w = Some true) ->
  let r := connectPowerHal cfg (usePowerHintSession_ g) ids target w in
  let w' := world_of r in
  let calls := calls_since (env w) (env w') in
  length (filter is_attempt calls) = 1%nat
  /\ mReconnectPowerHal w' = false
  /\ forall a',
       sHalWrapper w' = Some (AidlWrapper a') ->
       Aidl.mPowerHintThreadIds a' = ids
       /\ mPowerHintSessionRunning w' = Aidl.isPowerHintSessionRunning a'
       /\ forall d,
            target = Some d ->
            Aidl.mTargetDuration a' = d
            /\ (ids <> [] /\ mPowerHintEnabled w = Some true <->
                In (CreateHintSession ids d) calls)
            /\ (In (CreateHintSession ids d) calls -> r = Done ToStatic w').
Proof.
  intros H0 H1 H2 H3 H4. cbv zeta. run_connect w.
  all: calls_calc.
  all: split; [reflexivity|]; split; [reflexivity|].
  all: intros a' Ha'; simplify_eq; simpl.
  all: split; [reflexivity|]; split; [reflexivity|].
  all: intros d' Hd'; simplify_eq; simpl.
  all: split; [reflexivity|].
  all: split;
         [ split;
           [ intros [Hne Hen]; try specialize (H4 Hne); simplify_eq;
             try done; try (simpl; tauto)
           | intros Hin; simpl in Hin;
             repeat (destruct Hin as [Hin|Hin]; [try discriminate|]);
             try contradiction; simplify_eq; try done ]
         | intros Hin; simpl in Hin;
           repeat (destruct Hin as [Hin|Hin]; [try discriminate|]);
           try contradiction; simplify_eq; try done ].
Qed.
End Nested.

Arguments getPowerHal_fuel : simpl never.
Arguments connectPowerHal : simpl never.

(** [getPowerHal] in three cases: no HAL at all, a wrapper that is fine,
    and a new connection. *)
Lemma getPowerHal_body_cases use w :
  getPowerHal_body cfg use w =
  if negb (sHasHal w) then Done Null w
  else if negb (mReconnectPowerHal w)
          && from_option (fun h => negb (HalWrapper.shouldReconnectHAL h)) false
               (sHalWrapper w)
  then Done ToStatic w
  else
    connectPowerHal cfg use
      (from_option HalWrapper.getPowerHintSessionThreadIds [] (sHalWrapper w))
      (from_option HalWrapper.getTargetWorkDuration None (sHalWrapper w))
      (torn_down w).
Proof.
  unfold getPowerHal_body, torn_down.
  unfold mbind, M_bind, gets, mret, M_ret, modify, reset_sHalWrapper.
  destruct w as [bf ed ne en sp run rc su lt tm mx hw hh e]. simpl.
  destruct hh; simpl; [|done].
  destruct rc; simpl.
  - by destruct hw.
  - destruct hw as [h|]; simpl; [|done].
    by destruct (HalWrapper.shouldReconnectHAL h).
Qed.

Lemma torn_down_ready w :
  sHasHal w = true ->
  sHalWrapper (torn_down w) = None /\ sHasHal (torn_down w) = true
  /\ mReconnectPowerHal (torn_down w) = false
  /\ mPowerHintSessionRunning (torn_down w) = false.
Proof. by destruct w. Qed.

Lemma getPowerHal_fuel_S n :
  getPowerHal_fuel cfg (S n) =
  getPowerHal_body cfg (usePowerHintSession_ (getPowerHal_fuel cfg n)).
Proof. reflexivity. Qed.

(** Two levels of recursion are all [getPowerHal] ever uses. *)
Lemma getPowerHal_fuel_enough n w :
  getPowerHal_fuel cfg (S (S n)) w = getPowerHal cfg w.
Proof.
  unfold getPowerHal.
  rewrite (getPowerHal_fuel_S (S n)), (getPowerHal_fuel_S 1).
  rewrite !getPowerHal_body_cases.
  destruct (sHasHal w) eqn:Hh; simpl; [|done].
  destruct (_ && _); [done|].
  destruct (torn_down_ready w Hh) as (T1 & T2 & T3 & _).
  rewrite (connectPowerHal_nested (getPowerHal_fuel cfg (S n))
             (getPowerHal_connected n)) by done.
  by rewrite (connectPowerHal_nested (getPowerHal_fuel cfg 1)
                (getPowerHal_connected 0)) by done.
Qed.

Theorem getPowerHal_total w : forall w', getPowerHal cfg w <> Stuck OutOfFuel w'.
Proof.
  intros w'. unfold getPowerHal.
  rewrite (getPowerHal_fuel_S 1), getPowerHal_body_cases.
  destruct (sHasHal w) eqn:Hh; simpl; [|done].
  destruct (_ && _); [done|].
  destruct (torn_down_ready w Hh) as (T1 & T2 & T3 & _).
  by apply (connectPowerHal_no_OutOfFuel (getPowerHal_fuel cfg 1)
              (getPowerHal_connected 0)).
Qed.

(** Under the lock the nested [supportsPowerHintSession] cannot run, so
    the cache is left as it is. *)
Lemma getPowerHal_locked w :
  mPowerHalMutex w = true ->
  mSupportsPowerHint (world_of (getPowerHal cfg w)) = mSupportsPowerHint w.
Proof.
  intros Hm. unfold getPowerHal.
  rewrite (getPowerHal_fuel_S 1), getPowerHal_body_cases.
  destruct (sHasHal w) eqn:Hh; simpl; [|done].
  destruct (_ && _); [done|].
  destruct (torn_down_ready w Hh) as (T1 & T2 & T3 & _).
  rewrite (connectPowerHal_locked (getPowerHal_fuel cfg 1)
             (getPowerHal_connected 0)); try done; by destruct w.
Qed.

(** What [getPowerHal] does when it has to reconnect, in a state where
  thread ids imply the cached capability. *)
Lemma getPowerHal_reconnects_inv w h :
  hint_ids_supported w ->
  sHasHal w = true ->
  sHalWrapper w = Some h ->
  mReconnectPowerHal w = true \/ HalWrapper.shouldReconnectHAL h = true ->
  let ids := HalWrapper.getPowerHintSessionThreadIds h in
  let target := HalWrapper.getTargetWorkDuration h in
  let r := getPowerHal cfg w in
  let w' := world_of r in
  let calls := calls_since (env w) (env w') in
  length (filter is_attempt calls) = 1%nat
  /\ mReconnectPowerHal w' = false
  /\ forall a',
       sHalWrapper w' = Some (AidlWrapper a') ->
       Aidl.mPowerHintThreadIds a' = ids
       /\ mPowerHintSessionRunning w' = Aidl.isPowerHintSessionRunning a'
       /\ forall d,
            target = Some d ->
            Aidl.mTargetDuration a' = d
            /\ (ids <> [] /\ mPowerHintEnabled w = Some true <->
                In (CreateHintSession ids d) calls)
            /\ (In (CreateHintSession ids d) calls -> r = Done ToStatic w').
Proof.
  intros Hinv Hh Hw Hre. cbv zeta.
  unfold getPowerHal. rewrite (getPowerHal_fuel_S 1), getPowerHal_body_cases.
  rewrite Hh, Hw. simpl.
  replace (negb (mReconnectPowerHal w) && negb (HalWrapper.shouldReconnectHAL h))
    with false by (destruct Hre as [-> | ->]; by rewrite ?andb_false_r).
  destruct (torn_down_ready w Hh) as (T1 & T2 & T3 & T4).
  pose proof (connectPowerHal_restores (getPowerHal_fuel cfg 1)
                (getPowerHal_connected 0)
                (HalWrapper.getPowerHintSessionThreadIds h)
                (HalWrapper.getTargetWorkDuration h) (torn_down w) T1 T2 T3 T4) as R.
  assert (Hs : mSupportsPowerHint (torn_down w) = mSupportsPowerHint w)
    by (by destruct w).
  assert (He : mPowerHintEnabled (torn_down w) = mPowerHintEnabled w)
    by (by destruct w).
  assert (Henv : env (torn_down w) = HalWrapper.destroy h (env w))
    by (destruct w; simpl in *; by subst).
  rewrite Hs, He in R.
  specialize (R ltac:(destruct h as [|a]; [done | apply Hinv; done])).
  cbv zeta in R.
  pose proof (connectPowerHal_quiet cfg
                (usePowerHintSession_ (getPowerHal_fuel cfg 1))
                (HalWrapper.getPowerHintSessionThreadIds h)
                (HalWrapper.getTargetWorkDuration h)
                (usePowerHintSession_frame _ (getPowerHal_fuel_frame cfg 1))
                (torn_down w)) as (_ & _ & _ & _ & _ & _ & _ & _ & _ & _ & d & Hd & _).
  destruct (destroy_calls h (env w)) as (l & Hl & Hcl).
  rewrite Henv in *.
  rewrite (calls_since_app _ _ _ Hd) in R.
  rewrite Hl, <- app_assoc in Hd. rewrite (calls_since_app _ _ _ Hd).
  assert (F : filter is_attempt l = []).
  { clear -Hcl. induction Hcl as [|c l [s ->] _ IH]; [done|]. by simpl. }
  assert (N : forall i t, In (CreateHintSession i t) (l ++ d)
                          <-> In (CreateHintSession i t) d).
  { intros i t. rewrite in_app_iff. split; [|auto].
    intros [Hin|Hin]; [|done]. exfalso. clear -Hcl Hin.
    induction Hcl as [|c l [s ->] _ IH]; [done|].
    destruct Hin as [?|?]; [done | auto]. }
  rewrite filter_app, F. simpl.
  destruct R as (R1 & R2 & R3). split; [done|]. split; [done|].
  intros a' Ha'. destruct (R3 a' Ha') as (R4 & R5 & R6).
  split; [done|]. split; [done|].
  intros t Ht. destruct (R6 t Ht) as (R7 & R8 & R9).
  split; [done|]. rewrite N. split; [done|]. done.
Qed.
End GetPowerHal.

(** *** Thread ids imply the capability, in every reachable state *)

#[local] Instance kept_preorder : PreOrder kept.
Proof.
  split.
  - intros w. left. auto.
  - intros w1 w2 w3 [[H1 H2]|H2] [[H3 H4]|H4]; unfold kept; auto.
    left. split; [|auto]. destruct H3 as [-> | ->]; auto.
Qed.

Lemma kept_invariant w w' :
  hint_ids_supported w -> kept w w' -> hint_ids_supported w'.
Proof.
  intros Hinv [[Hids Hc]|Hc] a Ha Hne; [|done].
  assert (E : ids_of w' = Aidl.mPowerHintThreadIds a)
    by (unfold ids_of; by rewrite Ha).
  destruct Hids as [Hids|Hids]; [|congruence].
  apply Hc. rewrite E in Hids. unfold ids_of in Hids.
  destruct (sHalWrapper w) as [[|a0]|] eqn:Hw; simpl in *;
    unfold Aidl.getPowerHintSessionThreadIds in *.
  - congruence.
  - apply (Hinv a0); [done | congruence].
  - congruence.
Qed.

Section Kept.
Variable cfg : Config.

Lemma frame_kept w w' :
  frame w w' -> ids_of w' = ids_of w \/ ids_of w' = [] -> kept w w'.
Proof. intros (_&_&_&_&_&_&_&H&_) ?. left. auto. Qed.

Lemma getPowerHal_kept : preserves kept (getPowerHal cfg).
Proof.
  intros w. apply frame_kept; [apply getPowerHal_fuel_frame|].
  unfold getPowerHal. rewrite (getPowerHal_fuel_S cfg 1), getPowerHal_body_cases.
  destruct (sHasHal w) eqn:Hh; simpl; [|auto].
  destruct (_ && _); simpl; [auto|].
  destruct (torn_down_ready w Hh) as (T1 & T2 & T3 & _).
  by apply (connectPowerHal_ids cfg (getPowerHal_fuel cfg 1)
              (getPowerHal_connected cfg 0)).
Qed.

Ltac kept_setter := intros w; destruct w; left; simpl; auto.

Lemma kept_mutex b w : kept w (set_mPowerHalMutex b w).
Proof. revert w. kept_setter. Qed.

Lemma preserves_in_env_kept {A} (f : Env -> A * Env) : preserves kept (in_env f).
Proof.
  intros w. unfold in_env. destruct (f (env w)) as [a e]. simpl.
  destruct w; left; simpl; auto.
Qed.

Lemma preserves_call_kept {A} p (m : HalWrapper -> Env -> A * HalWrapper * Env) :
  (forall h e, HalWrapper.getPowerHintSessionThreadIds (snd (fst (m h e)))
               = HalWrapper.getPowerHintSessionThreadIds h) ->
  preserves kept (call p m).
Proof.
  intros H w. unfold call. destruct p; [reflexivity|].
  destruct (sHalWrapper w) as [h|] eqn:E; [|reflexivity].
  specialize (H h (env w)). destruct (m h (env w)) as [[a h'] e']. simpl in *.
  left. destruct w; simpl in *; subst. unfold ids_of; simpl. auto.
Qed.

(** A call that may change the thread ids, made once the capability is
    known to be there. *)
Lemma call_cached {A} p (m : HalWrapper -> Env -> A * HalWrapper * Env) w :
  mSupportsPowerHint w = Some true ->
  mSupportsPowerHint (world_of (call p m w)) = Some true.
Proof.
  intros H. unfold call. destruct p; [done|].
  destruct (sHalWrapper w) as [h|]; [|done].
  destruct (m h (env w)) as [[a h'] e']. by destruct w.
Qed.

Lemma setExpensiveRendering_ids x h e :
  HalWrapper.getPowerHintSessionThreadIds
    (snd (fst (HalWrapper.setExpensiveRendering x h e)))
  = HalWrapper.getPowerHintSessionThreadIds h.
Proof.
  destruct h as [|a]; simpl.
  - by destruct (Hidl.setExpensiveRendering x e).
  - by destruct (Aidl.setExpensiveRendering x a e).
Qed.

Lemma notifyDisplayUpdateImminent_ids h e :
  HalWrapper.getPowerHintSessionThreadIds
    (snd (fst (HalWrapper.notifyDisplayUpdateImminent h e)))
  = HalWrapper.getPowerHintSessionThreadIds h.
Proof.
  destruct h as [|a]; simpl; [done|].
  by destruct (Aidl.notifyDisplayUpdateImminent a e).
Qed.

Lemma supportsPowerHintSession_ids h e :
  HalWrapper.getPowerHintSessionThreadIds
    (snd (fst (HalWrapper.supportsPowerHintSession h e)))
  = HalWrapper.getPowerHintSessionThreadIds h.
Proof. by destruct h. Qed.

Lemma setTargetWorkDuration_ids d h e :
  HalWrapper.getPowerHintSessionThreadIds
    (snd (fst (HalWrapper.setTargetWorkDuration cfg d h e)))
  = HalWrapper.getPowerHintSessionThreadIds h.
Proof.
  destruct h as [|a]; simpl; [done|].
  pose proof (setTargetWorkDuration_spec cfg d a e) as H. cbv zeta in H.
  destruct (Aidl.setTargetWorkDuration cfg d a e) as [a' e']. simpl.
  destruct (Aidl.mPowerHintSession a);
    [destruct (negb _ && _)|]; destruct H as [_ ->]; destruct a; simpl; try done.
  by destruct (isOk _).
Qed.

Lemma sendActualWorkDuration_ids x t h e :
  HalWrapper.getPowerHintSessionThreadIds
    (snd (fst (HalWrapper.sendActualWorkDuration cfg x t h e)))
  = HalWrapper.getPowerHintSessionThreadIds h.
Proof.
  destruct h as [|a]; simpl; [done|].
  unfold Aidl.sendActualWorkDuration.
  destruct (_ || _); [done|].
  destruct (Aidl.shouldReportActualDurationsNow _ _ _) as [[|] e1]; simpl.
  - destruct a as [? ? ? [s|] ? ? ? ? ? ? ? ?]; simpl; [|done].
    by destruct (isOk _).
  - by destruct a.
Qed.

Lemma supportsPowerHintSession_kept :
  preserves kept (supportsPowerHintSession_ (getPowerHal cfg)).
Proof.
  intros w. unfold supportsPowerHintSession_.
  unfold mbind at 1. unfold M_bind, gets.
  destruct (mSupportsPowerHint w) eqn:Hc; [reflexivity|].
  unfold lock_guard. destruct (mPowerHalMutex w) eqn:Hm; [reflexivity|].
  pose proof (getPowerHal_kept (set_mPowerHalMutex true w)) as K.
  pose proof (getPowerHal_locked cfg (set_mPowerHalMutex true w)
                ltac:(by destruct w)) as L.
  assert (K0 : kept w (world_of (getPowerHal cfg (set_mPowerHalMutex true w))))
    by (etransitivity; [apply (kept_mutex true) | exact K]).
  unfold mbind, M_bind.
  destruct (getPowerHal cfg _) as [p w1|k w1]; simpl in *; [|done].
  pose proof (preserves_call_kept p HalWrapper.supportsPowerHintSession
                supportsPowerHintSession_ids w1) as K1.
  assert (L1 : mSupportsPowerHint (world_of (call p HalWrapper.supportsPowerHintSession w1))
               = None).
  { unfold call. destruct p; simpl; [by destruct w; simpl in *; congruence|].
    destruct (sHalWrapper w1) as [h|]; simpl;
      [|by destruct w; simpl in *; congruence].
    destruct h; destruct w1, w; simpl in *; congruence. }
  destruct (call p _ w1) as [s w2|k w2]; simpl in *.
  2: { by etransitivity. }
  assert (K2 : kept w w2) by (by etransitivity).
  destruct K2 as [[Hids _]|Hs]; [|congruence].
  left. split.
  - destruct w2; exact Hids.
  - intros b Hb. congruence.
Qed.

Lemma usePowerHintSession_kept : preserves kept (usePowerHintSession cfg).
Proof.
  intros w. unfold usePowerHintSession, usePowerHintSession_.
  unfold mbind, M_bind, gets.
  destruct (default false _); [|reflexivity].
  apply supportsPowerHintSession_kept.
Qed.

(** Whenever [usePowerHintSession] answers yes the capability is cached. *)
Lemma usePowerHintSession_true w w' :
  usePowerHintSession cfg w = Done true w' -> mSupportsPowerHint w' = Some true.
Proof.
  unfold usePowerHintSession, usePowerHintSession_, supportsPowerHintSession_.
  unfold mbind, M_bind, gets, lock_guard, modify, mret, M_ret.
  destruct (default false _); [|done].
  destruct (mSupportsPowerHint w) eqn:Hc; [intros; by simplify_eq|].
  destruct (mPowerHalMutex w); [done|].
  destruct (getPowerHal cfg _) as [p w1|k w1]; [|done].
  destruct (call p _ w1) as [s w2|k w2]; [|done].
  intros; simplify_eq. by destruct w2.
Qed.

Ltac kept_auto :=
  repeat first
    [ match goal with
      | |- preserves _ (_ ≫= _) => apply (preserves_bind kept); [| intros ? ]
      end
    | apply (preserves_lock_guard kept); [ intros; apply kept_mutex |]
    | match goal with
      | |- preserves _ (match ?x with _ => _ end) => destruct x
      end
    | apply (preserves_ret kept)
    | apply (preserves_gets kept)
    | apply getPowerHal_kept
    | apply usePowerHintSession_kept
    | apply supportsPowerHintSession_kept
    | apply preserves_in_env_kept
    | apply preserves_call_kept;
        first [ apply setExpensiveRendering_ids
              | apply notifyDisplayUpdateImminent_ids
              | apply setTargetWorkDuration_ids
              | apply sendActualWorkDuration_ids
              | apply supportsPowerHintSession_ids ]
    | match goal with
      | |- preserves _ (modify _) => apply (preserves_modify kept); kept_setter
      end ].

Lemma startPowerHintSession_kept ids :
  preserves kept (startPowerHintSession cfg ids).
Proof.
  unfold startPowerHintSession.
  apply (preserves_bind kept); [apply usePowerHintSession_kept | intros _].
  apply (preserves_bind kept); [| intros _; apply (preserves_gets kept)].
  apply (preserves_lock_guard kept); [intros; apply kept_mutex|].
  apply (preserves_bind kept); [apply getPowerHal_kept | intros [|]].
  { apply (preserves_ret kept). }
  intros w. unfold mbind at 1. unfold M_bind.
  pose proof (usePowerHintSession_kept w) as K.
  destruct (usePowerHintSession cfg w) as [[|] w1|k w1] eqn:E; simpl in *;
    [| exact K | exact K].
  apply usePowerHintSession_true in E.
  right. unfold mbind, M_bind, modify.
  pose proof (call_cached ToStatic
                (HalWrapper.setPowerHintSessionThreadIds ids) w1 E) as C1.
  destruct (call ToStatic (HalWrapper.setPowerHintSessionThreadIds ids) w1)
    as [[] w2|k w2]; cbn [world_of] in *; [|done].
  pose proof (call_cached ToStatic HalWrapper.startPowerHintSession w2 C1) as C2.
  destruct (call ToStatic HalWrapper.startPowerHintSession w2)
    as [r w3|k w3]; cbn [world_of] in *; [|done].
  by destruct w3.
Qed.

Lemma run_op_kept o : preserves kept (run_op cfg o).
Proof.
  destruct o; simpl;
    try (apply (preserves_bind kept);
         [ first [ apply usePowerHintSession_kept
                 | apply supportsPowerHintSession_kept
                 | apply startPowerHintSession_kept
                 | apply (preserves_gets kept) ]
         | intros ?; apply (preserves_ret kept) ]).
  - unfold init. kept_auto.
  - unfold onBootFinished. kept_auto.
  - unfold setExpensiveRenderingExpected. kept_auto.
  - unfold notifyDisplayUpdateImminent. kept_auto.
  - unfold setTargetWorkDuration. kept_auto.
  - unfold sendActualWorkDuration. kept_auto.
  - unfold enablePowerHint. kept_auto.
  - unfold resetCallback. kept_auto.
  - unfold timeoutCallback_step. kept_auto.
Qed.

Lemma run_invariant ops w w' :
  hint_ids_supported w -> run cfg ops w = Done tt w' -> hint_ids_supported w'.
Proof.
  revert w. induction ops as [|o ops IH]; intros w Hinv; simpl.
  - unfold mret, M_ret. intros; by simplify_eq.
  - unfold mbind, M_bind. pose proof (run_op_kept o w) as K.
    destruct (run_op cfg o w) as [[] w1|k w1]; [|done].
    apply IH. by apply (kept_invariant w).
Qed.

Theorem reachable_hint_ids_supported w :
  reachable cfg w -> hint_ids_supported w.
Proof.
  intros (hal & clock & ops & Hrun).
  apply (run_invariant ops (initial hal clock)); [|done].
  intros a Ha. discriminate.
Qed.
End Kept.

Section Reconnect.
Variable cfg : Config.

(** C6.  In a reachable state with a wrapper, when the reconnect flag is
  set or the wrapper asks for it, [getPowerHal] (called under the lock, as
  every public operation does) makes exactly one connection attempt and
  clears the flag.  If the new wrapper is an AIDL one, it holds the thread
  ids of the old wrapper; and when the old wrapper had a target duration,
  the new one holds it, and a hint session is created with those ids and
  that target exactly when the ids are not empty and the power hint is
  enabled, in which case [getPowerHal] returns the wrapper. *)
Theorem getPowerHal_reconnects w0 h :
  reachable cfg w0 ->
  sHasHal w0 = true ->
  sHalWrapper w0 = Some h ->
  mReconnectPowerHal w0 = true \/ HalWrapper.shouldReconnectHAL h = true ->
  let w := set_mPowerHalMutex true w0 in
  let ids := HalWrapper.getPowerHintSessionThreadIds h in
  let target := HalWrapper.getTargetWorkDuration h in
  let r := getPowerHal cfg w in
  let w' := world_of r in
  let calls := calls_since (env w) (env w') in
  length (filter is_attempt calls) = 1%nat
  /\ mReconnectPowerHal w' = false
  /\ forall a',
       sHalWrapper w' = Some (AidlWrapper a') ->
       Aidl.mPowerHintThreadIds a' = ids
       /\ mPowerHintSessionRunning w' = Aidl.isPowerHintSessionRunning a'
       /\ forall d,
            target = Some d ->
            Aidl.mTargetDuration a' = d
            /\ (ids <> [] /\ mPowerHintEnabled w0 = Some true <->
                In (CreateHintSession ids d) calls)
            /\ (In (CreateHintSession ids d) calls -> r = Done ToStatic w').
Proof.
  intros Hreach Hh Hw Hre.
  pose proof (reachable_hint_ids_supported cfg w0 Hreach) as Hinv.
  assert (E : mPowerHintEnabled (set_mPowerHalMutex true w0) = mPowerHintEnabled w0)
    by (by destruct w0).
  rewrite <- E.
  apply getPowerHal_reconnects_inv.
  - intros a Ha Hne. specialize (Hinv a). destruct w0; simpl in *. auto.
  - by destruct w0.
  - by destruct w0.
  - by destruct w0.
Qed.
End Reconnect.

Lemma world_after_reachable hal ops :
  run cfg0 ops (initial hal clock_ms) = Done tt (world_after hal ops) ->
  reachable cfg0 (world_after hal ops).
Proof. intros H. by exists hal, clock_ms, ops. Qed.

Lemma getPowerHal_reconnects_witness :
  let w := set_mPowerHalMutex true (world_after hal_failing_target ops_broken_session) in
  let r := getPowerHal cfg0 w in
  let calls := calls_since (env w) (env (world_of r)) in
  length (filter is_attempt calls) = 1%nat
  /\ mReconnectPowerHal (world_of r) = false
  /\ exists a',
       sHalWrapper (world_of r) = Some (AidlWrapper a')
       /\ Aidl.mPowerHintThreadIds a' = [1; 2]
       /\ Aidl.mTargetDuration a' = 14000000
       /\ In (CreateHintSession [1; 2] 14000000) calls.
Proof.
  cbv zeta.
  set (w0 := world_after hal_failing_target ops_broken_session).
  assert (Hw : exists a, sHalWrapper w0 = Some (AidlWrapper a)
                         /\ Aidl.mShouldReconnectHal a = true
                         /\ Aidl.mPowerHintThreadIds a = [1; 2]
                         /\ Aidl.mTargetDuration a = 14000000).
  { vm_compute. eexists. repeat split. }
  destruct Hw as (a & Hw & Hre & Hids & Htarget).
  destruct (getPowerHal_reconnects cfg0 w0 (AidlWrapper a)) as (H1 & H2 & H3).
  - apply world_after_reachable. vm_compute. reflexivity.
  - reflexivity.
  - exact Hw.
  - right. exact Hre.
  - split; [exact H1|]. split; [exact H2|].
    assert (Ha' : exists a', sHalWrapper (world_of (getPowerHal cfg0
                    (set_mPowerHalMutex true w0))) = Some (AidlWrapper a')).
    { vm_compute. eexists. reflexivity. }
    destruct Ha' as (a' & Ha'). exists a'. split; [exact Ha'|].
    destruct (H3 a' Ha') as (H4 & _ & H5).
    destruct (H5 14000000) as (H6 & H7 & _).
    { unfold HalWrapper.getTargetWorkDuration, Aidl.getTargetWorkDuration.
      by rewrite Htarget. }
    unfold HalWrapper.getPowerHintSessionThreadIds,
      Aidl.getPowerHintSessionThreadIds in H4, H7.
    rewrite Hids in H4, H7.
    split; [exact H4|]. split; [exact H6|].
    apply H7. split; [done | reflexivity].
Defined.

(** *** After the connection has failed *)

#[local] Instance silent_preorder : PreOrder silent.
Proof.
  split.
  - by intros w H.
  - intros w1 w2 w3 H12 H23 H1.
    destruct (H12 H1) as [H2 L2]. destruct (H23 H2) as [H3 L3].
    split; [done | congruence].
Qed.

Section GaveUp.
Variable cfg : Config.

Lemma getPowerHal_silent : preserves silent (getPowerHal cfg).
Proof.
  intros w [H1 H2]. unfold getPowerHal.
  by rewrite getPowerHal_unreachable.
Qed.

Lemma call_silent {A} p (m : HalWrapper -> Env -> A * HalWrapper * Env) :
  preserves silent (call p m).
Proof.
  intros w [H1 H2]. unfold call. rewrite H2. by destruct p.
Qed.

Lemma systemTime_silent : preserves silent (in_env systemTime).
Proof. intros w [H1 H2]. by destruct w. Qed.

Ltac silent_setter := intros w [? ?]; destruct w; simpl in *; by subst.

Ltac silent_auto :=
  repeat first
    [ match goal with
      | |- preserves _ (_ ≫= _) => apply (preserves_bind silent); [| intros ? ]
      end
    | apply (preserves_lock_guard silent); [ intros ?; silent_setter |]
    | match goal with
      | |- preserves _ (match ?x with _ => _ end) => destruct x
      end
    | apply (preserves_ret silent)
    | apply (preserves_gets silent)
    | apply getPowerHal_silent
    | apply call_silent
    | apply systemTime_silent
    | match goal with
      | |- preserves _ (modify _) => apply (preserves_modify silent); silent_setter
      end ].

(** No operation reaches the HAL, or tries to connect to it, once
    [getPowerHal] has given up. *)
Lemma run_op_silent o : preserves silent (run_op cfg o).
Proof.
  destruct o; simpl;
    unfold init, onBootFinished, setExpensiveRenderingExpected,
      notifyDisplayUpdateImminent, usePowerHintSession, usePowerHintSession_,
      supportsPowerHintSession, supportsPowerHintSession_,
      isPowerHintSessionRunning, setTargetWorkDuration, sendActualWorkDuration,
      enablePowerHint, startPowerHintSession, resetCallback, timeoutCallback_step;
    unfold usePowerHintSession, usePowerHintSession_, supportsPowerHintSession_;
    silent_auto.
Qed.

Lemma run_silent ops : preserves silent (run cfg ops).
Proof.
  induction ops as [|o ops IH]; simpl.
  - apply (preserves_ret silent).
  - apply (preserves_bind silent); [apply run_op_silent | by intros _].
Qed.

(** C5, where the code departs from it.  Once [getPowerHal] has given up,
  [supportsPowerHintSession] with an unset cache calls a member through
  the null pointer that [getPowerHal] returns.  ([run_op_silent] shows the
  part of the claim that holds: no operation calls the HAL or tries to
  connect again.) *)
Theorem supportsPowerHintSession_gave_up_faults w :
  sHasHal w = false ->
  mSupportsPowerHint w = None ->
  mPowerHalMutex w = false ->
  supportsPowerHintSession cfg w = Stuck NullDeref (set_mPowerHalMutex true w).
Proof.
  intros H1 H2 H3. unfold supportsPowerHintSession, supportsPowerHintSession_.
  unfold mbind, M_bind, gets, lock_guard. rewrite H2, H3.
  unfold getPowerHal. rewrite getPowerHal_unreachable by (by destruct w).
  reflexivity.
Qed.
End GaveUp.

Lemma supportsPowerHintSession_gave_up_faults_witness :
  let w := world_after hal_absent [OpSetExpensiveRenderingExpected 0 true] in
  calls_since (env (initial hal_absent clock_ms)) (env w)
  = [WaitForVintfService; HidlGetService]
  /\ sHasHal w = false
  /\ supportsPowerHintSession cfg0 w = Stuck NullDeref (set_mPowerHalMutex true w).
Proof.
  split; [vm_compute; reflexivity|]. split; [vm_compute; reflexivity|].
  apply supportsPowerHintSession_gave_up_faults; vm_compute; reflexivity.
Defined.

(** *** The target handed to the wrapper *)

Section Target.
Variable cfg : Config.

Lemma getPowerHal_null w w' :
  sHasHal w = true -> getPowerHal cfg w = Done Null w' -> sHalWrapper w' = None.
Proof.
  intros Hh. unfold getPowerHal.
  rewrite (getPowerHal_fuel_S cfg 1), getPowerHal_body_cases. rewrite Hh. simpl.
  destruct (_ && _); [done|].
  destruct (torn_down_ready w Hh) as (T1 & T2 & T3 & _).
  apply (connectPowerHal_null cfg (getPowerHal_fuel cfg 1)
           (getPowerHal_connected cfg 0)); done.
Qed.

Lemma getPowerHal_static w w' :
  getPowerHal cfg w = Done ToStatic w' -> sHasHal w' = true.
Proof.
  unfold getPowerHal.
  rewrite (getPowerHal_fuel_S cfg 1), getPowerHal_body_cases.
  destruct (sHasHal w) eqn:Hh; simpl; [|done].
  destruct (_ && _); [intros; by simplify_eq|].
  destruct (torn_down_ready w Hh) as (T1 & T2 & T3 & _).
  apply (connectPowerHal_static cfg (getPowerHal_fuel cfg 1)
           (getPowerHal_connected cfg 0)); done.
Qed.

(** The wrapper that [getPowerHal] returns does not ask to be replaced. *)
Lemma getPowerHal_leaves_connected w w' :
  getPowerHal cfg w = Done ToStatic w' -> connected w'.
Proof.
  unfold getPowerHal.
  rewrite (getPowerHal_fuel_S cfg 1), getPowerHal_body_cases.
  destruct (sHasHal w) eqn:Hh; simpl; [|done].
  destruct (mReconnectPowerHal w) eqn:Hr; simpl.
  2: destruct (sHalWrapper w) as [h|] eqn:Hw; simpl;
       [destruct (HalWrapper.shouldReconnectHAL h) eqn:Hs; simpl|].
  3: { intros; simplify_eq. repeat split; try done. by exists h. }
  all: destruct (torn_down_ready w Hh) as (T1 & T2 & T3 & _).
  all: apply (connectPowerHal_connected cfg (getPowerHal_fuel cfg 1)
                (getPowerHal_connected cfg 0)); done.
Qed.

(** What [usePowerHintSession] answers while the power hint is enabled is
    the cached capability, looked up at the first use. *)
Lemma usePowerHintSession_enabled w b w1 :
  sHasHal w = true ->
  mPowerHintEnabled w = Some true ->
  usePowerHintSession cfg w = Done b w1 ->
  mSupportsPowerHint w1 = Some b /\ sHasHal w1 = true.
Proof.
  intros Hh He. unfold usePowerHintSession, usePowerHintSession_.
  unfold supportsPowerHintSession_, mbind, M_bind, gets, mret, M_ret, lock_guard.
  rewrite He. cbn [default from_option id].
  destruct (mSupportsPowerHint w) as [s|] eqn:Hs.
  { intros; by simplify_eq. }
  destruct (mPowerHalMutex w); [done|].
  destruct (getPowerHal cfg _) as [p w2|k w2] eqn:G; [|done].
  unfold call. destruct p; [done|].
  apply getPowerHal_static in G.
  destruct (sHalWrapper w2) as [h|]; [|done].
  destruct (HalWrapper.supportsPowerHintSession h (env w2)) as [[s h'] e'].
  unfold modify. intros; simplify_eq. by destruct w2.
Qed.

(** C9, as amended.  [PowerAdvisor::setTargetWorkDuration d] subtracts the
  safety margin itself.  With the power hint enabled, whether the
  capability is cached already or looked up by this very call: when the
  call returns with the capability present and an AIDL wrapper, the target
  that wrapper holds is [d - kTargetSafetyMargin] as computed in
  [int64_t], which is the difference itself when that is in range. *)
Theorem setTargetWorkDuration_subtracts_margin targetDurationNanos w w' a' :
  sHasHal w = true ->
  mPowerHintEnabled w = Some true ->
  setTargetWorkDuration cfg targetDurationNanos w = Done tt w' ->
  mSupportsPowerHint w' = Some true ->
  sHalWrapper w' = Some (AidlWrapper a') ->
  Aidl.mTargetDuration a' = Int64.sub targetDurationNanos (kTargetSafetyMargin cfg)
  /\ (Int64.min <= targetDurationNanos - kTargetSafetyMargin cfg <= Int64.max ->
      Aidl.mTargetDuration a' = targetDurationNanos - kTargetSafetyMargin cfg).
Proof.
  intros Hh He Hrun Hsup Hw'.
  assert (Ht : Aidl.mTargetDuration a'
               = Int64.sub targetDurationNanos (kTargetSafetyMargin cfg)).
  2: { split; [done|]. intros Hr. rewrite Ht. by apply Int64_wrap_in_range. }
  revert Hrun Hsup Hw'. unfold setTargetWorkDuration. unfold mbind at 1, M_bind.
  destruct (usePowerHintSession cfg w) as [b w1|k w1] eqn:U; [|done].
  destruct (usePowerHintSession_enabled w b w1 Hh He U) as [Hc Hh1].
  destruct b; cbn [negb].
  2: { unfold mret, M_ret. intros; simplify_eq. }
  unfold mbind, M_bind, lock_guard.
  destruct (mPowerHalMutex w1); [done|].
  destruct (getPowerHal cfg _) as [[|] w2|k w2] eqn:G; [| |done].
  - apply getPowerHal_null in G; [|by destruct w1].
    unfold mret, M_ret. intros; simplify_eq. destruct w2; simpl in *; congruence.
  - unfold call. destruct (sHalWrapper w2) as [[|a]|]; cbn; [| |done].
    + intros; simplify_eq. destruct w2; simpl in *; congruence.
    + pose proof (setTargetWorkDuration_spec cfg
                    (Int64.sub targetDurationNanos (kTargetSafetyMargin cfg))
                    a (env w2)) as S.
      cbv zeta in S.
      destruct (Aidl.setTargetWorkDuration cfg _ a (env w2)) as [a1 e1].
      intros E1 _ E2. simplify_eq. destruct w2; simpl in *. simplify_eq.
      destruct (Aidl.mPowerHintSession a);
        [destruct (negb _ && _)|]; destruct S as [_ ->]; destruct a; simpl; try done.
      by destruct (isOk _).
Qed.
End Target.

(** C9 as stated fails: asked for 16ms, the wrapper is handed 14ms. *)
Lemma setTargetWorkDuration_hands_reduced_target :
  let w := world_after hal_ok ops_session in
  let w' := world_of (setTargetWorkDuration cfg0 16000000 w) in
  exists a',
    sHalWrapper w' = Some (AidlWrapper a')
    /\ Aidl.mTargetDuration a' = 14000000
    /\ Aidl.mTargetDuration a' <> 16000000
    /\ calls_since (env w) (env w') = [UpdateTargetWorkDuration 4%nat 14000000].
Proof. vm_compute. eexists. repeat split. discriminate. Qed.

(** The first use: the capability is not cached yet when the target comes. *)
Lemma setTargetWorkDuration_subtracts_margin_witness :
  let w := world_after hal_ok [OpOnBootFinished; OpEnablePowerHint true] in
  let w' := world_of (setTargetWorkDuration cfg0 16000000 w) in
  mSupportsPowerHint w = None
  /\ exists a', sHalWrapper w' = Some (AidlWrapper a')
                /\ Aidl.mTargetDuration a' = 16000000 - 2000000.
Proof.
  intros w w'. split; [reflexivity|].
  assert (Ha' : exists a', sHalWrapper w' = Some (AidlWrapper a')).
  { vm_compute. eexists. reflexivity. }
  destruct Ha' as (a' & Ha'). exists a'. split; [exact Ha'|].
  apply (setTargetWorkDuration_subtracts_margin cfg0 16000000 w w' a');
    [reflexivity | reflexivity | vm_compute; reflexivity | vm_compute; reflexivity
    | exact Ha' | vm_compute; split; discriminate].
Defined.

(** A difference that leaves the range is handed over reduced to it. *)
Example setTargetWorkDuration_margin_wraps :
  let w := world_after hal_ok ops_session in
  let w' := world_of (setTargetWorkDuration cfg0 (Int64.min + 1) w) in
  calls_since (env w) (env w')
  = [UpdateTargetWorkDuration 4%nat 9223372036852775809].
Proof. vm_compute. reflexivity. Qed.

(** *** The expensive-rendering toggle *)

Lemma quiet_no_toggle d :
  Forall (fun c => signal c = false) d -> filter is_toggle d = [].
Proof.
  induction 1 as [|c d Hc _ IH]; [done|].
  simpl. destruct c; simpl in *; try done.
Qed.


Section Toggle.
Variable cfg : Config.

(** [setExpensiveRenderingExpected] in direct style. *)
Lemma setExpensiveRenderingExpected_eq (displayId : Z) (expected : bool) w :
  let displays :=
    if expected then {[displayId]} ∪ mExpensiveDisplays w
    else mExpensiveDisplays w ∖ {[displayId]} in
  let expects := negb (bool_decide (displays = ∅)) in
  let w0 := set_mExpensiveDisplays displays w in
  setExpensiveRenderingExpected cfg displayId expected w =
  if eqb (mNotifiedExpensiveRendering w) expects then Done tt w0
  else if mPowerHalMutex w then Stuck Relock w0
  else
    match getPowerHal cfg (set_mPowerHalMutex true w0) with
    | Done Null w1 => Done tt (set_mPowerHalMutex false w1)
    | Done ToStatic w1 =>
        match sHalWrapper w1 with
        | Some h =>
            let '(ok, h', e') :=
              HalWrapper.setExpensiveRendering expects h (env w1) in
            let w2 := set_sHalWrapper (Some h') (set_env e' w1) in
            Done tt (set_mPowerHalMutex false
                       (if ok then set_mNotifiedExpensiveRendering expects w2
                        else set_mReconnectPowerHal true w2))
        | None => Stuck NullDeref w1
        end
    | Stuck k w1 => Stuck k w1
    end.
Proof.
  intros displays expects w0.
  unfold setExpensiveRenderingExpected.
  unfold mbind, M_bind, gets, mret, M_ret, modify, lock_guard.
  cbv beta. fold displays. fold w0.
  assert (E1 : mExpensiveDisplays w0 = displays) by (subst w0; by destruct w).
  assert (E2 : mNotifiedExpensiveRendering w0 = mNotifiedExpensiveRendering w)
    by (subst w0; by destruct w).
  assert (E3 : mPowerHalMutex w0 = mPowerHalMutex w) by (subst w0; by destruct w).
  rewrite E1, E2. fold expects.
  destruct (eqb _ _); cbn [negb]; [done|].
  rewrite E3. destruct (mPowerHalMutex w); [done|].
  destruct (getPowerHal cfg _) as [[|] w1|k w1]; [done| |done].
  unfold call. destruct (sHalWrapper w1) as [h|]; [|done].
  destruct (HalWrapper.setExpensiveRendering expects h (env w1)) as [[ok h'] e'].
  by destruct ok.
Qed.

(** When one call sends a toggle, and which. *)
Lemma setExpensiveRenderingExpected_toggle_iff (displayId : Z) (expected : bool) w :
  mPowerHalMutex w = false ->
  let displays :=
    if expected then {[displayId]} ∪ mExpensiveDisplays w
    else mExpensiveDisplays w ∖ {[displayId]} in
  let expects := negb (bool_decide (displays = ∅)) in
  let r := setExpensiveRenderingExpected cfg displayId expected w in
  let toggles := filter is_toggle (calls_since (env w) (env (world_of r))) in
  (toggles <> [] <->
     mNotifiedExpensiveRendering w <> expects
     /\ exists w1 h,
          getPowerHal cfg
            (set_mPowerHalMutex true (set_mExpensiveDisplays displays w))
          = Done ToStatic w1
          /\ sHalWrapper w1 = Some h /\ passes_toggle h = true)
  /\ (toggles = [] \/ toggles = [SetMode expects]
      \/ toggles = [PowerHintAsync_1_3 expects]).
Proof.
  intros Hm displays expects. cbv zeta.
  rewrite setExpensiveRenderingExpected_eq. cbv zeta. fold displays. fold expects.
  rewrite Hm.
  set (w0 := set_mExpensiveDisplays displays w).
  assert (E4 : env w0 = env w) by (by destruct w).
  destruct (eqb_spec (mNotifiedExpensiveRendering w) expects) as [Heq|Hne];
    cbn [world_of].
  { rewrite E4, calls_since_refl. simpl. split; [|auto].
    split; [done | by intros [? _]]. }
  assert (E5 : env (set_mPowerHalMutex true w0) = env w) by (by destruct w).
  pose proof (getPowerHal_fuel_frame cfg 2 (set_mPowerHalMutex true w0)) as F.
  fold (getPowerHal cfg) in F.
  destruct F as (_&_&_&_&_&_&_&_&_&_& d & Hd & Hq). rewrite E5 in Hd.
  pose proof (quiet_no_toggle d Hq) as Hnt.
  destruct (getPowerHal cfg (set_mPowerHalMutex true w0)) as [[|] w1|k w1] eqn:G;
    cbn [world_of] in *.
  - assert (E6 : env (set_mPowerHalMutex false w1) = env w1) by (by destruct w1).
    rewrite E6, (calls_since_app _ _ _ Hd), Hnt.
    split; [|auto]. split; [done|]. by intros [_ (w2 & h & ? & _)].
  - destruct (sHalWrapper w1) as [h|] eqn:Hw1; cbn [world_of].
    2: { rewrite (calls_since_app _ _ _ Hd), Hnt.
         split; [|auto]. split; [done|].
         intros [_ (w2 & h & ? & ? & _)]. by simplify_eq. }
    assert (T : forall r' h' e',
              HalWrapper.setExpensiveRendering expects h (env w1) = (r', h', e') ->
              log e' = log (env w) ++ d
                       ++ (if passes_toggle h then
                             [match h with
                              | HidlWrapper => PowerHintAsync_1_3 expects
                              | AidlWrapper _ => SetMode expects
                              end]
                           else [])).
    { intros r' h' e'. destruct h as [|a]; simpl.
      - intros; simplify_eq. simpl. by rewrite Hd, app_assoc.
      - unfold Aidl.setExpensiveRendering.
        destruct (Aidl.mHasExpensiveRendering a); simpl; intros; simplify_eq.
        + simpl. by rewrite Hd, app_assoc.
        + by rewrite Hd, app_nil_r. }
    destruct (HalWrapper.setExpensiveRendering expects h (env w1))
      as [[r' h'] e'] eqn:Hcall.
    specialize (T r' h' e' eq_refl). cbn [world_of].
    match goal with
    | |- context [env ?x] =>
        lazymatch x with
        | set_mPowerHalMutex false _ =>
            replace (env x) with e' by (destruct r'; by destruct w1)
        end
    end.
    rewrite (calls_since_app _ _ _ T), filter_app, Hnt. simpl.
    destruct (passes_toggle h) eqn:Hp.
    + split.
      * split; [|by destruct h]. intros _. split; [done|]. by exists w1, h.
      * destruct h; auto.
    + split; [|auto]. split; [done|].
      intros [_ (w2 & h2 & ? & ? & ?)]. simplify_eq. congruence.
  - rewrite (calls_since_app _ _ _ Hd), Hnt.
    split; [|auto]. split; [done|]. by intros [_ (w2 & h & ? & _)].
Qed.

Lemma toggles_unsupported_connected w : toggles_unsupported w -> connected w.
Proof.
  intros (H1 & H2 & a & H3 & _ & H5). repeat split; try done.
  by exists (AidlWrapper a).
Qed.

(** One call: nothing is sent and the value notified stays; or the toggle
    is sent and the value notified follows the answer; or the wrapper
    keeps the toggle to itself and the value notified is the aggregate. *)
Lemma setExpensiveRenderingExpected_cases (displayId : Z) (expected : bool) w :
  let displays :=
    if expected then {[displayId]} ∪ mExpensiveDisplays w
    else mExpensiveDisplays w ∖ {[displayId]} in
  let expects := negb (bool_decide (displays = ∅)) in
  let w' := world_of (setExpensiveRenderingExpected cfg displayId expected w) in
  hal (env w') = hal (env w)
  /\ exists d,
       Forall (fun c => signal c = false) d
       /\ ((log (env w') = log (env w) ++ d
            /\ mNotifiedExpensiveRendering w' = mNotifiedExpensiveRendering w
            /\ (toggles_unsupported w -> toggles_unsupported w'))
           \/ (mNotifiedExpensiveRendering w <> expects
               /\ ~ toggles_unsupported w
               /\ exists c,
                    (c = SetMode expects \/ c = PowerHintAsync_1_3 expects)
                    /\ log (env w') = log (env w) ++ d ++ [c]
                    /\ mNotifiedExpensiveRendering w' =
                       if isOk (hal (env w) (length (log (env w) ++ d)) c)
                       then expects else mNotifiedExpensiveRendering w)
           \/ (mNotifiedExpensiveRendering w <> expects
               /\ log (env w') = log (env w) ++ d
               /\ mNotifiedExpensiveRendering w' = expects
               /\ toggles_unsupported w')).
Proof.
  intros displays expects. cbv zeta.
  rewrite setExpensiveRenderingExpected_eq. cbv zeta. fold displays. fold expects.
  set (w0 := set_mExpensiveDisplays displays w).
  assert (E0 : env w0 = env w) by (by destruct w).
  assert (N0 : mNotifiedExpensiveRendering w0 = mNotifiedExpensiveRendering w)
    by (by destruct w).
  assert (U0 : forall b, toggles_unsupported w ->
                         toggles_unsupported (set_mPowerHalMutex b w0)).
  { intros b (H1 & H2 & a & H3 & H4 & H5).
    repeat split; try (by destruct w). exists a. by destruct w. }
  assert (U1 : toggles_unsupported w -> toggles_unsupported w0).
  { intros (H1 & H2 & a & H3 & H4 & H5).
    repeat split; try (by destruct w). exists a. by destruct w. }
  destruct (eqb_spec (mNotifiedExpensiveRendering w) expects) as [Heq|Hne];
    cbn [world_of].
  { split; [by rewrite E0|]. exists []. split; [constructor|]. left.
    rewrite E0, N0, app_nil_r. split; [done|]. split; [done|]. exact U1. }
  destruct (mPowerHalMutex w) eqn:Hm; cbn [world_of].
  { split; [by rewrite E0|]. exists []. split; [constructor|]. left.
    rewrite E0, N0, app_nil_r. split; [done|]. split; [done|]. exact U1. }
  set (w00 := set_mPowerHalMutex true w0).
  assert (E00 : env w00 = env w) by (by destruct w).
  assert (N00 : mNotifiedExpensiveRendering w00 = mNotifiedExpensiveRendering w)
    by (by destruct w).
  pose proof (getPowerHal_fuel_frame cfg 2 w00) as F.
  fold (getPowerHal cfg) in F.
  destruct F as (_&_&Fn&_&_&_&_&_&Fh&_& d & Hd & Hq).
  rewrite E00 in Fh, Hd. rewrite N00 in Fn.
  assert (G0 : toggles_unsupported w -> getPowerHal cfg w00 = Done ToStatic w00).
  { intros HU. apply (getPowerHal_connected cfg 1).
    apply toggles_unsupported_connected. by apply U0. }
  destruct (getPowerHal cfg w00) as [[|] w1|k w1] eqn:G; cbn [world_of] in *.
  - split; [by destruct w1|]. exists d. split; [done|]. left.
    split; [by destruct w1|]. split; [by destruct w1|].
    intros HU. by specialize (G0 HU).
  - destruct (sHalWrapper w1) as [h|] eqn:Hw1; cbn [world_of].
    2: { split; [done|]. exists d. split; [done|]. left.
         split; [done|]. split; [done|]. intros HU. pose proof (G0 HU) as G1. simplify_eq.
         destruct (U0 true HU) as (_ & _ & a & Ha & _). unfold w00 in *. congruence. }
    destruct (getPowerHal_leaves_connected cfg _ _ G) as (C1 & C2 & h0 & C3 & C4).
    assert (h0 = h) by congruence. subst h0.
    assert (Sent : forall c,
              (c = SetMode expects \/ c = PowerHintAsync_1_3 expects) ->
              ~ toggles_unsupported w ->
              let ok := isOk (hal (env w1) (length (log (env w1))) c) in
              let w2 := set_sHalWrapper (Some h) (set_env (snd (remote c (env w1))) w1) in
              let w' := set_mPowerHalMutex false
                          (if ok then set_mNotifiedExpensiveRendering expects w2
                           else set_mReconnectPowerHal true w2) in
              hal (env w') = hal (env w)
              /\ exists d,
                   Forall (fun c => signal c = false) d
                   /\ ((log (env w') = log (env w) ++ d
                        /\ mNotifiedExpensiveRendering w' = mNotifiedExpensiveRendering w
                        /\ (toggles_unsupported w -> toggles_unsupported w'))
                       \/ (mNotifiedExpensiveRendering w <> expects
                           /\ ~ toggles_unsupported w
                           /\ exists c,
                                (c = SetMode expects \/ c = PowerHintAsync_1_3 expects)
                                /\ log (env w') = log (env w) ++ d ++ [c]
                                /\ mNotifiedExpensiveRendering w' =
                                   if isOk (hal (env w) (length (log (env w) ++ d)) c)
                                   then expects else mNotifiedExpensiveRendering w)
                       \/ (mNotifiedExpensiveRendering w <> expects
                           /\ log (env w') = log (env w) ++ d
                           /\ mNotifiedExpensiveRendering w' = expects
                           /\ toggles_unsupported w'))).
    { intros c Hc HnU. cbv zeta. rewrite Fh, Hd.
      split; [destruct (isOk _); by destruct w1|].
      exists d. split; [done|]. right; left.
      split; [done|]. split; [done|]. exists c. split; [done|].
      split; [destruct (isOk _); destruct w1; simpl in *; by rewrite Hd, app_assoc|].
      destruct (isOk _); by destruct w1. }
    destruct h as [|a]; simpl.
    + apply (Sent (PowerHintAsync_1_3 expects)); [auto|].
      intros HU. pose proof (G0 HU) as G1. simplify_eq.
      destruct (U0 true HU) as (_ & _ & a & Ha & _). unfold w00 in *. congruence.
    + unfold Aidl.setExpensiveRendering.
      destruct (Aidl.mHasExpensiveRendering a) eqn:Hmode; simpl.
      * apply (Sent (SetMode expects)); [auto|].
        intros HU. pose proof (G0 HU) as G1. simplify_eq.
        destruct (U0 true HU) as (_ & _ & a' & Ha & Hb & _). unfold w00 in *. congruence.
      * split; [by destruct w1|]. exists d. split; [done|]. right; right.
        split; [done|]. split; [by destruct w1|]. split; [by destruct w1|].
        repeat split; try (by destruct w1). exists a. by destruct w1.
  - split; [done|]. exists d. split; [done|]. left.
    split; [done|]. split; [done|]. intros HU. by specialize (G0 HU).
Qed.

Lemma toggles_sent_app hal n d1 d2 :
  toggles_sent hal n (d1 ++ d2)
  = toggles_sent hal n d1 ++ toggles_sent hal (n + length d1) d2.
Proof.
  revert n. induction d1 as [|c d1 IH]; intros n; simpl.
  - by rewrite Nat.add_0_r.
  - rewrite IH, <- app_assoc. by rewrite Nat.add_succ_r.
Qed.

Lemma toggles_sent_quiet hal n d :
  Forall (fun c => signal c = false) d -> toggles_sent hal n d = [].
Proof.
  intros H. revert n. induction H as [|c d Hc _ IH]; intros n; [done|].
  simpl. rewrite IH. by destruct c.
Qed.

(** What the HAL was last told is remembered from one call to the next. *)
Lemma setExpensiveRenderingExpected_memory known (displayId : Z) (expected : bool) w :
  toggle_memory known w ->
  let w' := world_of (setExpensiveRenderingExpected cfg displayId expected w) in
  hal (env w') = hal (env w)
  /\ exists d known',
       log (env w') = log (env w) ++ d
       /\ toggle_memory known' w'
       /\ forall rest,
            never_redundant known' rest ->
            never_redundant known
              (toggles_sent (hal (env w)) (length (log (env w))) d ++ rest).
Proof.
  intros Hmem.
  pose proof (setExpensiveRenderingExpected_cases displayId expected w) as H.
  cbv zeta in H. set (expects := negb (bool_decide (_ = ∅))) in H.
  destruct H
    as (Hh & d & Hq & [(Hl & Hn & HU)|[(Hne & HnU & c & Hc & Hl & Hn)|(Hne & Hl & Hn & HU)]]).
  - cbv zeta. split; [done|]. exists d, known. split; [done|]. split.
    + destruct Hmem as [H|H]; [left; congruence | right; auto].
    + intros rest Hr. by rewrite toggles_sent_quiet.
  - cbv zeta. split; [done|].
    destruct Hmem as [Hk|?]; [|done].
    set (ok := isOk (hal (env w) (length (log (env w) ++ d)) c)) in *.
    exists (d ++ [c]), (if ok then expects else known). split; [done|]. split.
    + left. rewrite Hn. destruct ok; congruence.
    + intros rest Hr. rewrite toggles_sent_app, toggles_sent_quiet by done.
      rewrite <- length_app. fold ok.
      destruct Hc as [-> | ->]; simpl; (split; [congruence | exact Hr]).
  - cbv zeta. split; [done|]. exists d, known. split; [done|]. split; [by right|].
    intros rest Hr. by rewrite toggles_sent_quiet.
Qed.

Lemma run_toggle_memory calls :
  forall known w,
    toggle_memory known w ->
    let w' := world_of (run cfg (toggle_ops calls) w) in
    hal (env w') = hal (env w)
    /\ exists d,
         log (env w') = log (env w) ++ d
         /\ never_redundant known
              (toggles_sent (hal (env w)) (length (log (env w))) d).
Proof.
  induction calls as [|[displayId expected] calls IH]; intros known w Hmem; cbv zeta.
  - simpl. split; [done|]. exists []. by rewrite app_nil_r.
  - simpl. unfold mbind, M_bind.
    destruct (setExpensiveRenderingExpected_memory known displayId expected w Hmem)
      as (Hh & d1 & known' & Hl & Hmem' & Hnr).
    cbv zeta in *.
    destruct (setExpensiveRenderingExpected cfg displayId expected w)
      as [[] w1|k w1]; cbn [world_of] in *.
    + destruct (IH known' w1 Hmem') as (Hh2 & d2 & Hl2 & Hnr2). cbv zeta in *.
      split; [congruence|]. exists (d1 ++ d2).
      split; [by rewrite Hl2, Hl, app_assoc|].
      rewrite toggles_sent_app. apply Hnr.
      by rewrite <- length_app, <- Hl, <- Hh.
    + split; [done|]. exists d1. split; [done|].
      specialize (Hnr [] I). by rewrite app_nil_r in Hnr.
Qed.

(** C7, as amended.  One call of [setExpensiveRenderingExpected] sends a
  toggle to the HAL exactly when the aggregate differs from the value last
  notified and [getPowerHal] returns a wrapper that passes the toggle on
  (a HIDL wrapper, or an AIDL wrapper whose HAL supports the mode); it
  sends at most one, and its value is the aggregate.  After a toggle the
  value notified is the aggregate when the HAL accepted it, and is what it
  was when the HAL refused it.  Over every sequence of calls, from any
  state, no toggle repeats what the HAL was told: each one differs from
  the last toggle before it that the HAL accepted, and from the value
  notified at the start when there is none. *)
Theorem setExpensiveRenderingExpected_toggles (displayId : Z) (expected : bool) w :
  mPowerHalMutex w = false ->
  let displays :=
    if expected then {[displayId]} ∪ mExpensiveDisplays w
    else mExpensiveDisplays w ∖ {[displayId]} in
  let expects := negb (bool_decide (displays = ∅)) in
  let r := setExpensiveRenderingExpected cfg displayId expected w in
  let sent := calls_since (env w) (env (world_of r)) in
  let toggles := filter is_toggle sent in
  (toggles <> [] <->
     mNotifiedExpensiveRendering w <> expects
     /\ exists w1 h,
          getPowerHal cfg
            (set_mPowerHalMutex true (set_mExpensiveDisplays displays w))
          = Done ToStatic w1
          /\ sHalWrapper w1 = Some h /\ passes_toggle h = true)
  /\ (toggles = [] \/ toggles = [SetMode expects]
      \/ toggles = [PowerHintAsync_1_3 expects])
  /\ (forall ok,
        toggles_sent (hal (env w)) (length (log (env w))) sent = [(expects, ok)] ->
        mNotifiedExpensiveRendering (world_of r)
        = if ok then expects else mNotifiedExpensiveRendering w)
  /\ (forall calls,
        never_redundant (mNotifiedExpensiveRendering w)
          (toggles_sent (hal (env w)) (length (log (env w)))
             (calls_since (env w)
                (env (world_of (run cfg (toggle_ops calls) w)))))).
Proof.
  intros Hm displays expects r sent toggles.
  destruct (setExpensiveRenderingExpected_toggle_iff displayId expected w Hm)
    as (H1 & H2).
  split; [exact H1|]. split; [exact H2|]. split.
  - intros ok. subst sent r.
    destruct (setExpensiveRenderingExpected_cases displayId expected w)
      as (Hh & d & Hq & [(Hl & Hn & HU)|[(Hne & HnU & c & Hc & Hl & Hn)|(Hne & Hl & Hn & HU)]]).
    + rewrite (calls_since_app _ _ _ Hl), toggles_sent_quiet by done. done.
    + rewrite (calls_since_app _ _ _ Hl), toggles_sent_app, toggles_sent_quiet by done.
      rewrite <- length_app. rewrite Hn.
      destruct Hc as [-> | ->]; simpl; intros; by simplify_eq.
    + rewrite (calls_since_app _ _ _ Hl), toggles_sent_quiet by done. done.
  - intros calls.
    destruct (run_toggle_memory calls (mNotifiedExpensiveRendering w) w)
      as (_ & d & Hl & Hnr); [by left|].
    by rewrite (calls_since_app _ _ _ Hl).
Qed.
End Toggle.

(** C7 as stated fails: with no Power HAL the aggregate differs from the
    value last notified and no toggle is sent. *)
Lemma setExpensiveRenderingExpected_no_hal_no_toggle :
  let w := initial hal_absent clock_ms in
  let r := setExpensiveRenderingExpected cfg0 0 true w in
  mNotifiedExpensiveRendering w
    <> negb (bool_decide ({[0]} ∪ mExpensiveDisplays w = ∅))
  /\ filter is_toggle (calls_since (env w) (env (world_of r))) = [].
Proof. vm_compute. split; [discriminate | reflexivity]. Qed.

Lemma setExpensiveRenderingExpected_toggles_witness :
  let w := initial hal_ok clock_ms in
  let r := setExpensiveRenderingExpected cfg0 0 true w in
  filter is_toggle (calls_since (env w) (env (world_of r))) <> []
  /\ mNotifiedExpensiveRendering (world_of r) = true
  /\ never_redundant false
       (toggles_sent hal_ok 0
          (calls_since (env w)
             (env (world_of (run cfg0 (toggle_ops [(0, true); (1, true); (0, false);
                                                   (1, false); (2, true)]) w))))).
Proof.
  destruct (setExpensiveRenderingExpected_toggles cfg0 0 true
              (initial hal_ok clock_ms) eq_refl) as (H1 & _ & H3 & H4).
  split; [|split].
  - apply H1. split; [vm_compute; discriminate|].
    vm_compute. eexists. eexists. repeat split.
  - apply (H3 true). vm_compute. reflexivity.
  - apply (H4 [(0, true); (1, true); (0, false); (1, false); (2, true)]).
Defined.

(** Five calls on three displays: the aggregate changes three times and three
    toggles are sent. *)
Example setExpensiveRenderingExpected_three_toggles :
  let w := initial hal_ok clock_ms in
  filter is_toggle
    (calls_since (env w)
       (env (world_of (run cfg0 (toggle_ops [(0, true); (1, true); (0, false);
                                             (1, false); (2, true)]) w))))
  = [SetMode true; SetMode false; SetMode true].
Proof. vm_compute. reflexivity. Qed.

(** *** [getPowerHal] does not read the clock *)

#[local] Instance same_ticks_preorder : PreOrder same_ticks.
Proof.
  split.
  - by intros w.
  - intros w1 w2 w3 H12 H23. unfold same_ticks in *. congruence.
Qed.

Section Ticks.
Variable cfg : Config.













End Ticks.

(** *** The debounce window *)

Section Debounce.
Variable cfg : Config.

(** [notifyDisplayUpdateImminent] in direct style. *)
Lemma notifyDisplayUpdateImminent_eq w :
  notifyDisplayUpdateImminent cfg w =
  if negb (mBootFinished w) then Done tt w
  else
    let w0 := set_mSendUpdateImminent false w in
    if mSendUpdateImminent w then
      if mPowerHalMutex w then Stuck Relock w0
      else
        match getPowerHal cfg (set_mPowerHalMutex true w0) with
        | Done Null w1 => Done tt (set_mPowerHalMutex false w1)
        | Done ToStatic w1 =>
            match sHalWrapper w1 with
            | Some h =>
                let '(ok, h', e') :=
                  HalWrapper.notifyDisplayUpdateImminent h (env w1) in
                let w2 := set_sHalWrapper (Some h') (set_env e' w1) in
                if ok then
                  Done tt
                    (record_update cfg
                       (set_mPowerHalMutex false
                          (if hasScreenUpdateTimer cfg then reset_timer w2
                           else set_mSendUpdateImminent true w2)))
                else
                  Done tt (set_mPowerHalMutex false (set_mReconnectPowerHal true w2))
            | None => Stuck NullDeref w1
            end
        | Stuck k w1 => Stuck k w1
        end
    else Done tt (record_update cfg w0).
Proof.
  unfold notifyDisplayUpdateImminent, record_update, reset_timer.
  unfold mbind, M_bind, gets, mret, M_ret, modify, lock_guard, in_env.
  destruct w as [bf ed ne en sp run rc su lt tm mx hw hh e].
  cbn -[getPowerHal call systemTime HalWrapper.notifyDisplayUpdateImminent
        hasScreenUpdateTimer].
  destruct bf; cbn [negb]; [|done].
  destruct su; cbn -[getPowerHal call systemTime
                     HalWrapper.notifyDisplayUpdateImminent hasScreenUpdateTimer].
  - destruct mx; [done|].
    destruct (getPowerHal cfg _) as [[|] w1|k w1]; [done| |done].
    unfold call. destruct (sHalWrapper w1) as [h|]; [|done].
    destruct (HalWrapper.notifyDisplayUpdateImminent h (env w1)) as [[ok h'] e'].
    destruct ok; cbn [negb]; [|done].
    destruct (hasScreenUpdateTimer cfg); [|done].
    cbv beta. by destruct (systemTime _).
  - destruct (hasScreenUpdateTimer cfg); [|done].
    by destruct (systemTime _).
Qed.




(** The first call of a window, on a HAL that takes the boost. *)
Lemma notifyDisplayUpdateImminent_first w a :
  hasScreenUpdateTimer cfg = true ->
  mBootFinished w = true ->
  mSendUpdateImminent w = true ->
  mPowerHalMutex w = false ->
  sHasHal w = true ->
  mReconnectPowerHal w = false ->
  sHalWrapper w = Some (AidlWrapper a) ->
  Aidl.mShouldReconnectHal a = false ->
  Aidl.mHasDisplayUpdateImminent a = true ->
  isOk (hal (env w) (length (log (env w))) SetBoost) = true ->
  exists w',
    notifyDisplayUpdateImminent cfg w = Done tt w'
    /\ disarmed (ticks (env w)) (env w) (S (ticks (env w))) w'.
Proof.
  intros Ht Hb Ha Hm Hh Hr Hw Hs Hc Hok.
  rewrite notifyDisplayUpdateImminent_eq. rewrite Hb, Ha, Hm. cbn [negb]. cbv zeta.
  unfold getPowerHal. rewrite getPowerHal_connected.
  2: { repeat split; [by destruct w | by destruct w |].
       exists (AidlWrapper a). split; [by destruct w | done]. }
  replace (sHalWrapper (set_mPowerHalMutex true (set_mSendUpdateImminent false w)))
    with (Some (AidlWrapper a)) by (by destruct w).
  replace (env (set_mPowerHalMutex true (set_mSendUpdateImminent false w)))
    with (env w) by (by destruct w).
  simpl. unfold Aidl.notifyDisplayUpdateImminent. rewrite Hc. simpl. rewrite Hok.
  eexists. split; [reflexivity|].
  unfold record_update. rewrite Ht.
  destruct w as [bf ed ne en sp run rc su lt tm mx hw hh e'];
    simpl in *; subst. repeat split; [simpl; lia|].
  exists (ticks e'). simpl. split; [lia | done].
Qed.








End Debounce.



(** *** The AIDL wrapper: capabilities, thread ids, batches *)

Lemma remote_length c e :
  length (log (snd (remote c e))) = S (length (log e)).
Proof. simpl. rewrite length_app. simpl. lia. Qed.

(** A [double] divided by itself, when it is finite and not zero. *)
Lemma div_eucl_same m : Z.div_eucl (Z.shiftl (Z.pos m) 53) (Z.pos m) = (2 ^ 53, 0).
Proof.
  rewrite Z.shiftl_mul_pow2 by lia.
  pose proof (Z.div_eucl_eq (Z.pos m * 2 ^ 53) (Z.pos m) ltac:(lia)) as H.
  pose proof (Z.mod_pos_bound (Z.pos m * 2 ^ 53) (Z.pos m) ltac:(lia)) as B.
  unfold Z.modulo in B.
  destruct (Z.div_eucl (Z.pos m * 2 ^ 53) (Z.pos m)) as [q r].
  cbn [fst snd] in *. set (k := 2 ^ 53) in *. clearbody k.
  assert (Hm : 0 < Z.pos m) by lia. set (p := Z.pos m) in *. clearbody p.
  assert (Hq : k - q = 0).
  { assert (p * (k - q) = r) by lia.
    destruct (Z.lt_trichotomy (k - q) 0) as [?|[?|?]]; [nia | done | nia]. }
  assert (q = k) by lia. subst q. f_equal. lia.
Qed.

Lemma SFdiv_same s m e :
  SFdiv 53 1024 (S754_finite s m e) (S754_finite s m e)
  = S754_finite false 4503599627370496 (-52).
Proof.
  unfold SFdiv, SFdiv_core_binary.
  rewrite !Z.sub_diag.
  change (Z.min (fexp 53 1024 0) 0) with (-53).
  change (0 - -53) with 53.
  cbv beta iota zeta.
  change IntDef.Z.div_eucl with Z.div_eucl.
  rewrite div_eucl_same.
  replace (new_location (Z.pos m) 0) with loc_Exact
    by (unfold new_location, new_location_even, new_location_odd;
        by destruct (Z.even _)).
  rewrite xorb_nilpotent.
  vm_compute. reflexivity.
Qed.

(** The deviation of a value from itself is zero, or not a number when the
    value is zero. *)
Lemma deviation_same z :
  Aidl.deviation z z = zero \/ Aidl.deviation z z = S754_nan.
Proof.
  unfold Aidl.deviation, FP.div, FP.of_int, FP.sub, FP.abs.
  cbn [FP.prec FP.emax FP.binary64].
  destruct (binary_normalize 53 1024 z 0 false) as [s|s| |s m e] eqn:E.
  - right. reflexivity.
  - right. reflexivity.
  - right. reflexivity.
  - left. rewrite SFdiv_same. vm_compute. reflexivity.
Qed.

Lemma deviation_same_below z threshold :
  FP.geb zero threshold = false ->
  FP.geb (Aidl.deviation z z) threshold = false.
Proof.
  intros H. destruct (deviation_same z) as [-> | ->]; [done|].
  unfold FP.geb, SFleb, SFcompare. by destruct threshold.
Qed.

Section AidlMore.
Variable cfg : Config.

(** X1.  [AidlPowerHalWrapper::connect] returns no wrapper, after the single
  lookup of the service, when the service is not there.  Otherwise it
  makes the three capability probes in order, and the wrapper it returns
  supports hint sessions exactly when [getHintSessionPreferredRate]
  succeeded, passes the expensive-rendering toggle on to the HAL exactly
  when [isModeSupported] succeeded and answered yes, and the
  update-imminent boost exactly when [isBoostSupported] did; a toggle or a
  boost that is not passed on is reported as a success, without a call. *)
Theorem Aidl_connect_capabilities e :
  let n := length (log e) in
  let mode := hal e (S n) IsModeSupported in
  let boost := hal e (S (S n)) IsBoostSupported in
  let rate := hal e (S (S (S n))) GetHintSessionPreferredRate in
  let (r, e') := Aidl.connect cfg e in
  if out (hal e n WaitForVintfService) then
    calls_since e e' = [WaitForVintfService; IsModeSupported; IsBoostSupported;
                        GetHintSessionPreferredRate]
    /\ exists a,
         r = Some a
         /\ Aidl.supportsPowerHintSession a = isOk rate
         /\ (forall x e2,
               Aidl.setExpensiveRendering x a e2 =
               if isOk mode && out mode
               then (isOk (hal e2 (length (log e2)) (SetMode x)),
                     snd (remote (SetMode x) e2))
               else (true, e2))
         /\ (forall e2,
               Aidl.notifyDisplayUpdateImminent a e2 =
               if isOk boost && out boost
               then (isOk (hal e2 (length (log e2)) SetBoost),
                     snd (remote SetBoost e2))
               else (true, e2))
  else r = None /\ calls_since e e' = [WaitForVintfService].
Proof.
  cbv zeta. unfold Aidl.connect, Aidl.construct. cbn [remote].
  destruct (out (hal e (length (log e)) WaitForVintfService)); cbn [log hal].
  2: { split; [done|]. by apply calls_since_app. }
  rewrite !length_app. cbn [length].
  replace (length (log e) + 1 + 1 + 1)%nat with (S (S (S (length (log e))))) by lia.
  replace (length (log e) + 1 + 1)%nat with (S (S (length (log e)))) by lia.
  replace (length (log e) + 1)%nat with (S (length (log e))) by lia.
  split.
  { apply calls_since_app. cbn [log]. by rewrite <- !app_assoc. }
  eexists. split; [reflexivity|]. split; [reflexivity|].
  unfold Aidl.setExpensiveRendering, Aidl.notifyDisplayUpdateImminent.
  cbn [Aidl.fresh Aidl.mHasExpensiveRendering Aidl.mHasDisplayUpdateImminent].
  split.
  - intros x e2.
    destruct (isOk (hal e (S (length (log e))) IsModeSupported)); cbn [andb];
      [|done].
    by destruct (out _).
  - intros e2.
    destruct (isOk (hal e (S (S (length (log e)))) IsBoostSupported)); cbn [andb];
      [|done].
    by destruct (out _).
Qed.

(** X2.  [setPowerHintSessionThreadIds] always leaves the given thread ids
  stored and the target as it was.  With the ids that are already stored,
  or without an open session, it sends nothing (and with the stored ids it
  changes nothing at all).  With an open session and new ids it closes
  that session and then, unless the new list is empty, creates one with
  the new ids and the current target; the wrapper holds the session that
  the HAL returned, or none when the creation failed. *)
Theorem setPowerHintSessionThreadIds_restarts ids a e :
  let target := Aidl.mTargetDuration a in
  let (a', e') := Aidl.setPowerHintSessionThreadIds ids a e in
  let calls := calls_since e e' in
  Aidl.mPowerHintThreadIds a' = ids
  /\ Aidl.mTargetDuration a' = target
  /\ match Aidl.mPowerHintSession a with
     | None => calls = [] /\ Aidl.mPowerHintSession a' = None
     | Some s =>
         if bool_decide (ids = Aidl.mPowerHintThreadIds a) then
           calls = [] /\ a' = a
         else if bool_decide (ids = []) then
           calls = [SessionClose s] /\ Aidl.mPowerHintSession a' = None
         else
           let id := S (length (log e)) in
           let reply := hal e id (CreateHintSession ids target) in
           calls = [SessionClose s; CreateHintSession ids target]
           /\ Aidl.mPowerHintSession a' =
              (if isOk reply && out reply then Some id else None)
     end.
Proof.
  cbv zeta.
  unfold Aidl.setPowerHintSessionThreadIds, Aidl.restartPowerHintSession,
    Aidl.closePowerHintSession, Aidl.startPowerHintSession,
    Aidl.isPowerHintSessionRunning.
  destruct a as [x1 x2 x3 [s|] q tg ad old ls ts lt rc]; cbn.
  all: repeat (case_bool_decide; simplify_eq; cbn).
  all: rewrite ?length_app; cbn [length];
       replace (length (log e) + 1)%nat with (S (length (log e))) by lia.
  all: try (destruct (isOk _); cbn; [destruct (out _); cbn|]).
  all: repeat split; try done.
  all: try apply calls_since_refl.
  all: try (apply calls_since_app; cbn; by rewrite <- ?app_assoc).
Qed.

(** X3.  With debug.sf.normalize_hint_session_durations set,
  [setTargetWorkDuration] never pushes the target: it sends nothing and
  the last target sent stays as it was.  An actual duration reported
  afterwards is shifted by the difference of the two targets; when the
  shifted value is in the range of [int64_t], its distance to the last
  target sent is the distance of the measured duration to the current
  target. *)
Theorem normalized_target_is_kept d x t a e s :
  sNormalizeTarget cfg = true ->
  Aidl.mPowerHintSession a = Some s ->
  0 <= x ->
  Int64.min <= x + Aidl.mLastTargetDurationSent a - d <= Int64.max ->
  let (a1, e1) := Aidl.setTargetWorkDuration cfg d a e in
  let (a2, e2) := Aidl.sendActualWorkDuration cfg x t a1 e1 in
  calls_since e e1 = []
  /\ Aidl.mLastTargetDurationSent a1 = Aidl.mLastTargetDurationSent a
  /\ exists reportedNanos,
       Aidl.mActualDuration a2 = Some reportedNanos
       /\ reportedNanos - Aidl.mLastTargetDurationSent a = x - d.
Proof.
  intros Hn Hs Hx Hr.
  pose proof (setTargetWorkDuration_spec cfg d a e) as H1. cbv zeta in H1.
  destruct (Aidl.setTargetWorkDuration cfg d a e) as [a1 e1].
  rewrite Hs, Hn in H1. cbn [negb andb] in H1. destruct H1 as [H1 ->].
  assert (Hs1 : Aidl.mPowerHintSession (Aidl.set_mTargetDuration d a) = Some s)
    by (by destruct a).
  pose proof (sendActualWorkDuration_spec cfg x t _ e1 s Hs1 Hx) as H2.
  cbv zeta in H2.
  destruct (Aidl.shouldReportActualDurationsNow cfg _ e1) as [flush e1'].
  destruct (Aidl.sendActualWorkDuration cfg x t _ e1) as [a2 e2].
  split; [done|]. split; [by destruct a|].
  exists (Aidl.reportedDuration cfg x (Aidl.set_mTargetDuration d a)).
  split.
  - destruct flush; destruct H2 as [_ ->]; destruct a; cbn; [|done].
    by destruct (isOk _).
  - unfold Aidl.reportedDuration. rewrite Hn, Int64_add_sub.
    destruct a; cbn in *. rewrite Int64_wrap_in_range by done. lia.
Qed.

(** What one call does to the queue. *)
Lemma sendActualWorkDuration_queue d t a e s :
  Aidl.mPowerHintSession a = Some s ->
  let (a', e') := Aidl.sendActualWorkDuration cfg d t a e in
  Aidl.mPowerHintSession a' = Some s
  /\ Aidl.mLastTargetDurationSent a' = Aidl.mLastTargetDurationSent a
  /\ Aidl.mTargetDuration a' = Aidl.mTargetDuration a
  /\ exists calls,
       log e' = log e ++ calls
       /\ Forall (fun c => exists batch, c = ReportActualWorkDuration s batch) calls
       /\ reported calls ++ Aidl.mPowerHintQueue a'
          = Aidl.mPowerHintQueue a
            ++ (if 0 <=? d then [record_of cfg a (d, t)] else []).
Proof.
  intros Hs.
  unfold Aidl.sendActualWorkDuration, Aidl.isPowerHintSessionRunning.
  rewrite Hs. rewrite bool_decide_true by done. cbn [negb]. rewrite orb_false_r.
  destruct (Z.ltb_spec d 0) as [Hd|Hd].
  { replace (0 <=? d) with false by (symmetry; apply Z.leb_gt; lia).
    repeat split; try done. exists []. rewrite !app_nil_r. by repeat split. }
  replace (0 <=? d) with true by (symmetry; apply Z.leb_le; lia).
  unfold record_of. cbn [fst snd].
  set (r := Aidl.reportedDuration cfg d a).
  destruct a as [x1 x2 x3 ss q tg ad old ls ts lt rc]; cbn in Hs; subst ss.
  cbn -[Aidl.shouldReportActualDurationsNow remote systemTime].
  match goal with |- context [Aidl.shouldReportActualDurationsNow cfg ?q0 e] =>
    pose proof (shouldReportActualDurationsNow_env cfg q0 e) as He1;
    destruct (Aidl.shouldReportActualDurationsNow cfg q0 e) as [flush e1] end.
  cbv zeta in He1. cbn [snd] in He1. destruct He1 as (Hh & Hl & Hc).
  destruct flush; cbn.
  - destruct (isOk _); cbn; repeat split; try done.
    all: eexists; rewrite Hl; split; [reflexivity|];
         split; [repeat constructor; by eexists | cbn; by rewrite !app_nil_r].
  - repeat split; try done. exists []. rewrite Hl, !app_nil_r. by repeat split.
Qed.

Lemma reportedDuration_ext d a b :
  Aidl.mLastTargetDurationSent a = Aidl.mLastTargetDurationSent b ->
  Aidl.mTargetDuration a = Aidl.mTargetDuration b ->
  Aidl.reportedDuration cfg d a = Aidl.reportedDuration cfg d b.
Proof. unfold Aidl.reportedDuration. by intros -> ->. Qed.

Lemma sendActualWorkDurations_queue samples a0 s :
  forall a e,
    Aidl.mPowerHintSession a = Some s ->
    Aidl.mLastTargetDurationSent a = Aidl.mLastTargetDurationSent a0 ->
    Aidl.mTargetDuration a = Aidl.mTargetDuration a0 ->
    let (a', e') := sendActualWorkDurations cfg samples a e in
    exists calls,
      log e' = log e ++ calls
      /\ Forall (fun c => exists batch, c = ReportActualWorkDuration s batch) calls
      /\ reported calls ++ Aidl.mPowerHintQueue a'
         = Aidl.mPowerHintQueue a
           ++ map (record_of cfg a0)
                (List.filter (fun sample => 0 <=? fst sample) samples).
Proof.
  induction samples as [|[d t] samples IH]; intros a e Hs Hl Ht; cbn.
  - exists []. rewrite !app_nil_r. by repeat split.
  - pose proof (sendActualWorkDuration_queue d t a e s Hs) as H1.
    destruct (Aidl.sendActualWorkDuration cfg d t a e) as [a1 e1].
    destruct H1 as (Hs1 & Hl1 & Ht1 & c1 & L1 & F1 & Q1).
    specialize (IH a1 e1 Hs1 ltac:(congruence) ltac:(congruence)).
    destruct (sendActualWorkDurations cfg samples a1 e1) as [a2 e2].
    destruct IH as (c2 & L2 & F2 & Q2).
    exists (c1 ++ c2). split; [by rewrite L2, L1, app_assoc|].
    split; [by apply Forall_app|].
    unfold reported in *. rewrite flat_map_app, <- app_assoc, Q2, app_assoc, Q1.
    rewrite <- app_assoc. f_equal.
    destruct (0 <=? d); cbn; [|done].
    f_equal. unfold record_of. cbn. f_equal. by apply reportedDuration_ext.
Qed.

(** X4.  Over any sequence of [sendActualWorkDuration] calls on a wrapper
  with an open session, no record is lost, repeated or reordered on its
  way to the HAL: the batches handed to [reportActualWorkDuration], in
  order, followed by what is left in the queue, are the records queued at
  the start followed by one record for each sample with a non-negative
  duration, in the order of the calls.  Every call made is a report to the
  session of the wrapper; a sample with a negative duration leaves no
  record. *)
Theorem sendActualWorkDurations_conserve samples a e s :
  Aidl.mPowerHintSession a = Some s ->
  let (a', e') := sendActualWorkDurations cfg samples a e in
  let calls := calls_since e e' in
  reported calls ++ Aidl.mPowerHintQueue a'
  = Aidl.mPowerHintQueue a
    ++ map (record_of cfg a) (List.filter (fun sample => 0 <=? fst sample) samples)
  /\ Forall (fun c => exists batch, c = ReportActualWorkDuration s batch) calls.
Proof.
  intros Hs.
  pose proof (sendActualWorkDurations_queue samples a s a e Hs eq_refl eq_refl) as H.
  destruct (sendActualWorkDurations cfg samples a e) as [a' e'].
  destruct H as (calls & L & F & Q). cbv zeta.
  by rewrite (calls_since_app _ _ _ L).
Qed.
(** X5.  With thresholds above zero, a value that has not changed is not
  sent again: [setTargetWorkDuration] with the target that was last sent
  stores it and makes no call, and an actual duration equal to the last
  one sent does not trigger a report while the last report is not stale
  ([shouldReportActualDurationsNow] answers false). *)
Theorem unchanged_values_are_not_resent :
  FP.geb zero (kAllowedTargetDeviationPercent cfg) = false ->
  FP.geb zero (kAllowedActualDeviationPercent cfg) = false ->
  (forall a e,
     Aidl.setTargetWorkDuration cfg (Aidl.mLastTargetDurationSent a) a e
     = (Aidl.set_mTargetDuration (Aidl.mLastTargetDurationSent a) a, e))
  /\ (forall x a e,
        Aidl.mActualDuration a = Some x ->
        Aidl.mLastActualDurationSent a = Some x ->
        clock e (ticks e) - Aidl.mLastActualReportTimestamp a <= kStaleTimeout cfg ->
        fst (Aidl.shouldReportActualDurationsNow cfg a e) = false).
Proof.
  intros Ht Ha. split.
  - intros a e. unfold Aidl.setTargetWorkDuration, Aidl.shouldSetTargetDuration.
    replace (Aidl.mLastTargetDurationSent
               (Aidl.set_mTargetDuration (Aidl.mLastTargetDurationSent a) a))
      with (Aidl.mLastTargetDurationSent a) by (by destruct a).
    rewrite (deviation_same_below _ _ Ht).
    destruct (_ <=? 0); by rewrite !andb_false_r.
  - intros x a e Hx Hl Hs. unfold Aidl.shouldReportActualDurationsNow.
    rewrite Hl, Hx. cbn [systemTime].
    replace (kStaleTimeout cfg <? _) with false
      by (symmetry; apply Z.ltb_ge; lia).
    cbn [fst]. by apply deviation_same_below.
Qed.
End AidlMore.

Lemma normalized_target_is_kept_witness :
  let e := env_example hal_ok in
  let (a1, e1) :=
    Aidl.setTargetWorkDuration cfg_normalized 12000000 (aidl_running 10000000 10000000) e in
  let (a2, e2) := Aidl.sendActualWorkDuration cfg_normalized 9000000 7 a1 e1 in
  calls_since e e1 = []
  /\ Aidl.mLastTargetDurationSent a1
     = Aidl.mLastTargetDurationSent (aidl_running 10000000 10000000)
  /\ exists reportedNanos,
       Aidl.mActualDuration a2 = Some reportedNanos
       /\ reportedNanos - Aidl.mLastTargetDurationSent (aidl_running 10000000 10000000)
          = 9000000 - 12000000.
Proof.
  apply (normalized_target_is_kept cfg_normalized 12000000 9000000 7
           (aidl_running 10000000 10000000) (env_example hal_ok) 0%nat);
    [reflexivity | reflexivity | lia | vm_compute; split; discriminate].
Defined.

(** A sum that leaves the range is recorded reduced to it. *)
Example normalized_duration_wraps :
  Aidl.reportedDuration cfg_normalized Int64.max
    (aidl_running 10000000 9000000) = Int64.min + 999999.
Proof. vm_compute. reflexivity. Qed.

Lemma sendActualWorkDurations_conserve_witness :
  let e := env_example hal_failing_reports in
  let samples := [(9100000, 1); (-5, 2); (9180000, 3); (12000000, 4)] in
  let a := aidl_reported 50000000 50000000 in
  let (a', e') := sendActualWorkDurations cfg0 samples a e in
  let calls := calls_since e e' in
  reported calls ++ Aidl.mPowerHintQueue a'
  = Aidl.mPowerHintQueue a
    ++ map (record_of cfg0 a) (List.filter (fun sample => 0 <=? fst sample) samples)
  /\ Forall (fun c => exists batch, c = ReportActualWorkDuration 0%nat batch) calls.
Proof.
  apply (sendActualWorkDurations_conserve cfg0
           [(9100000, 1); (-5, 2); (9180000, 3); (12000000, 4)]
           (aidl_reported 50000000 50000000) (env_example hal_failing_reports) 0%nat).
  reflexivity.
Defined.

Lemma unchanged_values_are_not_resent_witness :
  let a := aidl_running 1000000 1150000 in
  let e := env_example hal_ok in
  Aidl.setTargetWorkDuration cfg0 (Aidl.mLastTargetDurationSent a) a e
  = (Aidl.set_mTargetDuration (Aidl.mLastTargetDurationSent a) a, e).
Proof.
  apply (proj1 (unchanged_values_are_not_resent cfg0 eq_refl eq_refl)).
Defined.

(** *** Connecting: order, first use, reconnection *)

(** Unfolds a connection down to the answers of the HAL. *)
Ltac connect_exec :=
  unfold connectPowerHal, usePowerHintSession_, supportsPowerHintSession_,
    lock_guard, call;
  unfold mbind, M_bind, gets, mret, M_ret, modify, in_env;
  unfold Aidl.connect, Aidl.construct, Hidl.connect.

Ltac norm_length :=
  rewrite ?length_app; cbn [length]; rewrite ?Nat.add_1_r.

Ltac case_reply c :=
  norm_length;
  match goal with
  | |- context [out (hal ?e ?n c)] =>
      let H := fresh "Hreply" in
      destruct (out (hal e n c)) eqn:H; simpl; norm_length; rewrite ?H; simpl;
      norm_length
  end.

Section Connect.
Variable cfg : Config.

(** [getPowerHal] in direct style; the nested call of [getPowerHal] that
    [usePowerHintSession] may make finds the wrapper just connected. *)
Lemma getPowerHal_eq w :
  getPowerHal cfg w =
  if negb (sHasHal w) then Done Null w
  else if negb (mReconnectPowerHal w)
          && from_option (fun h => negb (HalWrapper.shouldReconnectHAL h)) false
               (sHalWrapper w)
  then Done ToStatic w
  else
    connectPowerHal cfg (usePowerHintSession_ (mret ToStatic))
      (from_option HalWrapper.getPowerHintSessionThreadIds [] (sHalWrapper w))
      (from_option HalWrapper.getTargetWorkDuration None (sHalWrapper w))
      (torn_down w).
Proof.
  unfold getPowerHal. rewrite (getPowerHal_fuel_S cfg 1), getPowerHal_body_cases.
  destruct (sHasHal w) eqn:Hh; cbn [negb]; [|done].
  destruct (_ && _); [done|].
  destruct (torn_down_ready w Hh) as (T1 & T2 & T3 & _).
  by apply (connectPowerHal_nested cfg (getPowerHal_fuel cfg 1)
              (getPowerHal_connected cfg 0)).
Qed.

(** X6.  The order of connection.  Called without a wrapper, [getPowerHal]
  looks up the AIDL service first; when it is there, the wrapper is the
  AIDL one and the HIDL service is not contacted.  Otherwise it asks for
  the HIDL 1.0 service and casts it to 1.3: the wrapper is the HIDL one
  when both succeed, and when either fails [getPowerHal] returns null and
  gives up ([sHasHal] is cleared). *)
Theorem getPowerHal_connects_in_order w :
  sHasHal w = true ->
  sHalWrapper w = None ->
  let e := env w in
  let n := length (log e) in
  let r := getPowerHal cfg w in
  let w' := world_of r in
  let calls := calls_since e (env w') in
  if out (hal e n WaitForVintfService) then
    calls = [WaitForVintfService; IsModeSupported; IsBoostSupported;
             GetHintSessionPreferredRate]
    /\ r = Done ToStatic w'
    /\ exists a, sHalWrapper w' = Some (AidlWrapper a)
  else if out (hal e (S n) HidlGetService) then
    calls = [WaitForVintfService; HidlGetService; HidlCastFrom]
    /\ if out (hal e (S (S n)) HidlCastFrom)
       then r = Done ToStatic w' /\ sHalWrapper w' = Some HidlWrapper
       else r = Done Null w' /\ sHalWrapper w' = None /\ sHasHal w' = false
  else
    calls = [WaitForVintfService; HidlGetService]
    /\ r = Done Null w' /\ sHalWrapper w' = None /\ sHasHal w' = false.
Proof.
  intros Hh Hw. cbv zeta. rewrite getPowerHal_eq, Hh, Hw. cbn [negb from_option].
  rewrite andb_false_r.
  connect_exec.
  destruct w as [bf ed ne en sp run rc su lt tm mx hw hh e]; simpl in *; subst.
  case_reply WaitForVintfService;
    [| case_reply HidlGetService; [case_reply HidlCastFrom|] ].
  all: repeat split; try done; try (by eexists).
  all: apply calls_since_app; cbn; by rewrite <- !app_assoc.
Qed.
(** X7.  The first call of [supportsPowerHintSession], with nothing connected
  or cached yet: on an AIDL HAL it returns, and caches, whether
  [getHintSessionPreferredRate] succeeded; on a HIDL HAL it returns and
  caches false; with no HAL at all it calls a member through the null
  pointer that [getPowerHal] returns. *)
Theorem supportsPowerHintSession_first_use w :
  sHasHal w = true ->
  sHalWrapper w = None ->
  mSupportsPowerHint w = None ->
  mPowerHalMutex w = false ->
  let e := env w in
  let n := length (log e) in
  let r := supportsPowerHintSession cfg w in
  if out (hal e n WaitForVintfService) then
    let s := isOk (hal e (S (S (S n))) GetHintSessionPreferredRate) in
    exists w', r = Done s w' /\ mSupportsPowerHint w' = Some s
  else if out (hal e (S n) HidlGetService) && out (hal e (S (S n)) HidlCastFrom) then
    exists w', r = Done false w' /\ mSupportsPowerHint w' = Some false
  else
    exists w', r = Stuck NullDeref w' /\ sHasHal w' = false
               /\ mSupportsPowerHint w' = None.
Proof.
  intros Hh Hw Hc Hm. cbv zeta.
  unfold supportsPowerHintSession, supportsPowerHintSession_.
  unfold mbind, M_bind, gets, lock_guard. rewrite Hc, Hm.
  rewrite getPowerHal_eq.
  replace (sHasHal (set_mPowerHalMutex true w)) with true by (by destruct w).
  replace (sHalWrapper (set_mPowerHalMutex true w)) with (@None HalWrapper)
    by (by destruct w).
  cbn [negb from_option]. rewrite andb_false_r.
  connect_exec.
  destruct w as [bf ed ne en sp run rc su lt tm mx hw hh e]; simpl in *; subst.
  case_reply WaitForVintfService;
    [| case_reply HidlGetService; [case_reply HidlCastFrom|] ].
  all: eexists; repeat split.
Qed.
(** A reconnection from an AIDL wrapper, down to the answers of the HAL. *)
Ltac reconnect_exec w a Hw Hh Hre :=
  rewrite getPowerHal_eq, Hh, Hw; cbn [negb from_option];
  replace (negb (mReconnectPowerHal w)
           && negb (HalWrapper.shouldReconnectHAL (AidlWrapper a)))
    with false
    by (unfold HalWrapper.shouldReconnectHAL, Aidl.shouldReconnectHAL;
        let H := fresh in destruct Hre as [H|H]; rewrite H;
        by rewrite ?andb_false_r);
  connect_exec;
  destruct w as [bf ed ne en sp run rc su lt tm mx hw hh e];
  destruct a as [x1 x2 x3 ss q tg ad ids ls ts lts sr];
  simpl in *; subst.

Ltac case_create :=
  match goal with
  | |- context [isOk (hal ?e ?n (CreateHintSession ?i ?d))] =>
      destruct (isOk (hal e n (CreateHintSession i d))) eqn:?; simpl;
      [ destruct (out (hal e n (CreateHintSession i d))) eqn:?; simpl | ]
  end.

(** X8.  When [getPowerHal] replaces an AIDL wrapper that holds an open hint
  session, the first call it makes closes that session and the second
  looks up the AIDL service; no other session is closed, and the reconnect
  flag is cleared. *)
Theorem getPowerHal_reconnect_closes_session w a s :
  sHasHal w = true ->
  sHalWrapper w = Some (AidlWrapper a) ->
  Aidl.mPowerHintSession a = Some s ->
  mReconnectPowerHal w = true \/ Aidl.mShouldReconnectHal a = true ->
  let w' := world_of (getPowerHal cfg w) in
  exists rest,
    calls_since (env w) (env w') = SessionClose s :: WaitForVintfService :: rest
    /\ Forall (fun c => forall s', c <> SessionClose s') rest
    /\ mReconnectPowerHal w' = false.
Proof.
  intros Hh Hw Hs Hre. cbv zeta.
  reconnect_exec w a Hw Hh Hre.
  case_reply WaitForVintfService;
    [| case_reply HidlGetService; [case_reply HidlCastFrom|] ].
  all: rewrite ?fresh_setPowerHintSessionThreadIds; simpl.
  all: rewrite ?idle_setTargetWorkDuration by done; simpl.
  all: destruct en as [[|]|]; simpl.
  all: destruct sp as [[|]|]; simpl.
  all: destruct mx; simpl.
  all: try (destruct (isOk (hal e _ GetHintSessionPreferredRate)); simpl).
  all: destruct ids as [|i ids]; simpl.
  all: unfold Aidl.startPowerHintSession; simpl; try case_create.
  all: eexists; split; [apply calls_since_app; cbn; by rewrite <- !app_assoc|];
       split; [by repeat constructor | done].
Qed.
(** X9.  [getPowerHal] runs with [mPowerHalMutex] held by its caller.  When
  it replaces an AIDL wrapper by a new AIDL wrapper while the power hint
  is enabled and the answer of [supportsPowerHintSession] is not cached
  yet, its call of [usePowerHintSession] reaches the [std::lock_guard] of
  [supportsPowerHintSession]: the thread locks the mutex it holds. *)
Theorem getPowerHal_relocks w a :
  mPowerHalMutex w = true ->
  sHasHal w = true ->
  sHalWrapper w = Some (AidlWrapper a) ->
  mReconnectPowerHal w = true \/ Aidl.mShouldReconnectHal a = true ->
  mPowerHintEnabled w = Some true ->
  mSupportsPowerHint w = None ->
  let e := HalWrapper.destroy (AidlWrapper a) (env w) in
  out (hal e (length (log e)) WaitForVintfService) = true ->
  exists w', getPowerHal cfg w = Stuck Relock w'.
Proof.
  intros Hm Hh Hw Hre Hen Hsp. cbv zeta. intros Hout.
  reconnect_exec w a Hw Hh Hre.
  unfold Aidl.destroy in *. simpl in Hout.
  destruct ss as [s|]; simpl in *; unfold Aidl.destroy; simpl; rewrite Hout; simpl.
  all: rewrite fresh_setPowerHintSessionThreadIds; simpl.
  all: rewrite idle_setTargetWorkDuration by done; simpl.
  all: by eexists.
Qed.
End Connect.

(** *** The public operations on a connected wrapper *)

Section Operations.
Variable cfg : Config.

(** [getPowerHal] returns null only when it has given up. *)
Lemma connectPowerHal_gave_up use ids target w w' :
  connectPowerHal cfg use ids target w = Done Null w' -> sHasHal w' = false.
Proof.
  unfold connectPowerHal. unfold mbind, M_bind, gets, mret, M_ret, modify.
  destruct (in_env (Aidl.connect cfg) w) as [aidl w1|k w1]; [|done].
  match goal with
  | |- match ?X with Done _ _ => _ | Stuck _ _ => _ end = _ -> _ =>
      destruct X as [[] w2|k w2]; [|done]
  end.
  destruct (sHalWrapper w2); [done|].
  intros; simplify_eq. by destruct w2.
Qed.

Lemma getPowerHal_gave_up w w' :
  getPowerHal cfg w = Done Null w' -> sHasHal w' = false.
Proof.
  rewrite getPowerHal_eq.
  destruct (sHasHal w) eqn:Hh; cbn [negb]; [|intros; by simplify_eq].
  destruct (_ && _); [done|]. apply connectPowerHal_gave_up.
Qed.

(** X10.  Whenever [setExpensiveRenderingExpected] returns, the display is in
  the set or out of it as asked, and the value recorded as notified is the
  aggregate of the set, unless a reconnection has been asked for or the
  HAL has been given up. *)
Theorem setExpensiveRenderingExpected_syncs displayId expected w w' :
  setExpensiveRenderingExpected cfg displayId expected w = Done tt w' ->
  let displays :=
    if expected then {[displayId]} ∪ mExpensiveDisplays w
    else mExpensiveDisplays w ∖ {[displayId]} in
  mExpensiveDisplays w' = displays
  /\ (mNotifiedExpensiveRendering w' = negb (bool_decide (displays = ∅))
      \/ mReconnectPowerHal w' = true
      \/ sHasHal w' = false).
Proof.
  rewrite setExpensiveRenderingExpected_eq. cbv zeta.
  set (displays := if expected then _ else _).
  set (expects := negb (bool_decide (displays = ∅))).
  set (w0 := set_mExpensiveDisplays displays w).
  destruct (eqb_spec (mNotifiedExpensiveRendering w) expects) as [Heq|Hne].
  { intros; simplify_eq. split; [by destruct w|]. left. by destruct w. }
  destruct (mPowerHalMutex w); [done|].
  pose proof (getPowerHal_fuel_frame cfg 2 (set_mPowerHalMutex true w0)) as F.
  fold (getPowerHal cfg) in F.
  destruct F as (_ & Fd & _).
  assert (Ed : mExpensiveDisplays (set_mPowerHalMutex true w0) = displays)
    by (subst w0; by destruct w).
  rewrite Ed in Fd.
  destruct (getPowerHal cfg (set_mPowerHalMutex true w0)) as [[|] w1|k w1] eqn:G;
    cbn [world_of] in Fd; [| |done].
  - apply getPowerHal_gave_up in G.
    intros; simplify_eq. split; [by destruct w1|]. right; right. by destruct w1.
  - destruct (sHalWrapper w1) as [h|]; [|done].
    destruct (HalWrapper.setExpensiveRendering expects h (env w1)) as [[ok h'] e'].
    intros; simplify_eq. split; [by destruct ok, w1|].
    destruct ok; [left | right; left]; by destruct w1.
Qed.

(** X11.  [PowerAdvisor::startPowerHintSession] called again with the thread
  ids of the session that is open (power hint enabled, capability cached,
  wrapper connected) sends nothing, returns false and clears
  [mPowerHintSessionRunning]; the wrapper and its open session are left as
  they were. *)
Theorem startPowerHintSession_again_reports_false w a s :
  mPowerHalMutex w = false ->
  sHasHal w = true ->
  mReconnectPowerHal w = false ->
  sHalWrapper w = Some (AidlWrapper a) ->
  Aidl.mShouldReconnectHal a = false ->
  Aidl.mPowerHintSession a = Some s ->
  mPowerHintEnabled w = Some true ->
  mSupportsPowerHint w = Some true ->
  startPowerHintSession cfg (Aidl.mPowerHintThreadIds a) w
  = Done false (set_mPowerHintSessionRunning false w).
Proof.
  intros Hm Hh Hr Hw Hsr Hs Hen Hsp.
  unfold startPowerHintSession, usePowerHintSession, usePowerHintSession_,
    supportsPowerHintSession_.
  unfold mbind, M_bind, gets, mret, M_ret, lock_guard, modify.
  rewrite Hen. cbn [default from_option id]. rewrite Hsp, Hm.
  unfold getPowerHal at 1. rewrite getPowerHal_connected.
  2: { repeat split; [by destruct w | by destruct w |].
       exists (AidlWrapper a). split; [by destruct w | done]. }
  destruct w as [bf ed ne en sp run rc su lt tm mx hw hh e];
    cbn -[getPowerHal] in *; subst.
  cbn -[getPowerHal].
  unfold Aidl.setPowerHintSessionThreadIds.
  rewrite bool_decide_false by (intros H; by apply H).
  cbn -[getPowerHal].
  unfold Aidl.startPowerHintSession. rewrite Hs.
  rewrite bool_decide_true by done. reflexivity.
Qed.
(** One call that reaches an AIDL wrapper which takes the boost, when
    there is no timer. *)
Lemma notifyDisplayUpdateImminent_untimed w a :
  hasScreenUpdateTimer cfg = false ->
  mBootFinished w = true ->
  mSendUpdateImminent w = true ->
  mPowerHalMutex w = false ->
  sHasHal w = true ->
  mReconnectPowerHal w = false ->
  sHalWrapper w = Some (AidlWrapper a) ->
  Aidl.mShouldReconnectHal a = false ->
  Aidl.mHasDisplayUpdateImminent a = true ->
  notifyDisplayUpdateImminent cfg w =
  if isOk (hal (env w) (length (log (env w))) SetBoost)
  then Done tt (set_env (snd (remote SetBoost (env w))) w)
  else Done tt (set_mReconnectPowerHal true
                  (set_mSendUpdateImminent false
                     (set_env (snd (remote SetBoost (env w))) w))).
Proof.
  intros Ht Hb Ha Hm Hh Hr Hw Hs Hc.
  rewrite notifyDisplayUpdateImminent_eq. rewrite Hb, Ha, Hm. cbn [negb]. cbv zeta.
  unfold getPowerHal. rewrite getPowerHal_connected.
  2: { repeat split; [by destruct w | by destruct w |].
       exists (AidlWrapper a). split; [by destruct w | done]. }
  replace (sHalWrapper (set_mPowerHalMutex true (set_mSendUpdateImminent false w)))
    with (Some (AidlWrapper a)) by (by destruct w).
  replace (env (set_mPowerHalMutex true (set_mSendUpdateImminent false w)))
    with (env w) by (by destruct w).
  cbn [HalWrapper.notifyDisplayUpdateImminent].
  unfold Aidl.notifyDisplayUpdateImminent. rewrite Hc. cbn [negb remote].
  unfold record_update. rewrite Ht.
  destruct (isOk _); destruct w; simpl in *; by subst.
Qed.

(** X12.  Without the update-imminent timer (a timeout of zero or less)
  nothing is throttled: on a connected AIDL wrapper whose HAL takes the
  boost, n calls of [notifyDisplayUpdateImminent] after boot send n boosts
  and change nothing else. *)
Theorem notifyDisplayUpdateImminent_unthrottled n w a :
  hasScreenUpdateTimer cfg = false ->
  mBootFinished w = true ->
  mSendUpdateImminent w = true ->
  mPowerHalMutex w = false ->
  sHasHal w = true ->
  mReconnectPowerHal w = false ->
  sHalWrapper w = Some (AidlWrapper a) ->
  Aidl.mShouldReconnectHal a = false ->
  Aidl.mHasDisplayUpdateImminent a = true ->
  (forall k, isOk (hal (env w) k SetBoost) = true) ->
  run cfg (replicate n OpNotifyDisplayUpdateImminent) w =
  Done tt (set_env {| hal := hal (env w);
                      log := log (env w) ++ replicate n SetBoost;
                      clock := clock (env w);
                      ticks := ticks (env w) |} w).
Proof.
  intros Ht. revert w.
  induction n as [|n IH]; intros w Hb Ha Hm Hh Hr Hw Hs Hc Hok.
  - cbn. rewrite app_nil_r. unfold mret, M_ret. by destruct w as [? ? ? ? ? ? ? ? ? ? ? ? ? []].
  - cbn [replicate run run_op]. unfold mbind, M_bind.
    rewrite (notifyDisplayUpdateImminent_untimed w a) by done.
    rewrite Hok.
    rewrite IH; try (by destruct w).
    f_equal. destruct w; cbn. by rewrite <- app_assoc.
Qed.

(** X13.  Without the timer, a boost that the HAL refuses leaves
  [mSendUpdateImminent] down and asks for a reconnection; nothing raises
  the flag again, so every later call of [notifyDisplayUpdateImminent]
  returns without sending anything or changing the state. *)
Theorem notifyDisplayUpdateImminent_failed_boost_disarms w a :
  hasScreenUpdateTimer cfg = false ->
  mBootFinished w = true ->
  mSendUpdateImminent w = true ->
  mPowerHalMutex w = false ->
  sHasHal w = true ->
  mReconnectPowerHal w = false ->
  sHalWrapper w = Some (AidlWrapper a) ->
  Aidl.mShouldReconnectHal a = false ->
  Aidl.mHasDisplayUpdateImminent a = true ->
  isOk (hal (env w) (length (log (env w))) SetBoost) = false ->
  exists w1,
    notifyDisplayUpdateImminent cfg w = Done tt w1
    /\ calls_since (env w) (env w1) = [SetBoost]
    /\ mSendUpdateImminent w1 = false
    /\ mReconnectPowerHal w1 = true
    /\ forall n, run cfg (replicate n OpNotifyDisplayUpdateImminent) w1 = Done tt w1.
Proof.
  intros Ht Hb Ha Hm Hh Hr Hw Hs Hc Hok.
  rewrite (notifyDisplayUpdateImminent_untimed w a) by done. rewrite Hok.
  eexists. split; [reflexivity|].
  split; [apply calls_since_app; by destruct w|].
  split; [by destruct w|]. split; [by destruct w|].
  induction n as [|n IH]; [done|].
  cbn [replicate run run_op]. unfold mbind, M_bind.
  rewrite notifyDisplayUpdateImminent_eq.
  replace (mBootFinished _) with true by (by destruct w).
  replace (mSendUpdateImminent _) with false by (by destruct w).
  cbn [negb]. cbv zeta. unfold record_update. rewrite Ht.
  match goal with
  | |- run _ _ ?x = Done _ ?y => replace x with y by (by destruct w)
  end.
  exact IH.
Qed.
End Operations.

(** *** Invariants of the executions *)

Section WP.
Context {A B : Type}.

Lemma wp_ret (a : A) Q S w : Q a w -> wp (mret a) Q S w.
Proof. done. Qed.

Lemma wp_bind (m : M A) (f : A -> M B) Q S w :
  wp m (fun a => wp (f a) Q S) S w -> wp (m ≫= f) Q S w.
Proof. unfold wp, mbind, M_bind. by destruct (m w). Qed.

Lemma wp_gets (f : World -> A) Q S w : Q (f w) w -> wp (gets f) Q S w.
Proof. done. Qed.

Lemma wp_fault k (Q : A -> World -> Prop) (S : World -> Prop) w :
  S w -> wp (fault k) Q S w.
Proof. done. Qed.

Lemma wp_in_env (f : Env -> A * Env) Q S w :
  Q (fst (f (env w))) (set_env (snd (f (env w))) w) -> wp (in_env f) Q S w.
Proof. unfold wp, in_env. by destruct (f (env w)). Qed.

Lemma wp_lock_guard (m : M A) Q S w :
  (if mPowerHalMutex w then S w
   else wp m (fun a w' => Q a (set_mPowerHalMutex false w')) S
          (set_mPowerHalMutex true w)) ->
  wp (lock_guard m) Q S w.
Proof.
  unfold wp, lock_guard. destruct (mPowerHalMutex w); [done|].
  by destruct (m _).
Qed.

Lemma wp_call p (m : HalWrapper -> Env -> A * HalWrapper * Env) Q S w :
  match p, sHalWrapper w with
  | ToStatic, Some h =>
      Q (fst (fst (m h (env w))))
        (set_sHalWrapper (Some (snd (fst (m h (env w)))))
           (set_env (snd (m h (env w))) w))
  | _, _ => S w
  end ->
  wp (call p m) Q S w.
Proof.
  unfold wp, call. destruct p; [done|].
  destruct (sHalWrapper w) as [h|]; [|done].
  by destruct (m h (env w)) as [[a h'] e'].
Qed.

Lemma wp_use (m : M A) (Q0 Q : A -> World -> Prop) (S0 S : World -> Prop) w :
  wp m Q0 S0 w ->
  (forall a w', Q0 a w' -> Q a w') ->
  (forall w', S0 w' -> S w') ->
  wp m Q S w.
Proof. unfold wp. intros H HQ HS. destruct (m w); auto. Qed.
End WP.

Lemma wp_modify (f : World -> World) Q S w : Q tt (f w) -> wp (modify f) Q S w.
Proof. done. Qed.

Lemma wp_done {A} (m : M A) Q S w a w' : wp m Q S w -> m w = Done a w' -> Q a w'.
Proof. unfold wp. intros H E. by rewrite E in H. Qed.

(** One step of symbolic execution. *)
Ltac wp_step :=
  lazymatch goal with
  | |- wp (mbind _ _) _ _ _ => apply wp_bind
  | |- wp (mret _) _ _ _ => apply wp_ret
  | |- wp (gets _) _ _ _ => apply wp_gets
  | |- wp (modify _) _ _ _ => apply wp_modify
  | |- wp (in_env _) _ _ _ => apply wp_in_env
  | |- wp (fault _) _ _ _ => apply wp_fault
  | |- wp (lock_guard _) _ _ _ => apply wp_lock_guard
  | |- wp (call _ _) _ _ _ => apply wp_call
  end; cbv beta.

(** An invariant of [run_op] is one of [run]. *)
Lemma run_wp cfg (I S : World -> Prop) :
  (forall o w, I w -> wp (run_op cfg o) (fun _ => I) S w) ->
  forall ops w, I w -> wp (run cfg ops) (fun _ => I) S w.
Proof.
  intros Hop. induction ops as [|o ops IH]; intros w Hw; cbn [run].
  - by apply wp_ret.
  - apply wp_bind. eapply wp_use; [by apply Hop | | done].
    intros [] w1 H1. by apply IH.
Qed.

(** **** The cached capability *)

Section Cached.
Variable cfg : Config.
Variable b : bool.

Lemma getPowerHal_cached w :
  cached b w -> wp (getPowerHal cfg) (fun _ => cached b) (cached b) w.
Proof.
  intros H. pose proof (getPowerHal_fuel_frame cfg 2 w) as F.
  fold (getPowerHal cfg) in F.
  destruct F as (_&_&_&_&_&_&_&F&_). specialize (F b H).
  unfold wp. by destruct (getPowerHal cfg w).
Qed.

(** Moves the invariant to the state the execution has reached. *)
Ltac cached_here :=
  lazymatch goal with
  | H : cached _ ?w |- wp _ _ _ ?w => idtac
  | H : cached ?c ?w0 |- wp _ _ _ ?w1 =>
      let H' := fresh "HI" in
      assert (H' : cached c w1)
        by (clear -H; unfold cached in *; destruct w0; exact H);
      clear H; generalize dependent w1; intros ? ?
  | H : cached ?c ?w0 |- cached ?c ?w1 =>
      unfold cached in *; destruct w0; exact H
  end.

Ltac cached_step :=
  first
    [ done
    | lazymatch goal with
      | |- if ?c then _ else _ => destruct c
      | |- match ?c with _ => _ end => destruct c
      end
    | cached_here;
      first
        [ lazymatch goal with
          | |- wp (getPowerHal _) _ _ _ =>
              eapply wp_use; [by apply getPowerHal_cached | cbv beta; intros ? ? ? | by intros]
          end
        | wp_step
        | lazymatch goal with
          | H : cached _ ?w |- wp (match mSupportsPowerHint ?w with _ => _ end) _ _ _ =>
              rewrite H
          | |- wp (if ?c then _ else _) _ _ _ => destruct c
          | |- wp (match ?c with _ => _ end) _ _ _ => destruct c
          end ] ].

Lemma run_op_cached o w :
  cached b w -> wp (run_op cfg o) (fun _ => cached b) (cached b) w.
Proof.
  intros H.
  destruct o; cbn [run_op];
    unfold init, onBootFinished, setExpensiveRenderingExpected,
      notifyDisplayUpdateImminent, usePowerHintSession, supportsPowerHintSession,
      isPowerHintSessionRunning, setTargetWorkDuration, sendActualWorkDuration,
      enablePowerHint, startPowerHintSession, resetCallback, timeoutCallback_step,
      usePowerHintSession, usePowerHintSession_, supportsPowerHintSession_.
  all: repeat cached_step.
Qed.

(** X14.  The capability is asked once: after [mSupportsPowerHint] has been
  set, no sequence of operations changes it, and
  [supportsPowerHintSession] returns the cached answer without touching
  the state, whichever wrapper is connected by then. *)
Theorem supportsPowerHintSession_answers_from_cache ops w :
  mSupportsPowerHint w = Some b ->
  let w' := world_of (run cfg ops w) in
  supportsPowerHintSession cfg w' = Done b w'.
Proof.
  intros H. cbv zeta.
  pose proof (run_wp cfg (cached b) (cached b) run_op_cached ops w H) as R.
  unfold wp in R.
  assert (C : cached b (world_of (run cfg ops w)))
    by (by destruct (run cfg ops w)).
  unfold supportsPowerHintSession, supportsPowerHintSession_.
  unfold mbind, M_bind, gets. by rewrite C.
Qed.
End Cached.

(** **** The running flag *)

#[local] Instance keeps_running_has_session_preorder :
  PreOrder keeps_running_has_session.
Proof. split; [by intros w H | intros w1 w2 w3 H12 H23 H1; auto]. Qed.

Section Running.
Variable cfg : Config.



Ltac running_setter :=
  intros w H; unfold running_has_session, session_of in *; destruct w; exact H.

Lemma running_mutex v w : keeps_running_has_session w (set_mPowerHalMutex v w).
Proof. revert w. running_setter. Qed.

Lemma in_env_running {A} (f : Env -> A * Env) : preserves keeps_running_has_session (in_env f).
Proof.
  intros w H. unfold in_env. destruct (f (env w)) as [a e]. cbn.
  unfold running_has_session, session_of in *. by destruct w.
Qed.

Lemma call_running {A} p (m : HalWrapper -> Env -> A * HalWrapper * Env) :
  (forall h e, wrapper_session (snd (fst (m h e))) = wrapper_session h) ->
  preserves keeps_running_has_session (call p m).
Proof.
  intros Hm w H. unfold call. destruct p; [done|].
  destruct (sHalWrapper w) as [h|] eqn:E; [|done].
  specialize (Hm h (env w)). destruct (m h (env w)) as [[a h'] e']. cbn in *.
  unfold running_has_session, session_of in *.
  destruct w; cbn in *; subst. by rewrite Hm.
Qed.

Lemma setExpensiveRendering_session x h e :
  wrapper_session (snd (fst (HalWrapper.setExpensiveRendering x h e)))
  = wrapper_session h.
Proof.
  destruct h as [|a]; cbn.
  - by destruct (Hidl.setExpensiveRendering x e).
  - by destruct (Aidl.setExpensiveRendering x a e).
Qed.

Lemma notifyDisplayUpdateImminent_session h e :
  wrapper_session (snd (fst (HalWrapper.notifyDisplayUpdateImminent h e)))
  = wrapper_session h.
Proof.
  destruct h as [|a]; cbn; [done|].
  by destruct (Aidl.notifyDisplayUpdateImminent a e).
Qed.

Lemma supportsPowerHintSession_session h e :
  wrapper_session (snd (fst (HalWrapper.supportsPowerHintSession h e)))
  = wrapper_session h.
Proof. by destruct h. Qed.

Lemma setTargetWorkDuration_session d h e :
  wrapper_session (snd (fst (HalWrapper.setTargetWorkDuration cfg d h e)))
  = wrapper_session h.
Proof.
  destruct h as [|a]; cbn; [done|].
  pose proof (setTargetWorkDuration_spec cfg d a e) as H. cbv zeta in H.
  destruct (Aidl.setTargetWorkDuration cfg d a e) as [a' e']. cbn.
  destruct (Aidl.mPowerHintSession a) eqn:Hs;
    [destruct (negb _ && _)|]; destruct H as [_ ->]; destruct a; cbn in *; try done.
  by destruct (isOk _).
Qed.

Lemma sendActualWorkDuration_session x t h e :
  wrapper_session (snd (fst (HalWrapper.sendActualWorkDuration cfg x t h e)))
  = wrapper_session h.
Proof.
  destruct h as [|a]; cbn; [done|].
  unfold Aidl.sendActualWorkDuration.
  destruct (_ || _); [done|].
  destruct (Aidl.shouldReportActualDurationsNow _ _ _) as [[|] e1]; cbn.
  - destruct a as [? ? ? [s|] ? ? ? ? ? ? ? ?]; cbn; [|done].
    by destruct (isOk _).
  - by destruct a.
Qed.

(** A started session is an open one. *)
Lemma startPowerHintSession_session h e :
  fst (fst (HalWrapper.startPowerHintSession h e)) = true ->
  wrapper_session (snd (fst (HalWrapper.startPowerHintSession h e))) <> None.
Proof.
  destruct h as [|a]; cbn; [done|].
  unfold Aidl.startPowerHintSession, Aidl.isPowerHintSessionRunning.
  destruct (_ || _); cbn; [done|].
  intros H. by apply bool_decide_eq_true in H.
Qed.

Lemma getPowerHal_running : preserves keeps_running_has_session (getPowerHal cfg).
Proof.
  intros w H. rewrite getPowerHal_eq.
  destruct (sHasHal w) eqn:Hh; cbn [negb]; [|done].
  destruct (_ && _); [done|].
  clear H. unfold running_has_session, session_of.
  connect_exec.
  destruct w as [bf ed ne en sp run rc su lt tm mx hw hh e]; simpl in *; subst.
  destruct hw as [[|[x1 x2 x3 ss q tg ad ids ls ts lts sr]]|]; simpl;
    unfold Aidl.destroy; simpl; try destruct ss as [s|]; simpl.
  all: case_reply WaitForVintfService;
    [| case_reply HidlGetService; [case_reply HidlCastFrom|] ]; try done.
  all: rewrite ?fresh_setPowerHintSessionThreadIds; simpl; try done.
  all: rewrite idle_setTargetWorkDuration by done; simpl.
  all: destruct en as [[|]|]; simpl; try done.
  all: destruct sp as [[|]|]; simpl; try done.
  all: try (destruct mx; simpl; try done;
            destruct (isOk (hal _ _ GetHintSessionPreferredRate)); simpl; try done).
  all: destruct ids as [|i ids]; simpl; try done.
  all: unfold Aidl.startPowerHintSession; simpl.
  all: destruct (isOk (hal _ _ (CreateHintSession _ _))); simpl; try done.
  all: destruct (out (hal _ _ (CreateHintSession _ _))); simpl; done.
Qed.
Lemma start_sequence_running ids :
  preserves keeps_running_has_session
    (call ToStatic (HalWrapper.setPowerHintSessionThreadIds ids);;
     r ← call ToStatic HalWrapper.startPowerHintSession;
     modify (set_mPowerHintSessionRunning r)).
Proof.
  intros w H. unfold mbind, M_bind, call, modify.
  destruct (sHalWrapper w) as [h|] eqn:Hw; [|done].
  destruct (HalWrapper.setPowerHintSessionThreadIds ids h (env w)) as [[[] h1] e1].
  replace (sHalWrapper (set_sHalWrapper (Some h1) (set_env e1 w))) with (Some h1)
    by (by destruct w).
  replace (env (set_sHalWrapper (Some h1) (set_env e1 w))) with e1
    by (by destruct w).
  pose proof (startPowerHintSession_session h1 e1) as Hs.
  destruct (HalWrapper.startPowerHintSession h1 e1) as [[r h2] e2].
  cbn in *. unfold running_has_session, session_of.
  destruct w; cbn. exact Hs.
Qed.

Ltac running_auto :=
  repeat first
    [ apply start_sequence_running
    | match goal with
      | |- preserves _ (_ ≫= _) =>
          apply (preserves_bind keeps_running_has_session); [| intros ? ]
      end
    | apply (preserves_lock_guard keeps_running_has_session);
        [ intros; apply running_mutex |]
    | match goal with
      | |- preserves _ (match ?x with _ => _ end) => destruct x
      end
    | apply (preserves_ret keeps_running_has_session)
    | apply (preserves_gets keeps_running_has_session)
    | apply getPowerHal_running
    | apply in_env_running
    | apply call_running;
        first [ apply setExpensiveRendering_session
              | apply notifyDisplayUpdateImminent_session
              | apply setTargetWorkDuration_session
              | apply sendActualWorkDuration_session
              | apply supportsPowerHintSession_session ]
    | match goal with
      | |- preserves _ (modify _) =>
          apply (preserves_modify keeps_running_has_session); running_setter
      end ].

Lemma run_op_running o : preserves keeps_running_has_session (run_op cfg o).
Proof.
  destruct o; cbn [run_op];
    unfold init, onBootFinished, setExpensiveRenderingExpected,
      notifyDisplayUpdateImminent, usePowerHintSession, supportsPowerHintSession,
      isPowerHintSessionRunning, setTargetWorkDuration, sendActualWorkDuration,
      enablePowerHint, startPowerHintSession, resetCallback, timeoutCallback_step,
      usePowerHintSession, usePowerHintSession_, supportsPowerHintSession_.
  all: running_auto.
Qed.

Lemma run_running ops : preserves keeps_running_has_session (run cfg ops).
Proof.
  induction ops as [|o ops IH]; cbn [run].
  - apply (preserves_ret keeps_running_has_session).
  - apply (preserves_bind keeps_running_has_session);
      [apply run_op_running | by intros _].
Qed.

(** X15.  In every reachable state [mPowerHintSessionRunning], the answer of
  [isPowerHintSessionRunning], is set only while the current wrapper is an
  AIDL wrapper that holds an open hint session. *)
Theorem isPowerHintSessionRunning_has_session w :
  reachable cfg w ->
  mPowerHintSessionRunning w = true ->
  exists a s,
    sHalWrapper w = Some (AidlWrapper a) /\ Aidl.mPowerHintSession a = Some s.
Proof.
  intros (hal & clock & ops & Hrun) Hr.
  pose proof (run_running ops (initial hal clock)) as H.
  rewrite Hrun in H. cbn [world_of] in H.
  specialize (H ltac:(by intros ?) Hr). unfold session_of in H.
  destruct (sHalWrapper w) as [[|a]|]; cbn in H; try done.
  destruct (Aidl.mPowerHintSession a) as [s|] eqn:Hs; [|done].
  by exists a, s.
Qed.
End Running.

(** **** One connection on a healthy HAL *)

Section Healthy.
Variable cfg : Config.

Ltac steady_leaf :=
  cbn; repeat split; try done;
  first [ exists []; by rewrite ?app_nil_r
        | eexists; split; [by rewrite <- ?app_assoc | done] ].

Lemma setExpensiveRendering_steady x :
  steady (HalWrapper.setExpensiveRendering x) (fun r => r = true).
Proof.
  intros [|a] e He Hs; cbn.
  - rewrite He. steady_leaf.
  - unfold Aidl.setExpensiveRendering.
    destruct (Aidl.mHasExpensiveRendering a); cbn; rewrite ?He; steady_leaf.
Qed.

Lemma notifyDisplayUpdateImminent_steady :
  steady HalWrapper.notifyDisplayUpdateImminent (fun r => r = true).
Proof.
  intros [|a] e He Hs; cbn.
  - steady_leaf.
  - unfold Aidl.notifyDisplayUpdateImminent.
    destruct (Aidl.mHasDisplayUpdateImminent a); cbn; rewrite ?He; steady_leaf.
Qed.

Lemma supportsPowerHintSession_steady :
  steady HalWrapper.supportsPowerHintSession (fun _ => True).
Proof. intros [|a] e He Hs; steady_leaf. Qed.

Lemma setTargetWorkDuration_steady d :
  steady (HalWrapper.setTargetWorkDuration cfg d) (fun _ => True).
Proof.
  intros [|a] e He Hs; [steady_leaf|]. cbn in Hs. cbn.
  unfold Aidl.setTargetWorkDuration.
  destruct (_ && _); [|destruct a; steady_leaf].
  destruct a as [? ? ? [s|] ? ? ? ? ? ? ? ?]; cbn in *; [|steady_leaf].
  rewrite He. steady_leaf.
Qed.

Lemma sendActualWorkDuration_steady x t :
  steady (HalWrapper.sendActualWorkDuration cfg x t) (fun _ => True).
Proof.
  intros [|a] e He Hs; [steady_leaf|]. cbn in Hs. cbn.
  unfold Aidl.sendActualWorkDuration.
  destruct (_ || _); [steady_leaf|].
  match goal with |- context [Aidl.shouldReportActualDurationsNow cfg ?q e] =>
    pose proof (shouldReportActualDurationsNow_env cfg q e) as He1;
    destruct (Aidl.shouldReportActualDurationsNow cfg q e) as [flush e1] end.
  cbv zeta in He1. cbn [snd] in He1. destruct He1 as (Hh & Hl & Hc).
  destruct flush; [|destruct a; cbn in *; rewrite Hl; steady_leaf].
  destruct a as [? ? ? [s|] ? ? ? ? ? ? ? ?]; cbn in *; rewrite ?Hh, ?Hl.
  - rewrite He. steady_leaf.
  - steady_leaf.
Qed.

Lemma setPowerHintSessionThreadIds_steady ids :
  steady (HalWrapper.setPowerHintSessionThreadIds ids) (fun _ => True).
Proof.
  intros [|a] e He Hs; [steady_leaf|]. cbn in Hs. cbn.
  unfold Aidl.setPowerHintSessionThreadIds, Aidl.restartPowerHintSession,
    Aidl.closePowerHintSession, Aidl.startPowerHintSession,
    Aidl.isPowerHintSessionRunning.
  destruct a as [? ? ? [s|] ? ? ? ? ? ? ? ?]; cbn in *.
  all: repeat (case_bool_decide; simplify_eq; cbn).
  all: rewrite ?He; cbn.
  all: try (destruct (out _); cbn).
  all: steady_leaf.
Qed.

Lemma startPowerHintSession_steady :
  steady HalWrapper.startPowerHintSession (fun _ => True).
Proof.
  intros [|a] e He Hs; [steady_leaf|]. cbn in Hs. cbn.
  unfold Aidl.startPowerHintSession, Aidl.isPowerHintSessionRunning.
  destruct a as [? ? ? [s|] ? ? ? ? ? ? ? ?]; cbn in *.
  all: repeat (case_bool_decide; simplify_eq; cbn).
  all: rewrite ?He; cbn.
  all: try (destruct (out _); cbn).
  all: steady_leaf.
Qed.
Lemma call_connects_once {A} p (m : HalWrapper -> Env -> A * HalWrapper * Env)
    (P : A -> Prop) Q w :
  connects_once w ->
  steady m P ->
  (forall r w', P r -> connects_once w' -> Q r w') ->
  wp (call p m) Q (fun _ => True) w.
Proof.
  intros (Hh & Hr & Ha & Hw) Hm HQ. apply wp_call.
  destruct p; [done|].
  destruct (sHalWrapper w) as [h|] eqn:E; [|done].
  destruct Hw as [Hs Hhas].
  destruct (Hm h (env w) Hh Hs) as (HP & Hs' & Hhal & d & Hd & Hf).
  apply HQ; [done|].
  unfold connects_once, healthy, attempts in *.
  destruct w; cbn in *. rewrite Hhal, Hd, filter_app, Hf, app_nil_r.
  by repeat split.
Qed.

Lemma getPowerHal_connects_once w :
  connects_once w ->
  wp (getPowerHal cfg) (fun _ => connects_once) (fun _ => True) w.
Proof.
  intros HI. pose proof HI as (Hh & Hr & Ha & Hw).
  unfold wp. rewrite getPowerHal_eq.
  destruct (sHasHal w) eqn:Hhas; cbn [negb]; [|exact HI].
  rewrite Hr. cbn [negb andb].
  destruct (sHalWrapper w) as [h|] eqn:E; cbn [from_option].
  { destruct Hw as [-> _]. cbn [negb]. exact HI. }
  clear HI.
  specialize (Hw eq_refl).
  connect_exec. unfold connects_once, healthy, attempts in *.
  destruct w as [bf ed ne en sp run rc su lt tm mx hw hh e]; simpl in *; subst.
  case_reply WaitForVintfService;
    [| case_reply HidlGetService; [case_reply HidlCastFrom|] ].
  all: rewrite <- ?app_assoc, ?filter_app; cbn.
  all: rewrite ?length_app; cbn; rewrite ?Hw; cbn.
  all: repeat split; done.
Qed.

Ltac once_here :=
  lazymatch goal with
  | H : connects_once ?w |- wp _ _ _ ?w => idtac
  | H : connects_once ?w0 |- wp _ _ _ ?w1 =>
      let H' := fresh "HI" in
      assert (H' : connects_once w1)
        by (clear -H; unfold connects_once, healthy, attempts in *;
            destruct w0 as [? ? ? ? ? ? ? ? ? ? ? ? ? []]; exact H);
      clear H; generalize dependent w1; intros ? ?
  | H : connects_once ?w0 |- connects_once ?w1 =>
      unfold connects_once, healthy, attempts in *;
      destruct w0 as [? ? ? ? ? ? ? ? ? ? ? ? ? []]; exact H
  end.

Ltac once_step :=
  first
    [ done
    | lazymatch goal with
      | |- if ?c then _ else _ => destruct c
      | |- match ?c with _ => _ end => destruct c
      end
    | once_here;
      first
        [ lazymatch goal with
          | |- wp (getPowerHal _) _ _ _ =>
              eapply wp_use;
                [by apply getPowerHal_connects_once | cbv beta; intros ? ? ? | by intros]
          | |- wp (call _ _) _ _ _ =>
              eapply call_connects_once;
                [ eassumption
                | first [ apply setExpensiveRendering_steady
                        | apply notifyDisplayUpdateImminent_steady
                        | apply supportsPowerHintSession_steady
                        | apply setTargetWorkDuration_steady
                        | apply sendActualWorkDuration_steady
                        | apply setPowerHintSessionThreadIds_steady
                        | apply startPowerHintSession_steady ]
                | cbv beta; intros ? ? ? ?; subst; cbn [negb] ]
          end
        | wp_step
        | lazymatch goal with
          | |- wp (if ?c then _ else _) _ _ _ => destruct c
          | |- wp (match ?c with _ => _ end) _ _ _ => destruct c
          end ] ].

Lemma run_op_connects_once o w :
  connects_once w -> wp (run_op cfg o) (fun _ => connects_once) (fun _ => True) w.
Proof.
  intros H.
  destruct o; cbn [run_op];
    unfold init, onBootFinished, setExpensiveRenderingExpected,
      notifyDisplayUpdateImminent, usePowerHintSession, supportsPowerHintSession,
      isPowerHintSessionRunning, setTargetWorkDuration, sendActualWorkDuration,
      enablePowerHint, startPowerHintSession, resetCallback, timeoutCallback_step,
      usePowerHintSession, usePowerHintSession_, supportsPowerHintSession_.
  all: repeat once_step.
Qed.

(** X16.  On a Power HAL none of whose calls fails the process connects at
  most once: an execution from the initial state looks up the AIDL service
  at most one time, whatever operations it runs. *)
Theorem healthy_hal_connects_once hal clock ops w :
  (forall n c, isOk (hal n c) = true) ->
  run cfg ops (initial hal clock) = Done tt w ->
  (length (filter is_attempt (log (env w))) <= 1)%nat.
Proof.
  intros Hh Hrun.
  assert (I0 : connects_once (initial hal clock)).
  { unfold connects_once, healthy, attempts. cbn. repeat split; [done | lia]. }
  pose proof (run_wp cfg connects_once (fun _ => True) run_op_connects_once
                ops _ I0) as R.
  unfold wp in R. rewrite Hrun in R. by destruct R as (_ & _ & R & _).
Qed.
End Healthy.

(** **** No hint session while the power hint is not enabled *)

Section PolicyOff.
Variable cfg : Config.
Variable e0 : Env.

Ltac nothing_leaf :=
  cbn;
  first [ exists []; by rewrite ?app_nil_r
        | eexists; split; [by rewrite <- ?app_assoc | done] ].

Lemma setExpensiveRendering_creates_nothing x :
  creates_nothing (HalWrapper.setExpensiveRendering x).
Proof.
  intros [|a] e; cbn; [nothing_leaf|].
  unfold Aidl.setExpensiveRendering.
  destruct (Aidl.mHasExpensiveRendering a); nothing_leaf.
Qed.

Lemma notifyDisplayUpdateImminent_creates_nothing :
  creates_nothing HalWrapper.notifyDisplayUpdateImminent.
Proof.
  intros [|a] e; cbn; [nothing_leaf|].
  unfold Aidl.notifyDisplayUpdateImminent.
  destruct (Aidl.mHasDisplayUpdateImminent a); nothing_leaf.
Qed.

Lemma supportsPowerHintSession_creates_nothing :
  creates_nothing HalWrapper.supportsPowerHintSession.
Proof. intros [|a] e; nothing_leaf. Qed.

Lemma setTargetWorkDuration_creates_nothing d :
  creates_nothing (HalWrapper.setTargetWorkDuration cfg d).
Proof.
  intros [|a] e; [nothing_leaf|]. cbn.
  unfold Aidl.setTargetWorkDuration.
  destruct (_ && _); [|nothing_leaf].
  destruct a as [? ? ? [s|] ? ? ? ? ? ? ? ?]; cbn; [|nothing_leaf].
  destruct (isOk _); nothing_leaf.
Qed.

Lemma sendActualWorkDuration_creates_nothing x t :
  creates_nothing (HalWrapper.sendActualWorkDuration cfg x t).
Proof.
  intros [|a] e; [nothing_leaf|]. cbn.
  unfold Aidl.sendActualWorkDuration.
  destruct (_ || _); [nothing_leaf|].
  match goal with |- context [Aidl.shouldReportActualDurationsNow cfg ?q e] =>
    pose proof (shouldReportActualDurationsNow_env cfg q e) as He1;
    destruct (Aidl.shouldReportActualDurationsNow cfg q e) as [flush e1] end.
  cbv zeta in He1. cbn [snd] in He1. destruct He1 as (Hh & Hl & Hc).
  destruct flush; [|cbn; rewrite Hl; nothing_leaf].
  destruct a as [? ? ? [s|] ? ? ? ? ? ? ? ?]; cbn; rewrite ?Hl; nothing_leaf.
Qed.

Lemma policy_off_stuck w : policy_off e0 w -> no_create_since e0 w.
Proof. by intros [_ ?]. Qed.

Lemma call_policy_off {A} p (m : HalWrapper -> Env -> A * HalWrapper * Env) Q w :
  policy_off e0 w ->
  creates_nothing m ->
  (forall r w', policy_off e0 w' -> Q r w') ->
  wp (call p m) Q (no_create_since e0) w.
Proof.
  intros [He (d & Hd & Hf)] Hm HQ. apply wp_call.
  destruct p; [by exists d|].
  destruct (sHalWrapper w) as [h|] eqn:E; [|by exists d].
  destruct (Hm h (env w)) as (d' & Hd' & Hf').
  apply HQ. split; [by destruct w|].
  exists (d ++ d'). split; [|by rewrite filter_app, Hf, Hf'].
  destruct w; cbn in *. by rewrite Hd', Hd, app_assoc.
Qed.

Lemma getPowerHal_policy_off w :
  policy_off e0 w ->
  wp (getPowerHal cfg) (fun _ => policy_off e0) (no_create_since e0) w.
Proof.
  intros HI. pose proof HI as (He & d & Hd & Hf).
  unfold wp. rewrite getPowerHal_eq.
  destruct (sHasHal w) eqn:Hhas; cbn [negb]; [|exact HI].
  destruct (_ && _); [exact HI|]. clear HI.
  connect_exec. unfold policy_off, no_create_since.
  destruct w as [bf ed ne en sp run rc su lt tm mx hw hh e]; simpl in *; subst.
  destruct hw as [[|[x1 x2 x3 ss q tg ad ids ls ts lts sr]]|]; simpl;
    unfold Aidl.destroy; simpl; try destruct ss as [s|]; simpl.
  all: case_reply WaitForVintfService;
    [| case_reply HidlGetService; [case_reply HidlCastFrom|] ].
  all: rewrite ?fresh_setPowerHintSessionThreadIds; simpl.
  all: rewrite ?idle_setTargetWorkDuration by done; simpl.
  all: try (destruct en as [[|]|]; simpl; [done| |]).
  all: rewrite ?Hd, <- ?app_assoc.
  all: try (split; [done|]).
  all: eexists; (split; [reflexivity|]); by rewrite filter_app, Hf.
Qed.
Ltac off_here :=
  lazymatch goal with
  | H : policy_off e0 ?w |- wp _ _ _ ?w => idtac
  | H : policy_off e0 ?w0 |- wp _ _ _ ?w1 =>
      let H' := fresh "HI" in
      assert (H' : policy_off e0 w1)
        by (clear -H; unfold policy_off, no_create_since in *;
            destruct w0 as [? ? ? ? ? ? ? ? ? ? ? ? ? []]; exact H);
      clear H; generalize dependent w1; intros ? ?
  | H : policy_off e0 ?w0 |- policy_off e0 ?w1 =>
      unfold policy_off, no_create_since in *;
      destruct w0 as [? ? ? ? ? ? ? ? ? ? ? ? ? []]; exact H
  | H : policy_off e0 ?w0 |- no_create_since e0 ?w1 =>
      unfold policy_off, no_create_since in *;
      destruct w0 as [? ? ? ? ? ? ? ? ? ? ? ? ? []]; exact (proj2 H)
  end.

Ltac off_step :=
  first
    [ done
    | lazymatch goal with
      | |- if ?c then _ else _ => destruct c
      | |- match ?c with _ => _ end => destruct c
      end
    | off_here;
      first
        [ lazymatch goal with
          | |- wp (getPowerHal _) _ _ _ =>
              eapply wp_use;
                [by apply getPowerHal_policy_off | cbv beta; intros ? ? ? | by intros]
          | |- wp (call _ _) _ _ _ =>
              eapply call_policy_off;
                [ eassumption
                | first [ apply setExpensiveRendering_creates_nothing
                        | apply notifyDisplayUpdateImminent_creates_nothing
                        | apply supportsPowerHintSession_creates_nothing
                        | apply setTargetWorkDuration_creates_nothing
                        | apply sendActualWorkDuration_creates_nothing ]
                | cbv beta; intros ? ? ? ]
          | H : policy_off e0 ?w
            |- wp (if default false (mPowerHintEnabled ?w) then _ else _) _ _ _ =>
              replace (default false (mPowerHintEnabled w)) with false
                by (destruct H as [H _];
                    by destruct (mPowerHintEnabled w) as [[|]|])
          end
        | wp_step; cbn [negb]; cbv beta iota
        | lazymatch goal with
          | |- wp (if ?c then _ else _) _ _ _ => destruct c
          | |- wp (match ?c with _ => _ end) _ _ _ => destruct c
          end ] ].

Lemma run_op_policy_off o w :
  o <> OpEnablePowerHint true ->
  policy_off e0 w ->
  wp (run_op cfg o) (fun _ => policy_off e0) (no_create_since e0) w.
Proof.
  intros Ho H.
  destruct o; cbn [run_op];
    unfold init, onBootFinished, setExpensiveRenderingExpected,
      notifyDisplayUpdateImminent, usePowerHintSession, supportsPowerHintSession,
      isPowerHintSessionRunning, setTargetWorkDuration, sendActualWorkDuration,
      enablePowerHint, startPowerHintSession, resetCallback, timeoutCallback_step,
      usePowerHintSession, usePowerHintSession_, supportsPowerHintSession_.
  10: { destruct enabled; [done|]. apply wp_modify.
        destruct H as [_ H]. split; [by destruct w | by destruct w]. }
  all: repeat off_step.
Qed.

Lemma run_policy_off ops :
  Forall (fun o => o <> OpEnablePowerHint true) ops ->
  forall w, policy_off e0 w ->
            wp (run cfg ops) (fun _ => policy_off e0) (no_create_since e0) w.
Proof.
  induction 1 as [|o ops Ho _ IH]; intros w Hw; cbn [run].
  - by apply wp_ret.
  - apply wp_bind. eapply wp_use; [by apply run_op_policy_off | | done].
    intros [] w1 H1. by apply IH.
Qed.
End PolicyOff.

Section PolicyOffTheorem.
Variable cfg : Config.

(** X17.  While the power hint is not enabled, no operation creates a hint
  session: from a state in which [mPowerHintEnabled] is not true, the
  calls made by a sequence of operations without [enablePowerHint(true)]
  contain no [createHintSession], whatever the wrapper holds and whether
  the execution returns or gets stuck. *)
Theorem no_hint_session_without_policy ops w :
  mPowerHintEnabled w <> Some true ->
  Forall (fun o => o <> OpEnablePowerHint true) ops ->
  filter is_create (calls_since (env w) (env (world_of (run cfg ops w)))) = [].
Proof.
  intros He Hops.
  assert (I0 : policy_off (env w) w).
  { split; [done|]. exists []. by rewrite app_nil_r. }
  pose proof (run_policy_off cfg (env w) ops Hops w I0) as R. unfold wp in R.
  assert (N : no_create_since (env w) (world_of (run cfg ops w))).
  { destruct (run cfg ops w); [by destruct R | done]. }
  destruct N as (d & Hd & Hf). by rewrite (calls_since_app _ _ _ Hd).
Qed.
End PolicyOffTheorem.

(** **** A HIDL wrapper receives toggles and nothing else *)

Section Legacy.
Variable cfg : Config.
Variable e0 : Env.

Lemma setExpensiveRendering_on_hidl x :
  on_hidl (HalWrapper.setExpensiveRendering x) (fun r => r = true).
Proof.
  intros e He. cbn. rewrite He. repeat split.
  exists [PowerHintAsync_1_3 x]. split; [done|]. repeat constructor. by exists x.
Qed.

Lemma notifyDisplayUpdateImminent_on_hidl :
  on_hidl HalWrapper.notifyDisplayUpdateImminent (fun r => r = true).
Proof. intros e He. cbn. repeat split. exists []. by rewrite app_nil_r. Qed.

Lemma no_call_on_hidl {A} (m : HalWrapper -> Env -> A * HalWrapper * Env) P :
  (forall e, m HidlWrapper e = (fst (fst (m HidlWrapper e)), HidlWrapper, e)) ->
  (forall e, P (fst (fst (m HidlWrapper e)))) ->
  on_hidl m P.
Proof.
  intros Hm HP e He. rewrite Hm. cbn. repeat split; [apply HP|].
  exists []. by rewrite app_nil_r.
Qed.

Lemma call_legacy {A} p (m : HalWrapper -> Env -> A * HalWrapper * Env)
    (P : A -> Prop) Q w :
  legacy_since e0 w ->
  on_hidl m P ->
  (forall r w', P r -> legacy_since e0 w' -> Q r w') ->
  wp (call p m) Q (fun _ => True) w.
Proof.
  intros (Hw & Hh & Hr & Ha & d & Hd & Hf) Hm HQ. apply wp_call.
  destruct p; [done|]. rewrite Hw.
  destruct (Hm (env w) Ha) as (HP & Hh' & Hhal & d' & Hd' & Hf').
  apply HQ; [done|]. unfold legacy_since, toggles_accepted in *.
  destruct w; cbn in *. rewrite Hh', Hhal, Hd', Hd, <- app_assoc.
  repeat split; try done. exists (d ++ d'). split; [done|]. by apply Forall_app.
Qed.

Lemma getPowerHal_legacy w :
  legacy_since e0 w ->
  wp (getPowerHal cfg) (fun p w' => p = ToStatic /\ legacy_since e0 w')
     (fun _ => True) w.
Proof.
  intros HI. pose proof HI as (Hw & Hh & Hr & _).
  unfold wp, getPowerHal. rewrite getPowerHal_connected; [done|].
  repeat split; [done | done |]. by exists HidlWrapper.
Qed.

Ltac legacy_here :=
  lazymatch goal with
  | H : legacy_since e0 ?w |- wp _ _ _ ?w => idtac
  | H : legacy_since e0 ?w0 |- wp _ _ _ ?w1 =>
      let H' := fresh "HI" in
      assert (H' : legacy_since e0 w1)
        by (clear -H; unfold legacy_since, toggles_accepted in *;
            destruct w0 as [? ? ? ? ? ? ? ? ? ? ? ? ? []]; exact H);
      clear H; generalize dependent w1; intros ? ?
  | H : legacy_since e0 ?w0 |- legacy_since e0 ?w1 =>
      unfold legacy_since, toggles_accepted in *;
      destruct w0 as [? ? ? ? ? ? ? ? ? ? ? ? ? []]; exact H
  end.

Ltac legacy_step :=
  first
    [ done
    | lazymatch goal with
      | |- if ?c then _ else _ => destruct c
      | |- match ?c with _ => _ end => destruct c
      end
    | legacy_here;
      first
        [ lazymatch goal with
          | |- wp (getPowerHal _) _ _ _ =>
              eapply wp_use;
                [by apply getPowerHal_legacy
                | cbv beta; intros ? ? [-> ?]; cbv beta iota | by intros]
          | |- wp (call _ _) _ _ _ =>
              eapply call_legacy;
                [ eassumption
                | first [ apply setExpensiveRendering_on_hidl
                        | apply notifyDisplayUpdateImminent_on_hidl
                        | apply no_call_on_hidl with (P := fun _ => True);
                            intros; reflexivity ]
                | cbv beta; intros ? ? ? ?; subst; cbn [negb] ]
          end
        | wp_step
        | lazymatch goal with
          | |- wp (if ?c then _ else _) _ _ _ => destruct c
          | |- wp (match ?c with _ => _ end) _ _ _ => destruct c
          end ] ].

Lemma run_op_legacy o w :
  legacy_since e0 w ->
  wp (run_op cfg o) (fun _ => legacy_since e0) (fun _ => True) w.
Proof.
  intros H.
  destruct o; cbn [run_op];
    unfold init, onBootFinished, setExpensiveRenderingExpected,
      notifyDisplayUpdateImminent, usePowerHintSession, supportsPowerHintSession,
      isPowerHintSessionRunning, setTargetWorkDuration, sendActualWorkDuration,
      enablePowerHint, startPowerHintSession, resetCallback, timeoutCallback_step,
      usePowerHintSession, usePowerHintSession_, supportsPowerHintSession_.
  all: repeat legacy_step.
Qed.
End Legacy.

Section LegacyTheorem.
Variable cfg : Config.

(** X18.  A connected HIDL wrapper whose HAL accepts the toggle is never
  replaced, and the only calls its HAL receives are [powerHintAsync_1_3]
  toggles: the boost, hint sessions, targets and reports never reach it. *)
Theorem hidl_wrapper_receives_only_toggles ops w w' :
  sHalWrapper w = Some HidlWrapper ->
  sHasHal w = true ->
  mReconnectPowerHal w = false ->
  (forall n x, isOk (hal (env w) n (PowerHintAsync_1_3 x)) = true) ->
  run cfg ops w = Done tt w' ->
  Forall (fun c => exists x, c = PowerHintAsync_1_3 x)
         (calls_since (env w) (env w'))
  /\ sHalWrapper w' = Some HidlWrapper.
Proof.
  intros Hw Hh Hr Ha Hrun.
  assert (I0 : legacy_since (env w) w).
  { repeat split; try done. exists []. by rewrite app_nil_r. }
  pose proof (run_wp cfg (legacy_since (env w)) (fun _ => True)
                (run_op_legacy cfg (env w)) ops w I0) as R.
  unfold wp in R. rewrite Hrun in R.
  destruct R as (Hw' & _ & _ & _ & d & Hd & Hf).
  split; [|done]. by rewrite (calls_since_app _ _ _ Hd).
Qed.
End LegacyTheorem.

(** **** Before boot has finished *)

Section BeforeBoot.
Variable cfg : Config.
Variable e0 : Env.

Ltac none_leaf :=
  cbn;
  first [ exists []; by rewrite ?app_nil_r
        | eexists; split; [by rewrite <- ?app_assoc | done] ].

Lemma setExpensiveRendering_sends_none_gated x :
  sends_none_gated (HalWrapper.setExpensiveRendering x).
Proof.
  intros [|a] e; cbn; [none_leaf|].
  unfold Aidl.setExpensiveRendering.
  destruct (Aidl.mHasExpensiveRendering a); none_leaf.
Qed.

Lemma supportsPowerHintSession_sends_none_gated :
  sends_none_gated HalWrapper.supportsPowerHintSession.
Proof. intros [|a] e; none_leaf. Qed.

Lemma setTargetWorkDuration_sends_none_gated d :
  sends_none_gated (HalWrapper.setTargetWorkDuration cfg d).
Proof.
  intros [|a] e; [none_leaf|]. cbn.
  unfold Aidl.setTargetWorkDuration.
  destruct (_ && _); [|none_leaf].
  destruct a as [? ? ? [s|] ? ? ? ? ? ? ? ?]; cbn; [|none_leaf].
  destruct (isOk _); none_leaf.
Qed.

Lemma setPowerHintSessionThreadIds_sends_none_gated ids :
  sends_none_gated (HalWrapper.setPowerHintSessionThreadIds ids).
Proof.
  intros [|a] e; [none_leaf|]. cbn.
  unfold Aidl.setPowerHintSessionThreadIds, Aidl.restartPowerHintSession,
    Aidl.closePowerHintSession, Aidl.startPowerHintSession,
    Aidl.isPowerHintSessionRunning.
  destruct a as [? ? ? [s|] ? ? ? ? ? ? ? ?]; cbn.
  all: repeat (case_bool_decide; simplify_eq; cbn).
  all: try (destruct (isOk _); cbn; [destruct (out _); cbn|]).
  all: none_leaf.
Qed.

Lemma startPowerHintSession_sends_none_gated :
  sends_none_gated HalWrapper.startPowerHintSession.
Proof.
  intros [|a] e; [none_leaf|]. cbn.
  unfold Aidl.startPowerHintSession, Aidl.isPowerHintSessionRunning.
  destruct a as [? ? ? [s|] ? ? ? ? ? ? ? ?]; cbn.
  all: repeat (case_bool_decide; simplify_eq; cbn).
  all: try (destruct (isOk _); cbn; [destruct (out _); cbn|]).
  all: none_leaf.
Qed.

Lemma call_before_boot {A} p (m : HalWrapper -> Env -> A * HalWrapper * Env) Q w :
  before_boot e0 w ->
  sends_none_gated m ->
  (forall r w', before_boot e0 w' -> Q r w') ->
  wp (call p m) Q (none_gated_since e0) w.
Proof.
  intros [Hb (d & Hd & Hf)] Hm HQ. apply wp_call.
  destruct p; [by exists d|].
  destruct (sHalWrapper w) as [h|] eqn:E; [|by exists d].
  destruct (Hm h (env w)) as (d' & Hd' & Hf').
  apply HQ. split; [by destruct w|].
  exists (d ++ d'). split; [|by rewrite filter_app, Hf, Hf'].
  destruct w; cbn in *. by rewrite Hd', Hd, app_assoc.
Qed.

Lemma getPowerHal_before_boot w :
  before_boot e0 w ->
  wp (getPowerHal cfg) (fun _ => before_boot e0) (none_gated_since e0) w.
Proof.
  intros HI. pose proof HI as (Hb & d & Hd & Hf).
  unfold wp. rewrite getPowerHal_eq.
  destruct (sHasHal w) eqn:Hhas; cbn [negb]; [|exact HI].
  destruct (_ && _); [exact HI|]. clear HI.
  connect_exec. unfold before_boot, none_gated_since.
  destruct w as [bf ed ne en sp run rc su lt tm mx hw hh e]; simpl in *; subst.
  destruct hw as [[|[x1 x2 x3 ss q tg ad ids ls ts lts sr]]|]; simpl;
    unfold Aidl.destroy; simpl; try destruct ss as [s|]; simpl.
  all: case_reply WaitForVintfService;
    [| case_reply HidlGetService; [case_reply HidlCastFrom|] ].
  all: rewrite ?fresh_setPowerHintSessionThreadIds; simpl.
  all: rewrite ?idle_setTargetWorkDuration by done; simpl.
  all: try (destruct en as [[|]|]; simpl).
  all: try (destruct sp as [[|]|]; simpl).
  all: try (destruct mx; simpl).
  all: try (destruct (isOk (hal _ _ GetHintSessionPreferredRate)); simpl).
  all: try (destruct ids as [|i ids]; simpl).
  all: unfold Aidl.startPowerHintSession; simpl.
  all: try (destruct (isOk (hal _ _ (CreateHintSession _ _))); simpl;
            [destruct (out (hal _ _ (CreateHintSession _ _))); simpl|]).
  all: rewrite ?Hd, <- ?app_assoc.
  all: try (split; [done|]).
  all: eexists; (split; [reflexivity|]); by rewrite filter_app, Hf.
Qed.

Ltac boot_here :=
  lazymatch goal with
  | H : before_boot e0 ?w |- wp _ _ _ ?w => idtac
  | H : before_boot e0 ?w0 |- wp _ _ _ ?w1 =>
      let H' := fresh "HI" in
      assert (H' : before_boot e0 w1)
        by (clear -H; unfold before_boot, none_gated_since in *;
            destruct w0 as [? ? ? ? ? ? ? ? ? ? ? ? ? []]; exact H);
      clear H; generalize dependent w1; intros ? ?
  | H : before_boot e0 ?w0 |- before_boot e0 ?w1 =>
      unfold before_boot, none_gated_since in *;
      destruct w0 as [? ? ? ? ? ? ? ? ? ? ? ? ? []]; exact H
  | H : before_boot e0 ?w0 |- none_gated_since e0 ?w1 =>
      unfold before_boot, none_gated_since in *;
      destruct w0 as [? ? ? ? ? ? ? ? ? ? ? ? ? []]; exact (proj2 H)
  end.

Ltac boot_step :=
  first
    [ done
    | lazymatch goal with
      | |- if ?c then _ else _ => destruct c
      | |- match ?c with _ => _ end => destruct c
      end
    | boot_here;
      first
        [ lazymatch goal with
          | |- wp (getPowerHal _) _ _ _ =>
              eapply wp_use;
                [by apply getPowerHal_before_boot | cbv beta; intros ? ? ? | by intros]
          | |- wp (call _ _) _ _ _ =>
              eapply call_before_boot;
                [ eassumption
                | first [ apply setExpensiveRendering_sends_none_gated
                        | apply supportsPowerHintSession_sends_none_gated
                        | apply setTargetWorkDuration_sends_none_gated
                        | apply setPowerHintSessionThreadIds_sends_none_gated
                        | apply startPowerHintSession_sends_none_gated ]
                | cbv beta; intros ? ? ? ]
          | H : before_boot e0 ?w |- context [mBootFinished ?w] =>
              rewrite (proj1 H); cbn [negb]; cbv beta iota
          end
        | wp_step; cbv beta iota
        | lazymatch goal with
          | |- wp (if ?c then _ else _) _ _ _ => destruct c
          | |- wp (match ?c with _ => _ end) _ _ _ => destruct c
          end ] ].

Lemma run_op_before_boot o w :
  o <> OpOnBootFinished ->
  before_boot e0 w ->
  wp (run_op cfg o) (fun _ => before_boot e0) (none_gated_since e0) w.
Proof.
  intros Ho H.
  destruct o; cbn [run_op]; [ | done | .. ];
    unfold init, onBootFinished, setExpensiveRenderingExpected,
      notifyDisplayUpdateImminent, usePowerHintSession, supportsPowerHintSession,
      isPowerHintSessionRunning, setTargetWorkDuration, sendActualWorkDuration,
      enablePowerHint, startPowerHintSession, resetCallback, timeoutCallback_step,
      usePowerHintSession, usePowerHintSession_, supportsPowerHintSession_.
  all: repeat boot_step.
Qed.

Lemma run_before_boot ops :
  Forall (fun o => o <> OpOnBootFinished) ops ->
  forall w, before_boot e0 w ->
            wp (run cfg ops) (fun _ => before_boot e0) (none_gated_since e0) w.
Proof.
  induction 1 as [|o ops Ho _ IH]; intros w Hw; cbn [run].
  - by apply wp_ret.
  - apply wp_bind. eapply wp_use; [by apply run_op_before_boot | | done].
    intros [] w1 H1. by apply IH.
Qed.
End BeforeBoot.

(** **** Giving up, and re-arming the boost *)

Section Final.
Variable cfg : Config.

(** X21.  Before [onBootFinished] neither the update-imminent boost nor a
  report of actual durations is sent, whatever other operations run. *)
Theorem nothing_gated_before_boot ops w :
  mBootFinished w = false ->
  Forall (fun o => o <> OpOnBootFinished) ops ->
  filter is_boot_gated (calls_since (env w) (env (world_of (run cfg ops w)))) = [].
Proof.
  intros Hb Hops.
  assert (I0 : before_boot (env w) w).
  { split; [done|]. exists []. by rewrite app_nil_r. }
  pose proof (run_before_boot cfg (env w) ops Hops w I0) as R. unfold wp in R.
  assert (N : none_gated_since (env w) (world_of (run cfg ops w))).
  { destruct (run cfg ops w); [by destruct R | done]. }
  destruct N as (d & Hd & Hf). by rewrite (calls_since_app _ _ _ Hd).
Qed.

(** X19.  Once [getPowerHal] has given up it stays so: whatever operations
  follow, not one call is made to the HAL and no wrapper is created. *)
Theorem gave_up_is_final ops w :
  sHasHal w = false ->
  sHalWrapper w = None ->
  let w' := world_of (run cfg ops w) in
  log (env w') = log (env w) /\ sHasHal w' = false /\ sHalWrapper w' = None.
Proof.
  intros Hh Hw. cbv zeta.
  destruct (run_silent cfg ops w (conj Hh Hw)) as [[H1 H2] H3]. done.
Qed.

(** X20.  Once the timeout has passed since the last screen update, the
  timeout callback re-arms the flag and the next
  [notifyDisplayUpdateImminent] sends a boost again, exactly one, and
  leaves the flag down. *)
Theorem timeout_rearms_boost w a :
  hasScreenUpdateTimer cfg = true ->
  mBootFinished w = true ->
  mPowerHalMutex w = false ->
  sHasHal w = true ->
  mReconnectPowerHal w = false ->
  sHalWrapper w = Some (AidlWrapper a) ->
  Aidl.mShouldReconnectHal a = false ->
  Aidl.mHasDisplayUpdateImminent a = true ->
  getUpdateTimeout cfg <= clock (env w) (ticks (env w)) - mLastScreenUpdatedTime w ->
  isOk (hal (env w) (length (log (env w))) SetBoost) = true ->
  exists w',
    run cfg [OpTimerTimeoutStep; OpNotifyDisplayUpdateImminent] w = Done tt w'
    /\ boosts w w' = 1%nat
    /\ mSendUpdateImminent w' = false.
Proof.
  intros Ht Hb Hm Hh Hr Hw Hs Hc Hpast Hok.
  cbn [run run_op]. unfold mbind at 1 2. unfold M_bind.
  unfold timeoutCallback_step, mbind, M_bind, in_env, gets, modify, mret, M_ret.
  cbn [systemTime]. cbv beta iota.
  replace (mLastScreenUpdatedTime (set_env _ w)) with (mLastScreenUpdatedTime w)
    by (by destruct w).
  apply Z.leb_le in Hpast. rewrite Hpast.
  match goal with
  | |- context [notifyDisplayUpdateImminent cfg ?w1] =>
      destruct (notifyDisplayUpdateImminent_first cfg w1 a) as (w2 & E & D);
        try (by destruct w)
  end.
  rewrite E. exists w2. split; [done|].
  destruct D as (_ & Hf & _ & Hl & _).
  split; [|done].
  unfold boosts. rewrite (calls_since_app _ _ [SetBoost]); [done|].
  rewrite Hl. by destruct w.
Qed.
End Final.

(** **** The properties above on the example devices *)

Lemma getPowerHal_connects_in_order_witness :
  let w := initial hal_legacy clock_ms in
  let r := getPowerHal cfg0 w in
  calls_since (env w) (env (world_of r))
  = [WaitForVintfService; HidlGetService; HidlCastFrom]
  /\ r = Done ToStatic (world_of r)
  /\ sHalWrapper (world_of r) = Some HidlWrapper.
Proof.
  pose proof (getPowerHal_connects_in_order cfg0 (initial hal_legacy clock_ms)
                eq_refl eq_refl) as H.
  cbv zeta in H.
  change (out (hal (env (initial hal_legacy clock_ms))
                 (length (log (env (initial hal_legacy clock_ms))))
                 WaitForVintfService)) with false in H.
  change (out (hal (env (initial hal_legacy clock_ms))
                 (S (length (log (env (initial hal_legacy clock_ms)))))
                 HidlGetService)) with true in H.
  change (out (hal (env (initial hal_legacy clock_ms))
                 (S (S (length (log (env (initial hal_legacy clock_ms))))))
                 HidlCastFrom)) with true in H.
  cbv beta iota in H. exact H.
Defined.

Lemma supportsPowerHintSession_first_use_witness :
  exists w',
    supportsPowerHintSession cfg0 (initial hal_legacy clock_ms) = Done false w'
    /\ mSupportsPowerHint w' = Some false.
Proof.
  exact (supportsPowerHintSession_first_use cfg0 (initial hal_legacy clock_ms)
           eq_refl eq_refl eq_refl eq_refl).
Defined.

Lemma getPowerHal_reconnect_closes_session_witness :
  let w := set_mPowerHalMutex true (world_after hal_failing_target ops_broken_session) in
  exists rest,
    calls_since (env w) (env (world_of (getPowerHal cfg0 w)))
    = SessionClose 4%nat :: WaitForVintfService :: rest
    /\ Forall (fun c => forall s', c <> SessionClose s') rest
    /\ mReconnectPowerHal (world_of (getPowerHal cfg0 w)) = false.
Proof.
  cbv zeta.
  set (w := set_mPowerHalMutex true (world_after hal_failing_target ops_broken_session)).
  assert (Hw : exists a, sHalWrapper w = Some (AidlWrapper a)
                         /\ Aidl.mPowerHintSession a = Some 4%nat
                         /\ Aidl.mShouldReconnectHal a = true).
  { vm_compute. eexists. repeat split. }
  destruct Hw as (a & Hw & Hs & Hre).
  apply (getPowerHal_reconnect_closes_session cfg0 w a 4%nat);
    [reflexivity | exact Hw | exact Hs | right; exact Hre].
Defined.

Lemma getPowerHal_relocks_witness :
  let ops := [OpSetExpensiveRenderingExpected 0 true; OpEnablePowerHint true] in
  (exists w', getPowerHal cfg0 (set_mPowerHalMutex true (world_after hal_failing_mode ops))
              = Stuck Relock w')
  /\ (exists w', run cfg0 (ops ++ [OpSetExpensiveRenderingExpected 1 true])
                   (initial hal_failing_mode clock_ms) = Stuck Relock w').
Proof.
  cbv zeta. split; [|vm_compute; eexists; reflexivity].
  set (w := set_mPowerHalMutex true (world_after hal_failing_mode _)).
  assert (Hw : exists a, sHalWrapper w = Some (AidlWrapper a)
                         /\ Aidl.mPowerHintSession a = None).
  { vm_compute. eexists. repeat split. }
  destruct Hw as (a & Hw & Hs).
  apply (getPowerHal_relocks cfg0 w a);
    [reflexivity | reflexivity | exact Hw | left; reflexivity
    | reflexivity | reflexivity |].
  unfold HalWrapper.destroy, Aidl.destroy. rewrite Hs. reflexivity.
Defined.

Lemma setExpensiveRenderingExpected_syncs_witness :
  let w := initial hal_ok clock_ms in
  let w' := world_of (setExpensiveRenderingExpected cfg0 0 true w) in
  mExpensiveDisplays w' = {[0]} ∪ mExpensiveDisplays w
  /\ (mNotifiedExpensiveRendering w'
        = negb (bool_decide ({[0]} ∪ mExpensiveDisplays w = ∅))
      \/ mReconnectPowerHal w' = true
      \/ sHasHal w' = false).
Proof.
  apply (setExpensiveRenderingExpected_syncs cfg0 0 true (initial hal_ok clock_ms)).
  vm_compute. reflexivity.
Defined.

Lemma startPowerHintSession_again_reports_false_witness :
  let w := world_after hal_ok ops_session in
  mPowerHintSessionRunning w = true
  /\ startPowerHintSession cfg0 [1; 2] w
     = Done false (set_mPowerHintSessionRunning false w).
Proof.
  cbv zeta. split; [vm_compute; reflexivity|].
  set (w := world_after hal_ok ops_session).
  assert (Hw : exists a, sHalWrapper w = Some (AidlWrapper a)
                         /\ Aidl.mShouldReconnectHal a = false
                         /\ Aidl.mPowerHintSession a = Some 4%nat
                         /\ Aidl.mPowerHintThreadIds a = [1; 2]).
  { vm_compute. eexists. repeat split. }
  destruct Hw as (a & Hw & Hsr & Hs & Hids).
  rewrite <- Hids.
  apply (startPowerHintSession_again_reports_false cfg0 w a 4%nat);
    [reflexivity | reflexivity | reflexivity | exact Hw | exact Hsr | exact Hs
    | reflexivity | reflexivity].
Defined.

Lemma notifyDisplayUpdateImminent_unthrottled_witness :
  let w := world_of (run cfg_untimed ops_connected (initial hal_ok clock_ms)) in
  run cfg_untimed (replicate 3 OpNotifyDisplayUpdateImminent) w =
  Done tt (set_env {| hal := hal (env w);
                      log := log (env w) ++ replicate 3 SetBoost;
                      clock := clock (env w);
                      ticks := ticks (env w) |} w).
Proof.
  cbv zeta.
  set (w := world_of (run cfg_untimed ops_connected (initial hal_ok clock_ms))).
  assert (Hw : exists a, sHalWrapper w = Some (AidlWrapper a)
                         /\ Aidl.mShouldReconnectHal a = false
                         /\ Aidl.mHasDisplayUpdateImminent a = true).
  { vm_compute. eexists. repeat split. }
  destruct Hw as (a & Hw & Hsr & Hc).
  apply (notifyDisplayUpdateImminent_unthrottled cfg_untimed 3 w a);
    [reflexivity | reflexivity | reflexivity | reflexivity | reflexivity | reflexivity
    | exact Hw | exact Hsr | exact Hc | intros k; reflexivity].
Defined.

Lemma notifyDisplayUpdateImminent_failed_boost_disarms_witness :
  let w := world_of (run cfg_untimed ops_connected (initial hal_failing_boost clock_ms)) in
  exists w1,
    notifyDisplayUpdateImminent cfg_untimed w = Done tt w1
    /\ calls_since (env w) (env w1) = [SetBoost]
    /\ mSendUpdateImminent w1 = false
    /\ mReconnectPowerHal w1 = true
    /\ forall n, run cfg_untimed (replicate n OpNotifyDisplayUpdateImminent) w1
                 = Done tt w1.
Proof.
  cbv zeta.
  set (w := world_of (run cfg_untimed ops_connected
                        (initial hal_failing_boost clock_ms))).
  assert (Hw : exists a, sHalWrapper w = Some (AidlWrapper a)
                         /\ Aidl.mShouldReconnectHal a = false
                         /\ Aidl.mHasDisplayUpdateImminent a = true).
  { vm_compute. eexists. repeat split. }
  destruct Hw as (a & Hw & Hsr & Hc).
  apply (notifyDisplayUpdateImminent_failed_boost_disarms cfg_untimed w a);
    [reflexivity | reflexivity | reflexivity | reflexivity | reflexivity | reflexivity
    | exact Hw | exact Hsr | exact Hc | reflexivity].
Defined.

Lemma supportsPowerHintSession_answers_from_cache_witness :
  let w := world_after hal_ok ops_session in
  let ops := [OpSetTargetWorkDuration 16000000; OpEnablePowerHint false;
              OpSupportsPowerHintSession] in
  let w' := world_of (run cfg0 ops w) in
  supportsPowerHintSession cfg0 w' = Done true w'.
Proof.
  apply (supportsPowerHintSession_answers_from_cache cfg0 true
           [OpSetTargetWorkDuration 16000000; OpEnablePowerHint false;
            OpSupportsPowerHintSession]
           (world_after hal_ok ops_session)).
  reflexivity.
Defined.

Lemma isPowerHintSessionRunning_has_session_witness :
  let w := world_after hal_ok ops_session in
  exists a s,
    sHalWrapper w = Some (AidlWrapper a) /\ Aidl.mPowerHintSession a = Some s.
Proof.
  apply (isPowerHintSessionRunning_has_session cfg0 (world_after hal_ok ops_session)).
  - apply world_after_reachable. vm_compute. reflexivity.
  - vm_compute. reflexivity.
Defined.

Lemma healthy_hal_connects_once_witness :
  let ops := ops_session ++ [OpSetTargetWorkDuration 16000000;
                             OpSendActualWorkDuration 9000000 1;
                             OpNotifyDisplayUpdateImminent;
                             OpSetExpensiveRenderingExpected 0 true] in
  (length (filter is_attempt (log (env (world_after hal_ok ops)))) <= 1)%nat.
Proof.
  cbv zeta.
  apply (healthy_hal_connects_once cfg0 hal_ok clock_ms
           (ops_session ++ [OpSetTargetWorkDuration 16000000;
                            OpSendActualWorkDuration 9000000 1;
                            OpNotifyDisplayUpdateImminent;
                            OpSetExpensiveRenderingExpected 0 true])).
  - intros n c. reflexivity.
  - vm_compute. reflexivity.
Defined.

Lemma no_hint_session_without_policy_witness :
  let w := initial hal_ok clock_ms in
  let ops := [OpOnBootFinished; OpStartPowerHintSession [1; 2];
              OpSetTargetWorkDuration 16000000; OpEnablePowerHint false;
              OpStartPowerHintSession [1; 2]; OpSendActualWorkDuration 9000000 1] in
  filter is_create (calls_since (env w) (env (world_of (run cfg0 ops w)))) = [].
Proof.
  apply (no_hint_session_without_policy cfg0
           [OpOnBootFinished; OpStartPowerHintSession [1; 2];
            OpSetTargetWorkDuration 16000000; OpEnablePowerHint false;
            OpStartPowerHintSession [1; 2]; OpSendActualWorkDuration 9000000 1]
           (initial hal_ok clock_ms)).
  - discriminate.
  - repeat (apply List.Forall_cons; [discriminate|]). apply List.Forall_nil.
Defined.

Lemma hidl_wrapper_receives_only_toggles_witness :
  let w := world_of (run cfg0 ops_connected (initial hal_legacy clock_ms)) in
  let ops := [OpNotifyDisplayUpdateImminent; OpEnablePowerHint true;
              OpStartPowerHintSession [1; 2]; OpSetTargetWorkDuration 16000000;
              OpSetExpensiveRenderingExpected 0 false] in
  let w' := world_of (run cfg0 ops w) in
  Forall (fun c => exists x, c = PowerHintAsync_1_3 x) (calls_since (env w) (env w'))
  /\ sHalWrapper w' = Some HidlWrapper.
Proof.
  cbv zeta.
  apply (hidl_wrapper_receives_only_toggles cfg0
           [OpNotifyDisplayUpdateImminent; OpEnablePowerHint true;
            OpStartPowerHintSession [1; 2]; OpSetTargetWorkDuration 16000000;
            OpSetExpensiveRenderingExpected 0 false]
           (world_of (run cfg0 ops_connected (initial hal_legacy clock_ms))));
    [reflexivity | reflexivity | reflexivity | intros n x; reflexivity
    | vm_compute; reflexivity].
Defined.

Lemma gave_up_is_final_witness :
  let w := world_after hal_absent [OpSetExpensiveRenderingExpected 0 true] in
  let ops := [OpOnBootFinished; OpNotifyDisplayUpdateImminent;
              OpSetExpensiveRenderingExpected 1 true] in
  let w' := world_of (run cfg0 ops w) in
  log (env w') = log (env w) /\ sHasHal w' = false /\ sHalWrapper w' = None.
Proof.
  apply (gave_up_is_final cfg0
           [OpOnBootFinished; OpNotifyDisplayUpdateImminent;
            OpSetExpensiveRenderingExpected 1 true]
           (world_after hal_absent [OpSetExpensiveRenderingExpected 0 true]));
    reflexivity.
Defined.

Lemma timeout_rearms_boost_witness :
  let w := world_of (run cfg0 [OpInit; OpOnBootFinished;
                               OpSetExpensiveRenderingExpected 0 true;
                               OpNotifyDisplayUpdateImminent]
                       (initial hal_ok clock_100ms)) in
  exists w',
    run cfg0 [OpTimerTimeoutStep; OpNotifyDisplayUpdateImminent] w = Done tt w'
    /\ boosts w w' = 1%nat
    /\ mSendUpdateImminent w' = false.
Proof.
  cbv zeta.
  set (w := world_of (run cfg0 _ (initial hal_ok clock_100ms))).
  assert (Hw : exists a, sHalWrapper w = Some (AidlWrapper a)
                         /\ Aidl.mShouldReconnectHal a = false
                         /\ Aidl.mHasDisplayUpdateImminent a = true).
  { vm_compute. eexists. repeat split. }
  destruct Hw as (a & Hw & Hsr & Hc).
  apply (timeout_rearms_boost cfg0 w a);
    [reflexivity | reflexivity | reflexivity | reflexivity | reflexivity
    | exact Hw | exact Hsr | exact Hc | vm_compute; discriminate | reflexivity].
Defined.

Lemma nothing_gated_before_boot_witness :
  let w := initial hal_ok clock_ms in
  let ops := [OpInit; OpEnablePowerHint true; OpSetExpensiveRenderingExpected 0 true;
              OpNotifyDisplayUpdateImminent; OpStartPowerHintSession [1; 2];
              OpSendActualWorkDuration 9000000 1] in
  filter is_boot_gated (calls_since (env w) (env (world_of (run cfg0 ops w)))) = [].
Proof.
  apply (nothing_gated_before_boot cfg0
           [OpInit; OpEnablePowerHint true; OpSetExpensiveRenderingExpected 0 true;
            OpNotifyDisplayUpdateImminent; OpStartPowerHintSession [1; 2];
            OpSendActualWorkDuration 9000000 1]
           (initial hal_ok clock_ms)).
  - reflexivity.
  - repeat (apply List.Forall_cons; [discriminate|]). apply List.Forall_nil.
Defined.
